(** * ui-inspector link checker: validation engine

    A shallow embedding of the link validation engine of the extension:
    - [JsString]: the few JavaScript string operations the code relies on;
    - [LinkValidator]: [classifyStatus], [getStatusText],
      [shouldFallbackToGet] and [validateLink] (src/background/linkValidator.ts);
    - [CsvExporter]: [escapeCSVValue] (src/background/csvExporter.ts);
    - [Limiter]: the [Semaphore] class (src/background/batchProcessor.ts);
    - [Orchestrator]: [BatchProcessor] with [start], [resume], [cancel],
      [processLinks] and [processBatch] (src/background/batchProcessor.ts);
    - [Messaging], [Notifier]: [PortManager] and [ProgressNotifier]
      (src/shared/messaging.ts, src/background/progressNotifier.ts);
    - [Popup]: the state of the popup, its filter, order and summary
      (src/popup/popup.ts);
    - [LinkExtractor], [Highlighter]: the content script
      (src/content/linkExtractor.ts, src/content/elementHighlighter.ts);
    - [Injector]: src/background/contentScriptInjector.ts;
    - [Background]: [startValidation] (src/background/background.ts);
    - [CsvReport]: [generateCSV] (src/background/csvExporter.ts).

    Asynchronous code is modelled by explicit state passing.  Everything the
    code cannot decide by itself (network replies, the order in which
    in-flight probes complete, the moment [cancel()] is invoked, storage
    failures) is read from an oracle, and the theorems quantify over it. *)

From Stdlib Require Import ZArith String Ascii List Lia Bool DecimalString DecimalZ.
From stdpp Require Import base list strings gmap.

Local Open Scope string_scope.
Local Open Scope Z_scope.

(** ** JavaScript strings *)

Module JsString.

(** The double quote character, U+0022. *)
Definition dquote : ascii := ascii_of_nat 34.
(** Line feed and carriage return. *)
Definition lf : ascii := ascii_of_nat 10.
Definition cr : ascii := ascii_of_nat 13.

Definition str1 (c : ascii) : string := String c EmptyString.

(** [s.includes(needle)] *)
Fixpoint includes (needle s : string) : bool :=
  String.prefix needle s ||
  match s with
  | EmptyString => false
  | String _ s' => includes needle s'
  end.

(** [s.replace(/c/g, r)] for a one-character pattern. *)
Fixpoint replaceAll (c : ascii) (r : string) (s : string) : string :=
  match s with
  | EmptyString => EmptyString
  | String a s' =>
      if Ascii.eqb a c then r ++ replaceAll c r s'
      else String a (replaceAll c r s')
  end.

(** Truthiness of a string: only the empty string is falsy. *)
Definition truthy (s : string) : bool :=
  match s with EmptyString => false | _ => true end.

(** [a || b] on strings. *)
Definition orElse (a b : string) : string := if truthy a then a else b.

(** [String(n)] for an integral number. *)
Definition ofZ (z : Z) : string := NilZero.string_of_int (Z.to_int z).

(** Membership of a character, the specification side of [includes]. *)
Fixpoint mem (c : ascii) (s : string) : bool :=
  match s with
  | EmptyString => false
  | String a s' => Ascii.eqb a c || mem c s'
  end.

End JsString.

(** ** Shared types (src/shared/types.ts) *)

Inductive LinkTagName : Type := A | IMG | LINK | SCRIPT.

Inductive StatusCategory : Type :=
| success | redirect | client_error | server_error | timeout | network_error.

Module LinkInfo.
Record t : Type := mk {
  url : string;
  tagName : LinkTagName;
  text : option string;
  elementId : string
}.
End LinkInfo.

Module ValidationResult.
Record t : Type := mk {
  url : string;
  status : option Z;
  statusCategory : StatusCategory;
  statusText : string;
  tagName : LinkTagName;
  text : option string;
  elementId : string;
  checkedAt : string
}.
End ValidationResult.

Module ValidationProgress.
Record t : Type := mk {
  total : nat;
  completed : nat;
  current : option ValidationResult.t
}.
End ValidationProgress.

(** ** Status classifier and single-link validator *)

Module LinkValidator.
Import JsString.

(** [classifyStatus(status: number | null)] *)
Definition classifyStatus (status : option Z) : StatusCategory :=
  match status with
  | None => network_error
  | Some status =>
      if (200 <=? status) && (status <? 300) then success
      else if (300 <=? status) && (status <? 400) then redirect
      else if (400 <=? status) && (status <? 500) then client_error
      else if 500 <=? status then server_error
      else network_error
  end.

(** The [statusDescriptions] table of [getStatusText]. *)
Definition statusDescriptions (status : Z) : option string :=
  match status with
  | 200 => Some "OK"
  | 201 => Some "Created"
  | 204 => Some "No Content"
  | 301 => Some "Moved Permanently"
  | 302 => Some "Found"
  | 303 => Some "See Other"
  | 304 => Some "Not Modified"
  | 307 => Some "Temporary Redirect"
  | 308 => Some "Permanent Redirect"
  | 400 => Some "Bad Request"
  | 401 => Some "Unauthorized"
  | 403 => Some "Forbidden"
  | 404 => Some "Not Found"
  | 405 => Some "Method Not Allowed"
  | 408 => Some "Request Timeout"
  | 410 => Some "Gone"
  | 429 => Some "Too Many Requests"
  | 500 => Some "Internal Server Error"
  | 502 => Some "Bad Gateway"
  | 503 => Some "Service Unavailable"
  | 504 => Some "Gateway Timeout"
  | _ => None
  end.

(** [getStatusText(status, category)] *)
Definition getStatusText (status : option Z) (category : StatusCategory) : string :=
  match status with
  | Some status =>
      match statusDescriptions status with
      | Some d => d
      | None => "Status " ++ ofZ status
      end
  | None =>
      match category with
      | timeout => "Request Timeout"
      | network_error => "Network Error"
      | _ => "Unknown Error"
      end
  end.

(** *** The effects of [validateLink]

    [validateLink] is an async function with two mutable locals
    ([response], [lastError]), timers, and [fetch] calls that either
    resolve to a response or reject with a thrown value.  A computation
    is a function on a [Frame] that ends normally or by a throw. *)

Inductive HttpMethod : Type := HEAD | GET.

Module Response.
Record t : Type := mk { status : Z }.
End Response.

(** A JavaScript [Error]: its [name] and [message]. *)
Record JsError : Type := { name : string; message : string }.

(** What a [catch] clause receives: an [Error] instance, or any other
    value, of which only [String(value)] is used. *)
Inductive Thrown : Type :=
| ThrownError (e : JsError)
| ThrownOther (asString : string).

(** [caught instanceof Error ? caught : new Error(String(caught))] *)
Definition toError (caught : Thrown) : JsError :=
  match caught with
  | ThrownError e => e
  | ThrownOther s => {| name := "Error"; message := s |}
  end.

Inductive FetchReply : Type :=
| Resolved (r : Response.t)
| Rejected (t : Thrown).

(** The signal handed to [fetch]: the timer whose controller feeds it, and
    whether the external signal feeds it too. *)
Record CombinedSignal : Type := { timer : nat; external : bool }.

Inductive Event : Type :=
| EvSetTimeout (id : nat) (ms : Z)
| EvClearTimeout (id : nat)
| EvFetch (url : string) (method : HttpMethod) (signal : CombinedSignal).

Record Frame : Type := {
  response : option Response.t;
  lastError : option JsError;
  trace : list Event;
  nextTimer : nat;
  awaits : nat
}.

Definition initialFrame : Frame :=
  {| response := None; lastError := None; trace := []; nextTimer := 0%nat; awaits := 0%nat |}.

Inductive Completion (T : Type) : Type :=
| Normal (v : T)
| Throw (t : Thrown).
Arguments Normal {T} v.
Arguments Throw {T} t.

Definition M (T : Type) : Type := Frame -> Completion T * Frame.

Definition ret {T} (v : T) : M T := fun fr => (Normal v, fr).

Definition bind {T U} (c : M T) (k : T -> M U) : M U :=
  fun fr =>
    match c fr with
    | (Normal v, fr') => k v fr'
    | (Throw t, fr') => (Throw t, fr')
    end.

(** [try { body } catch (e) { handler }] *)
Definition tryCatch {T} (body : M T) (handler : Thrown -> M T) : M T :=
  fun fr =>
    match body fr with
    | (Normal v, fr') => (Normal v, fr')
    | (Throw t, fr') => handler t fr'
    end.

(** [try { body } finally { fin }]: a throw of [fin] replaces the
    completion of [body]. *)
Definition tryFinally {T} (body : M T) (fin : M unit) : M T :=
  fun fr =>
    match body fr with
    | (c, fr') =>
        match fin fr' with
        | (Normal _, fr'') => (c, fr'')
        | (Throw t, fr'') => (Throw t, fr'')
        end
    end.

Notation "'let*' x ':=' c 'in' k" := (bind c (fun x => k))
  (at level 10, x name, c at level 100, k at level 200).

Definition emit (e : Event) : M unit :=
  fun fr =>
    (Normal tt,
     {| response := response fr; lastError := lastError fr;
        trace := trace fr ++ [e]; nextTimer := nextTimer fr; awaits := awaits fr |}).

Definition getResponse : M (option Response.t) := fun fr => (Normal (response fr), fr).
Definition getLastError : M (option JsError) := fun fr => (Normal (lastError fr), fr).

Definition setResponse (r : option Response.t) : M unit :=
  fun fr =>
    (Normal tt,
     {| response := r; lastError := lastError fr;
        trace := trace fr; nextTimer := nextTimer fr; awaits := awaits fr |}).

Definition setLastError (e : option JsError) : M unit :=
  fun fr =>
    (Normal tt,
     {| response := response fr; lastError := e;
        trace := trace fr; nextTimer := nextTimer fr; awaits := awaits fr |}).

(** [createTimeoutController(timeoutMs)]: a fresh timer. *)
Definition createTimeoutController (timeoutMs : Z) : M nat :=
  fun fr =>
    let id := nextTimer fr in
    (Normal id,
     {| response := response fr; lastError := lastError fr;
        trace := trace fr ++ [EvSetTimeout id timeoutMs];
        nextTimer := S id; awaits := awaits fr |}).

(** [timeout.clear()] *)
Definition clear (id : nat) : M unit := emit (EvClearTimeout id).

(** What the validator cannot decide: the replies of the network and the
    clock.  [fetch url method] is the settlement of the request. *)
Record World : Type := {
  fetch : string -> HttpMethod -> FetchReply;
  now : string
}.

(** An [AbortSignal] as [validateLink] sees it: [aborted] after the call
    has resumed from its n-th await. *)
Definition AbortSignal : Type := nat -> bool.

Record ValidatorConfig : Type := {
  timeoutMs : option Z;
  signal : option AbortSignal
}.

Definition DEFAULT_TIMEOUT_MS : Z := 10000.

(** [await performRequest(url, method, signal)] *)
Definition performRequest (w : World) (url : string) (method : HttpMethod)
    (sig : CombinedSignal) : M Response.t :=
  fun fr =>
    let fr' :=
      {| response := response fr; lastError := lastError fr;
         trace := trace fr ++ [EvFetch url method sig];
         nextTimer := nextTimer fr; awaits := S (awaits fr) |} in
    match fetch w url method with
    | Resolved r => (Normal r, fr')
    | Rejected t => (Throw t, fr')
    end.

(** [externalSignal?.aborted] *)
Definition isAborted (externalSignal : option AbortSignal) : M bool :=
  fun fr =>
    (Normal match externalSignal with
            | Some s => s (awaits fr)
            | None => false
            end, fr).

Definition isSome {T} (o : option T) : bool :=
  match o with Some _ => true | None => false end.

(** [shouldFallbackToGet(_error, response?)] *)
Definition shouldFallbackToGet (response : option Response.t) : bool :=
  match response with
  | Some r =>
      if Response.status r =? 405 then true
      else if Response.status r =? 400 then true
      else false
  | None => false
  end.

(** The [isTimeout] test on [lastError]. *)
Definition isTimeout (lastError : JsError) : bool :=
  String.eqb (name lastError) "AbortError"
  || String.eqb (name lastError) "TimeoutError"
  || includes "timeout" (message lastError)
  || includes "aborted" (message lastError).

(** [validateLink(link, config)] *)
Definition validateLink (w : World) (link : LinkInfo.t) (config : ValidatorConfig)
    : M ValidationResult.t :=
  let timeoutMs := match timeoutMs config with Some ms => ms | None => DEFAULT_TIMEOUT_MS end in
  let externalSignal := signal config in
  let baseResult status statusCategory statusText :=
    {| ValidationResult.url := LinkInfo.url link;
       ValidationResult.tagName := LinkInfo.tagName link;
       ValidationResult.text := LinkInfo.text link;
       ValidationResult.elementId := LinkInfo.elementId link;
       ValidationResult.checkedAt := now w;
       ValidationResult.status := status;
       ValidationResult.statusCategory := statusCategory;
       ValidationResult.statusText := statusText |} in
  let* cancelled := isAborted externalSignal in
  if cancelled : bool then ret (baseResult None network_error "Cancelled")
  else
    let* _ :=
    tryCatch
      (let* timeout := createTimeoutController timeoutMs in
       tryFinally
         (let* r := performRequest w (LinkInfo.url link) HEAD
                 {| timer := timeout; external := isSome externalSignal |} in
          let* _ := setResponse (Some r) in
          let* _ := clear timeout in
          if shouldFallbackToGet (Some r) then
            let* getTimeout := createTimeoutController timeoutMs in
            tryFinally
              (let* r' := performRequest w (LinkInfo.url link) GET
                       {| timer := getTimeout; external := isSome externalSignal |} in
               setResponse (Some r'))
              (clear getTimeout)
          else ret tt)
         (clear timeout))
      (fun caughtError =>
         let* _ := setLastError (Some (toError caughtError)) in
         let* resp := getResponse in
         if isSome resp then ret tt
         else
           tryCatch
             (let* getTimeout := createTimeoutController timeoutMs in
              tryFinally
                (tryCatch
                   (let* r' := performRequest w (LinkInfo.url link) GET
                            {| timer := getTimeout; external := isSome externalSignal |} in
                    let* _ := setResponse (Some r') in
                    setLastError None)
                   (fun getError => setLastError (Some (toError getError))))
                (clear getTimeout))
             (fun _ => ret tt)) in
    let* resp := getResponse in
    match resp with
    | Some response =>
        let status := Some (Response.status response) in
        let statusCategory := classifyStatus status in
        let statusText := getStatusText status statusCategory in
        ret (baseResult status statusCategory statusText)
    | None =>
        let* err := getLastError in
        match err with
        | Some lastError =>
            let isTimeout := isTimeout lastError in
            let* cancelled := isAborted externalSignal in
            if cancelled : bool then ret (baseResult None network_error "Cancelled")
            else if isTimeout then
              ret (baseResult None timeout (getStatusText None timeout))
            else
              ret (baseResult None network_error
                     (orElse (message lastError) (getStatusText None network_error)))
        | None =>
            ret (baseResult None network_error (getStatusText None network_error))
        end
    end.

(** Running a call from a fresh frame. *)
Definition run {T} (c : M T) : Completion T * Frame := c initialFrame.

(** *** Vocabulary for the properties of [validateLink] *)

(** The external signal as the call sees it after its n-th await. *)
Definition firedAfter (config : ValidatorConfig) (n : nat) : bool :=
  match signal config with
  | Some s => s n
  | None => false
  end.

Definition timeoutOf (config : ValidatorConfig) : Z :=
  match timeoutMs config with
  | Some ms => ms
  | None => DEFAULT_TIMEOUT_MS
  end.



(** Every outcome copies the descriptor. *)
Definition descriptor (v : ValidationResult.t) : LinkInfo.t :=
  {| LinkInfo.url := ValidationResult.url v;
     LinkInfo.tagName := ValidationResult.tagName v;
     LinkInfo.text := ValidationResult.text v;
     LinkInfo.elementId := ValidationResult.elementId v |}.

(** The trace of a HEAD attempt followed by the GET retry: the retry gets a
    timer of its own, set after the timer of the HEAD attempt was cleared,
    and a signal of its own fed by that timer and by the external signal. *)
Definition retryTrace (url : string) (ms : Z) (ext : bool) : list Event :=
  [ EvSetTimeout 0 ms;
    EvFetch url HEAD {| timer := 0; external := ext |};
    EvClearTimeout 0;
    EvSetTimeout 1 ms;
    EvFetch url GET {| timer := 1; external := ext |};
    EvClearTimeout 1;
    EvClearTimeout 0 ].

(** *** [validateLinks]

    The sequential loop over a list of links.  The calls of
    [validateLink] follow one another, so the external signal is read
    against the number of resumptions of the whole loop: [elapsed] counts
    them, and the call for a link sees the signal shifted by it.  The
    replies of the network may differ from one call to the next:
    [worlds i] is the world of the call for the link at index [i]. *)

Module Progress.
Record t : Type := mk {
  completed : nat;
  total : nat;
  current : ValidationResult.t
}.
End Progress.

(** The [onProgress] callback: what it throws, if it does. *)
Definition Callback : Type := Progress.t -> option Thrown.

(** The locals of the loop: [results], the reports handed to
    [onProgress], and the resumptions so far. *)
Record Loop : Type := {
  outcomes : list ValidationResult.t;
  notified : list Progress.t;
  elapsed : nat
}.

(** The configuration as a call started after [n] resumptions sees it. *)
Definition since (n : nat) (config : ValidatorConfig) : ValidatorConfig :=
  {| timeoutMs := timeoutMs config;
     signal := match signal config with
               | Some s => Some (fun k => s (n + k)%nat)
               | None => None
               end |}.

(** The iterations [i], [i + 1], ... of the [for] loop; [rest] is
    [links.slice(i)]. *)
Fixpoint validateLinksFrom (worlds : nat -> World) (config : ValidatorConfig)
    (onProgress : option Callback) (total : nat) (i : nat) (rest : list LinkInfo.t)
    (l : Loop) : Completion unit * Loop :=
  match rest with
  | [] => (Normal tt, l)
  | link :: rest' =>
      if firedAfter config (elapsed l) then (Normal tt, l)
      else
        match run (validateLink (worlds i) link (since (elapsed l) config)) with
        | (Throw t, fr) =>
            (Throw t,
             {| outcomes := outcomes l; notified := notified l;
                elapsed := (elapsed l + awaits fr)%nat |})
        | (Normal result, fr) =>
            let resumed := S (elapsed l + awaits fr) in
            match onProgress with
            | Some callback =>
                let p := {| Progress.completed := (i + 1)%nat;
                            Progress.total := total;
                            Progress.current := result |} in
                let l' := {| outcomes := outcomes l ++ [result];
                             notified := notified l ++ [p];
                             elapsed := resumed |} in
                match callback p with
                | Some t => (Throw t, l')
                | None => validateLinksFrom worlds config onProgress total (S i) rest' l'
                end
            | None =>
                validateLinksFrom worlds config onProgress total (S i) rest'
                  {| outcomes := outcomes l ++ [result];
                     notified := notified l;
                     elapsed := resumed |}
            end
        end
  end.

(** [validateLinks(links, config, onProgress)] *)
Definition validateLinks (worlds : nat -> World) (links : list LinkInfo.t)
    (config : ValidatorConfig) (onProgress : option Callback)
    : Completion (list ValidationResult.t) * Loop :=
  match validateLinksFrom worlds config onProgress (length links) 0 links
          {| outcomes := []; notified := []; elapsed := 0%nat |} with
  | (Normal _, l) => (Normal (outcomes l), l)
  | (Throw t, l) => (Throw t, l)
  end.

(** A callback that never throws, or none. *)
Definition quietCallback (onProgress : option Callback) : Prop :=
  forall callback p, onProgress = Some callback -> callback p = None.

End LinkValidator.

(** ** CSV cell escaping *)

Module CsvExporter.
Import JsString.

(** A cell is [string | number | null]. *)
Inductive Cell : Type :=
| CNull
| CString (s : string)
| CNumber (n : Z).

Definition SEPARATOR : string := ",".

(** [String(value)] for a non-null cell. *)
Definition stringOf (v : Cell) : string :=
  match v with
  | CNull => "null"
  | CString s => s
  | CNumber n => ofZ n
  end.

(** [escapeCSVValue(value)] *)
Definition escapeCSVValue (value : Cell) : string :=
  match value with
  | CNull => EmptyString
  | _ =>
      let stringValue := stringOf value in
      let needsEscaping :=
        includes SEPARATOR stringValue
        || includes (str1 dquote) stringValue
        || includes (str1 lf) stringValue
        || includes (str1 cr) stringValue in
      if negb needsEscaping then stringValue
      else
        let escaped := replaceAll dquote (String dquote (str1 dquote)) stringValue in
        str1 dquote ++ escaped ++ str1 dquote
  end.

(** The specification's wording of quote doubling. *)
Fixpoint doubleQuotes (s : string) : string :=
  match s with
  | EmptyString => EmptyString
  | String a s' =>
      if Ascii.eqb a dquote then String dquote (String dquote (doubleQuotes s'))
      else String a (doubleQuotes s')
  end.

(** The cell needs quoting: it holds a comma, a quote, CR or LF. *)
Definition special (s : string) : bool :=
  mem "," s || mem dquote s || mem cr s || mem lf s.

(** [createCSVRow(values)]: [values.map(escapeCSVValue).join(SEPARATOR)] *)
Definition createCSVRow (values : list Cell) : string :=
  String.concat SEPARATOR (map escapeCSVValue values).

(** What may follow a cell in a row: nothing, or a separator. *)
Definition cellEnd (r : string) : Prop :=
  r = EmptyString \/ exists r', r = String ","%char r'.

(** What a cell shows: nothing for [null], [String(value)] otherwise. *)
Definition shown (v : Cell) : string :=
  match v with
  | CNull => EmptyString
  | _ => stringOf v
  end.

End CsvExporter.

(** ** Concurrency limiter *)

Module Limiter.

(** [class Semaphore].  A suspended caller is the [resolve] callback it
    pushed on [waiting]; callers are named by a number. *)
Record Semaphore : Type := {
  permits : nat;
  waiting : list nat
}.

(** [new Semaphore(permits)] *)
Definition new (permits : nat) : Semaphore :=
  {| permits := permits; waiting := [] |}.

(** [acquire()] called by [caller]: [true] when the call returns at once,
    [false] when the caller is suspended. *)
Definition acquire (caller : nat) (s : Semaphore) : bool * Semaphore :=
  if (0 <? permits s)%nat then
    (true, {| permits := permits s - 1; waiting := waiting s |})
  else
    (false, {| permits := permits s; waiting := waiting s ++ [caller] |}).

(** [release()]: the caller whose [resolve] was called, if any. *)
Definition release (s : Semaphore) : option nat * Semaphore :=
  match waiting s with
  | next :: rest => (Some next, {| permits := permits s; waiting := rest |})
  | [] => (None, {| permits := permits s + 1; waiting := [] |})
  end.

Definition availablePermits (s : Semaphore) : nat := permits s.

(** *** Clients of a semaphore

    The class does not record who holds a permit.  To speak about
    outstanding permits the operations are run by named clients and the
    holders are tracked next to the semaphore. *)
Inductive Op : Type :=
| Acquire (caller : nat)
| Release (caller : nat).

Record Sys : Type := {
  sem : Semaphore;
  holders : list nat;
  (** the callers that obtained a permit, in the order they obtained it *)
  served : list nat
}.

Definition init (n : nat) : Sys := {| sem := new n; holders := []; served := [] |}.

(** Removes one occurrence of [c]. *)
Fixpoint remove1 (c : nat) (l : list nat) : list nat :=
  match l with
  | [] => []
  | x :: l' => if (x =? c)%nat then l' else x :: remove1 c l'
  end.

Definition step (y : Sys) (op : Op) : Sys :=
  match op with
  | Acquire c =>
      let '(granted, s') := acquire c (sem y) in
      {| sem := s';
         holders := if granted then holders y ++ [c] else holders y;
         served := if granted then served y ++ [c] else served y |}
  | Release c =>
      let '(next, s') := release (sem y) in
      let h := remove1 c (holders y) in
      {| sem := s';
         holders := match next with Some d => h ++ [d] | None => h end;
         served := match next with Some d => served y ++ [d] | None => served y end |}
  end.

(** The callers of the [acquire] calls of a run, in call order. *)
Fixpoint requests (ops : list Op) : list nat :=
  match ops with
  | [] => []
  | Acquire c :: ops' => c :: requests ops'
  | Release _ :: ops' => requests ops'
  end.

Definition run (n : nat) (ops : list Op) : Sys := fold_left step ops (init n).

(** A release is legitimate when its caller holds a permit. *)
Fixpoint disciplined (y : Sys) (ops : list Op) : Prop :=
  match ops with
  | [] => True
  | op :: ops' =>
      match op with
      | Acquire _ => True
      | Release c => In c (holders y)
      end /\ disciplined (step y op) ops'
  end.

(** The accounting kept by a disciplined run: every permit is either free
    or held, and nobody waits while a permit is free. *)
Definition accounted (n : nat) (y : Sys) : Prop :=
  (permits (sem y) + length (holders y) = n)%nat /\
  (waiting (sem y) <> [] -> permits (sem y) = 0%nat).

End Limiter.

(** ** Batch orchestrator *)

Module Orchestrator.
Import LinkValidator Limiter.

Inductive SessionStatus : Type := checking | completed | cancelled.

Module Session.
Record t : Type := mk {
  id : string;
  pageUrl : string;
  links : list LinkInfo.t;
  results : list ValidationResult.t;
  status : SessionStatus;
  completedCount : nat;
  startedAt : string;
  completedAt : option string
}.

Definition withResults (r : list ValidationResult.t) (s : t) : t :=
  mk (id s) (pageUrl s) (links s) r (status s) (completedCount s)
     (startedAt s) (completedAt s).
Definition withStatus (x : SessionStatus) (s : t) : t :=
  mk (id s) (pageUrl s) (links s) (results s) x (completedCount s)
     (startedAt s) (completedAt s).
Definition withCompletedCount (n : nat) (s : t) : t :=
  mk (id s) (pageUrl s) (links s) (results s) (status s) n
     (startedAt s) (completedAt s).
Definition withCompletedAt (d : option string) (s : t) : t :=
  mk (id s) (pageUrl s) (links s) (results s) (status s) (completedCount s)
     (startedAt s) d.
End Session.

(** [BatchProcessorConfig] after the constructor filled in the defaults. *)
Record Config : Type := {
  concurrency : nat;
  batchSize : nat;
  timeoutMs : Z
}.

Definition DEFAULT_CONCURRENCY : nat := 5.
Definition DEFAULT_BATCH_SIZE : nat := 20.
Definition defaultConfig : Config :=
  {| concurrency := DEFAULT_CONCURRENCY; batchSize := DEFAULT_BATCH_SIZE; timeoutMs := 10000 |}.

(** What the orchestrator cannot decide.  Time is counted in ticks: the
    clock advances each time the run resumes from an await (a storage
    call, or the settlement of an in-flight probe). *)
Record Oracle : Type := {
  (** the network's reply to a probe that settles at a tick *)
  net : nat -> string -> HttpMethod -> FetchReply;
  (** which in-flight probe settles at a tick: a position in the list of
      in-flight probes, taken modulo its length *)
  settles : nat -> nat;
  (** [cancel()] is invoked while the run is suspended, before the tick *)
  cancelAt : nat -> bool;
  (** [chrome.storage.local.set] issued at a tick rejects *)
  saveFails : nat -> bool;
  (** [new Date().toISOString()] at a tick *)
  date : nat -> string;
  (** [generateSessionId()] at a tick *)
  sessionId : nat -> string
}.

(** A [BatchProcessor] and the world around it.  Session objects live in
    [heap]; [currentSession] and the local [session] of [resume] are
    references into it, so that two names of one object see each other's
    writes.  [persisted], [reported] and [probed] only record what
    happened. *)
Record State : Type := mkState {
  abortController : option bool;
  currentSession : option nat;
  isRunning : bool;
  progressCallback : bool;
  heap : list Session.t;
  storage : option Session.t;
  persisted : list Session.t;
  reported : list ValidationProgress.t;
  probed : list LinkInfo.t;
  clock : nat
}.

Definition withAbortController (x : option bool) (st : State) : State :=
  mkState x (currentSession st) (isRunning st) (progressCallback st) (heap st)
    (storage st) (persisted st) (reported st) (probed st) (clock st).
Definition withCurrentSession (x : option nat) (st : State) : State :=
  mkState (abortController st) x (isRunning st) (progressCallback st) (heap st)
    (storage st) (persisted st) (reported st) (probed st) (clock st).
Definition withIsRunning (x : bool) (st : State) : State :=
  mkState (abortController st) (currentSession st) x (progressCallback st) (heap st)
    (storage st) (persisted st) (reported st) (probed st) (clock st).
Definition withHeap (x : list Session.t) (st : State) : State :=
  mkState (abortController st) (currentSession st) (isRunning st) (progressCallback st) x
    (storage st) (persisted st) (reported st) (probed st) (clock st).
Definition withStored (s : Session.t) (st : State) : State :=
  mkState (abortController st) (currentSession st) (isRunning st) (progressCallback st)
    (heap st) (Some s) (persisted st ++ [s]) (reported st) (probed st) (clock st).
Definition withReported (p : ValidationProgress.t) (st : State) : State :=
  mkState (abortController st) (currentSession st) (isRunning st) (progressCallback st)
    (heap st) (storage st) (persisted st) (reported st ++ [p]) (probed st) (clock st).
Definition withProbed (l : LinkInfo.t) (st : State) : State :=
  mkState (abortController st) (currentSession st) (isRunning st) (progressCallback st)
    (heap st) (storage st) (persisted st) (reported st) (probed st ++ [l]) (clock st).
Definition withClock (x : nat) (st : State) : State :=
  mkState (abortController st) (currentSession st) (isRunning st) (progressCallback st)
    (heap st) (storage st) (persisted st) (reported st) (probed st) x.

(** A freshly constructed processor in a world whose storage holds
    [stored]. *)
Definition initialState (stored : option Session.t) : State :=
  mkState None None false false [] stored [] [] [] 0%nat.

(** How a call ends: it returns, it throws, or it never settles. *)
Inductive Outcome (T : Type) : Type :=
| Returns (v : T)
| Throws (t : Thrown)
| Diverges.
Arguments Returns {T} v.
Arguments Throws {T} t.
Arguments Diverges {T}.

Definition P (T : Type) : Type := State -> Outcome T * State.

Definition pure {T} (v : T) : P T := fun st => (Returns v, st).
Definition throw {T} (t : Thrown) : P T := fun st => (Throws t, st).
Definition diverge {T} : P T := fun st => (Diverges, st).

Definition andThen {T U} (c : P T) (k : T -> P U) : P U :=
  fun st =>
    match c st with
    | (Returns v, st') => k v st'
    | (Throws t, st') => (Throws t, st')
    | (Diverges, st') => (Diverges, st')
    end.

Notation "'let!' x ':=' c 'in' k" := (andThen c (fun x => k))
  (at level 10, x name, c at level 100, k at level 200).

(** [try { body } catch (error) { handler }] *)
Definition catch {T} (body : P T) (handler : Thrown -> P T) : P T :=
  fun st =>
    match body st with
    | (Throws t, st') => handler t st'
    | r => r
    end.

(** [try { body } finally { fin }], for a [fin] that changes fields only. *)
Definition finally {T} (body : P T) (fin : State -> State) : P T :=
  fun st =>
    match body st with
    | (Diverges, st') => (Diverges, st')
    | (r, st') => (r, fin st')
    end.

Definition get : P State := fun st => (Returns st, st).
Definition modify (f : State -> State) : P unit := fun st => (Returns tt, f st).

Definition error (msg : string) : Thrown :=
  ThrownError {| name := "Error"; message := msg |}.
Definition typeError (msg : string) : Thrown :=
  ThrownError {| name := "TypeError"; message := msg |}.

(** [this.abortController?.signal.aborted] *)
Definition aborted (st : State) : bool :=
  match abortController st with
  | Some a => a
  | None => false
  end.

(** [cancel()] *)
Definition cancel (st : State) : State :=
  match abortController st with
  | Some _ => withAbortController (Some true) st
  | None => st
  end.

(** [onProgress(callback)], for the callback that records what it is
    given in [reported]. *)
Definition onProgress (st : State) : State :=
  mkState (abortController st) (currentSession st) (isRunning st) true (heap st)
    (storage st) (persisted st) (reported st) (probed st) (clock st).

(** [links.slice(from, to)] and [links.slice(from)] for indices that are
    natural numbers. *)
Definition slice {T} (l : list T) (from to : nat) : list T :=
  take (to - from) (drop from l).
Definition sliceFrom {T} (l : list T) (from : nat) : list T := drop from l.

(** [createSession(pageUrl, links)] *)
Definition createSession (sid now : string) (pageUrl : string)
    (links : list LinkInfo.t) : Session.t :=
  {| Session.id := sid;
     Session.pageUrl := pageUrl;
     Session.links := links;
     Session.results := [];
     Session.status := checking;
     Session.completedCount := 0%nat;
     Session.startedAt := now;
     Session.completedAt := None |}.

(** The chunking loop of [processLinks]:
    [for (let i = 0; i < links.length; i += batchSize) batches.push(...)].
    It does not end when a non-empty list meets a batch size of 0; the
    fuel, one unit per link, is then exhausted. *)
Fixpoint chunkLoop (fuel : nat) (links : list LinkInfo.t) (size : nat) (i : nat)
    (batches : list (list LinkInfo.t)) : option (list (list LinkInfo.t)) :=
  if (i <? length links)%nat then
    match fuel with
    | O => None
    | S fuel' =>
        chunkLoop fuel' links size (i + size) (batches ++ [slice links i (i + size)])
    end
  else Some batches.

Section Run.
Variable o : Oracle.
Variable config : Config.

(** Resuming from an await: a pending [cancel()] is delivered first. *)
Definition tick : P unit :=
  fun st =>
    let st' := if cancelAt o (clock st) then cancel st else st in
    (Returns tt, withClock (S (clock st')) st').

(** Reading and writing a session object through a reference. *)
Definition readObj (r : nat) : P Session.t :=
  fun st =>
    match heap st !! r with
    | Some s => (Returns s, st)
    | None => (Throws (typeError "Cannot read properties of null"), st)
    end.

Definition writeObj (r : nat) (f : Session.t -> Session.t) : P unit :=
  fun st =>
    match heap st !! r with
    | Some s => (Returns tt, withHeap (<[r := f s]> (heap st)) st)
    | None => (Throws (typeError "Cannot set properties of null"), st)
    end.

Definition alloc (s : Session.t) : P nat :=
  fun st => (Returns (length (heap st)), withHeap (heap st ++ [s]) st).

(** [await saveSession(session)]: the record is copied into storage when
    the call is issued. *)
Definition saveSession (r : nat) : P unit :=
  let! s := readObj r in
  let! st := get in
  if saveFails o (clock st) then
    let! _ := tick in
    throw (error "storage failure")
  else
    let! _ := modify (withStored s) in
    tick.

(** [await loadSession()]: a record read from storage is a new object. *)
Definition loadSession : P (option nat) :=
  let! st := get in
  let! _ := tick in
  match storage st with
  | Some s => let! r := alloc s in pure (Some r)
  | None => pure None
  end.

(** *** [processBatch] *)

(** The locals of one [processBatch] call.  An in-flight probe is the
    index of its link and the tick at which [validateLink] was called. *)
Record Batch : Type := {
  semaphore : Semaphore;
  slots : list (option ValidationResult.t);
  completedInBatch : nat;
  inflight : list (nat * nat)
}.

Definition withSemaphore (s : Semaphore) (b : Batch) : Batch :=
  {| semaphore := s; slots := slots b;
     completedInBatch := completedInBatch b; inflight := inflight b |}.

(** A task past [await semaphore.acquire()]: it checks the signal again;
    if cancelled it returns through [finally], whose [release] may wake
    the next waiting task, which does the same; otherwise it calls
    [validateLink].  [fuel] bounds the chain of wake-ups by the number
    of waiting tasks. *)
Fixpoint enter (fuel : nat) (batch : list LinkInfo.t) (index : nat)
    (b : Batch) (st : State) : Batch * State :=
  if aborted st then
    let '(next, s') := release (semaphore b) in
    let b' := withSemaphore s' b in
    match next, fuel with
    | Some j, S fuel' => enter fuel' batch j b' st
    | _, _ => (b', st)
    end
  else
    match batch !! index with
    | Some link =>
        ({| semaphore := semaphore b; slots := slots b;
            completedInBatch := completedInBatch b;
            inflight := inflight b ++ [(index, clock st)] |},
         withProbed link st)
    | None => (b, st)
    end.

(** The task of one link up to its first suspension. *)
Definition spawn (batch : list LinkInfo.t) (acc : Batch * State) (index : nat)
    : Batch * State :=
  let '(b, st) := acc in
  if aborted st then (b, st)
  else
    let '(granted, s') := acquire index (semaphore b) in
    if granted then enter (length (waiting s')) batch index (withSemaphore s' b) st
    else (withSemaphore s' b, st).

(** [semaphore.release()] in the [finally] of a task, and the tasks it
    wakes. *)
Definition leave (batch : list LinkInfo.t) (b : Batch) (st : State) : Batch * State :=
  let '(next, s') := release (semaphore b) in
  let b' := withSemaphore s' b in
  match next with
  | Some j => enter (length (waiting s')) batch j b' st
  | None => (b', st)
  end.

(** [validatorConfig] *)
Definition validatorConfig (hasSignal : bool) (abortedNow : bool) : ValidatorConfig :=
  {| LinkValidator.timeoutMs := Some (timeoutMs config);
     LinkValidator.signal :=
       if hasSignal then
         Some (fun n => match n with O => false | S _ => abortedNow end)
       else None |}.

(** One in-flight probe settles and its task runs to its end. *)
Definition settle (batch : list LinkInfo.t) (hasSignal : bool)
    (startIndex totalLinks : nat) (b : Batch) : P Batch :=
  let! _ := tick in
  let! st := get in
  let k := (settles o (clock st) mod length (inflight b))%nat in
  match inflight b !! k with
  | None => pure b
  | Some (index, called) =>
      let b1 :=
        {| semaphore := semaphore b; slots := slots b;
           completedInBatch := completedInBatch b;
           inflight := delete k (inflight b) |} in
      match batch !! index with
      | None => pure b1
      | Some link =>
          let w := {| fetch := net o (clock st); now := date o called |} in
          match fst (LinkValidator.run
                       (validateLink w link (validatorConfig hasSignal (aborted st)))) with
          | Normal result =>
              let b2 :=
                {| semaphore := semaphore b1;
                   slots := <[index := Some result]> (slots b1);
                   completedInBatch := S (completedInBatch b1);
                   inflight := inflight b1 |} in
              let! _ :=
                modify (fun st =>
                  if progressCallback st then
                    withReported
                      {| ValidationProgress.total := totalLinks;
                         ValidationProgress.completed :=
                           startIndex + completedInBatch b2;
                         ValidationProgress.current := Some result |} st
                  else st) in
              fun st => (Returns (fst (leave batch b2 st)), snd (leave batch b2 st))
          | Throw t =>
              fun st => (Throws t, snd (leave batch b1 st))
          end
      end
  end.

(** [await Promise.all(tasks)]: probes settle one by one until none is
    in flight.  Tasks still waiting then never resume. *)
Fixpoint settleAll (fuel : nat) (batch : list LinkInfo.t) (hasSignal : bool)
    (startIndex totalLinks : nat) (b : Batch) : P Batch :=
  match inflight b with
  | [] =>
      match waiting (semaphore b) with
      | [] => pure b
      | _ => diverge
      end
  | _ =>
      match fuel with
      | O => diverge
      | S fuel' =>
          let! b' := settle batch hasSignal startIndex totalLinks b in
          settleAll fuel' batch hasSignal startIndex totalLinks b'
      end
  end.

(** [results.filter((r) => r !== void 0)] *)
Definition defined (slots : list (option ValidationResult.t)) : list ValidationResult.t :=
  omap id slots.

(** The locals of [processBatch] when it starts: a new semaphore, an
    array of [batch.length] empty slots, no completion. *)
Definition emptyBatch (batch : list LinkInfo.t) : Batch :=
  {| semaphore := Limiter.new (concurrency config);
     slots := replicate (length batch) None;
     completedInBatch := 0%nat;
     inflight := [] |}.

(** [processBatch(batch, startIndex, totalLinks)] *)
Definition processBatch (batch : list LinkInfo.t) (startIndex totalLinks : nat)
    : P (list ValidationResult.t) :=
  let! st := get in
  let b0 := emptyBatch batch in
  let hasSignal := isSome (abortController st) in
  let spawned := fold_left (spawn batch) (seq 0 (length batch)) (b0, st) in
  let! _ := modify (fun _ => snd spawned) in
  let! b := settleAll (length batch) batch hasSignal startIndex totalLinks (fst spawned) in
  pure (defined (slots b)).

(** *** [processLinks] *)

(** The body of [for (const batch of batches)]. *)
Fixpoint forBatches (batches : list (list LinkInfo.t)) (startIndex totalLinks : nat)
    (results : list ValidationResult.t) : P (list ValidationResult.t) :=
  match batches with
  | [] => pure results
  | batch :: rest =>
      let! st := get in
      if aborted st then pure results
      else
        let! batchResults :=
          processBatch batch (startIndex + length results) totalLinks in
        let results := (results ++ batchResults)%list in
        let! st := get in
        let! _ :=
          match currentSession st with
          | Some r =>
              let! _ :=
                writeObj r (fun s =>
                  Session.withResults (slice (Session.results s) 0 startIndex ++ results) s) in
              let! _ := writeObj r (Session.withCompletedCount (startIndex + length results)) in
              saveSession r
          | None => pure tt
          end in
        forBatches rest startIndex totalLinks results
  end.

(** [processLinks(links)] *)
Definition processLinks (links : list LinkInfo.t) : P (list ValidationResult.t) :=
  let! st := get in
  let! session :=
    match currentSession st with
    | Some r => let! s := readObj r in pure (Some s)
    | None => pure None
    end in
  let totalLinks :=
    match session with
    | Some s => length (Session.links s)
    | None => length links
    end in
  let startIndex :=
    match session with
    | Some s => Session.completedCount s
    | None => 0%nat
    end in
  match chunkLoop (length links) links (batchSize config) 0 [] with
  | None => diverge
  | Some batches => forBatches batches startIndex totalLinks []
  end.

(** *** [start], [resume] *)

(** The [catch] clause shared by [start] and [resume]. *)
Definition onError {T} (e : Thrown) : P T :=
  let! st := get in
  let! _ :=
    if aborted st then
      match currentSession st with
      | Some r =>
          let! _ := writeObj r (Session.withStatus cancelled) in
          saveSession r
      | None => pure tt
      end
    else pure tt in
  throw e.

(** The [finally] clause shared by [start] and [resume]. *)
Definition cleanup (st : State) : State :=
  withAbortController None (withIsRunning false st).

(** [start(pageUrl, links)] *)
Definition start (pageUrl : string) (links : list LinkInfo.t)
    : P (list ValidationResult.t) :=
  let! st := get in
  if isRunning st then throw (error "Batch processor is already running")
  else
    let! r := alloc (createSession (sessionId o (clock st)) (date o (clock st))
                       pageUrl links) in
    let! _ := modify (withCurrentSession (Some r)) in
    let! _ := modify (withAbortController (Some false)) in
    let! _ := modify (withIsRunning true) in
    let! _ := saveSession r in
    finally
      (catch
         (let! results := processLinks links in
          let! st := get in
          let! _ :=
            match currentSession st with
            | Some r =>
                let! _ := writeObj r (Session.withStatus completed) in
                let! _ := writeObj r (Session.withCompletedAt (Some (date o (clock st)))) in
                saveSession r
            | None => pure tt
            end in
          pure results)
         onError)
      cleanup.

(** [resume()]: [None] is the [null] it returns when there is nothing to
    resume. *)
Definition resume : P (option (list ValidationResult.t)) :=
  let! st := get in
  if isRunning st then throw (error "Batch processor is already running")
  else
    let! loaded := loadSession in
    match loaded with
    | None => pure None
    | Some session =>
        let! s := readObj session in
        match Session.status s with
        | checking =>
            let! _ := modify (withCurrentSession (Some session)) in
            let! _ := modify (withAbortController (Some false)) in
            let! _ := modify (withIsRunning true) in
            finally
              (catch
                 (let! s := readObj session in
                  let remainingLinks :=
                    sliceFrom (Session.links s) (Session.completedCount s) in
                  let! newResults := processLinks remainingLinks in
                  let! s := readObj session in
                  let allResults := (Session.results s ++ newResults)%list in
                  let! st := get in
                  let! _ :=
                    match currentSession st with
                    | Some r =>
                        let! _ := writeObj r (Session.withStatus completed) in
                        let! _ := writeObj r (Session.withResults allResults) in
                        let! _ := writeObj r
                                    (Session.withCompletedAt (Some (date o (clock st)))) in
                        saveSession r
                    | None => pure tt
                    end in
                  pure (Some allResults))
                 onError)
              cleanup
        | _ => pure None
        end
    end.



End Run.

(** *** Vocabulary for the properties of the orchestrator *)

Local Open Scope nat_scope.
Local Open Scope list_scope.

(** What [processBatch] leaves alone. *)
Definition quiet (pool : list LinkInfo.t) (st st' : State) : Prop :=
  heap st' = heap st /\ persisted st' = persisted st /\ storage st' = storage st /\
  currentSession st' = currentSession st /\ isRunning st' = isRunning st /\
  progressCallback st' = progressCallback st /\
  isSome (abortController st') = isSome (abortController st) /\
  (aborted st = true -> aborted st' = true) /\
  exists ps, probed st' = probed st ++ ps /\ Forall (fun l => l ∈ pool) ps.

(** The invariant of the locals of [processBatch]; [held] counts the tasks
    that hold a permit without being in flight. *)
Definition BInv (batch : list LinkInfo.t) (n held : nat) (b : Batch) : Prop :=
  length (slots b) = length batch /\
  (forall i r, slots b !! i = Some (Some r) -> batch !! i = Some (descriptor r)) /\
  Forall (fun it => fst it < length batch)%nat (inflight b) /\
  Forall (fun i => i < length batch)%nat (waiting (semaphore b)) /\
  (permits (semaphore b) + length (inflight b) + held = n)%nat /\
  (waiting (semaphore b) <> [] -> permits (semaphore b) = 0%nat).

(** The tasks that have not finished. *)
Definition pending (b : Batch) : nat :=
  (length (inflight b) + length (waiting (semaphore b)))%nat.

(** A persisted record is sound for a link list when its count is the
    length of its results and its results follow the order of the links. *)
Definition Good (links : list LinkInfo.t) (w : Session.t) : Prop :=
  Session.completedCount w = length (Session.results w) /\
  map descriptor (Session.results w) `sublist_of` links.

Definition nondecreasing (l : list nat) : Prop :=
  forall i j x y, (i <= j)%nat -> l !! i = Some x -> l !! j = Some y -> (x <= y)%nat.

(** The records written since [ws0] are sound and their counts grow. *)
Definition Logged (links : list LinkInfo.t) (ws0 : list Session.t) (bound : nat)
    (st : State) : Prop :=
  exists ws,
    persisted st = ws0 ++ ws /\ Forall (Good links) ws /\
    nondecreasing (map Session.completedCount ws) /\
    Forall (fun w => Session.completedCount w <= bound)%nat ws.

(** The session object of the run holds the outcomes [all]. *)
Definition Tracking (r : nat) (links : list LinkInfo.t) (all : list ValidationResult.t)
    (ws0 : list Session.t) (st : State) : Prop :=
  currentSession st = Some r /\
  (exists s, heap st !! r = Some s /\ Session.links s = links /\
             Session.results s = all /\ Session.completedCount s = length all) /\
  map descriptor all `sublist_of` links /\
  Logged links ws0 (length all) st.

(** The links of a batch whose task has started and not finished: in
    flight, or waiting for a permit. *)
Definition listed (b : Batch) : list nat :=
  map fst (inflight b) ++ waiting (semaphore b).

(** The tasks of the links before [next] have started; a started task
    that has not finished is listed once and its slot is empty; the
    counter of the batch counts the filled slots. *)
Definition RInv (next : nat) (b : Batch) : Prop :=
  NoDup (listed b) /\
  Forall (fun i => i < next /\ slots b !! i = Some None) (listed b) /\
  (forall i r, slots b !! i = Some (Some r) -> i < next) /\
  completedInBatch b = length (defined (slots b)).

(** Every task that has started is listed or has filled its slot. *)
Definition Covered (next : nat) (b : Batch) : Prop :=
  forall i, i < next -> i ∈ listed b \/ exists r, slots b !! i = Some (Some r).

(** The reports [rep] count up from [from], one per outcome of [rs], each
    with the total [totalLinks]. *)
Definition CountsUp (from totalLinks : nat) (rep : list ValidationProgress.t)
    (rs : list ValidationResult.t) : Prop :=
  map ValidationProgress.completed rep = seq (S from) (length rs) /\
  Forall (fun p => ValidationProgress.total p = totalLinks) rep /\
  omap ValidationProgress.current rep ≡ₚ rs.

(** What a batch has reported since [reported0], with or without a
    callback. *)
Definition Rep (callback : bool) (startIndex totalLinks : nat)
    (reported0 : list ValidationProgress.t) (b : Batch) (st : State) : Prop :=
  exists rep,
    reported st = reported0 ++ rep /\
    if callback then CountsUp startIndex totalLinks rep (defined (slots b))
    else rep = [].

(** [session.completedCount] and [session.links.length] as [processLinks]
    reads them, for a list of [n] links. *)
Definition startIndexOf (st : State) : nat :=
  match currentSession st with
  | Some r =>
      match heap st !! r with
      | Some s => Session.completedCount s
      | None => 0
      end
  | None => 0
  end.

Definition totalLinksOf (n : nat) (st : State) : nat :=
  match currentSession st with
  | Some r =>
      match heap st !! r with
      | Some s => length (Session.links s)
      | None => n
      end
  | None => n
  end.

(** A computation that settles, reports nothing and leaves the callback
    alone. *)
Definition Silent {T} (c : P T) : Prop :=
  forall st out st',
    c st = (out, st') ->
    out <> Diverges /\
    reported st' = reported st /\ progressCallback st' = progressCallback st.


(** The states a [processBatch] call goes through: after the tasks of the
    first [k] links ran to their first suspension, and after each
    settlement of an in-flight probe. *)
Inductive Reached (o : Oracle) (config : Config) (batch : list LinkInfo.t)
    (hasSignal : bool) (startIndex totalLinks : nat) (st0 : State)
    : Batch -> State -> Prop :=
| reached_spawn (k : nat) :
    k <= length batch ->
    Reached o config batch hasSignal startIndex totalLinks st0
      (fst (fold_left (spawn batch) (seq 0 k) (emptyBatch config batch, st0)))
      (snd (fold_left (spawn batch) (seq 0 k) (emptyBatch config batch, st0)))
| reached_settle (b b' : Batch) (st st' : State) :
    Reached o config batch hasSignal startIndex totalLinks st0 b st ->
    inflight b <> [] ->
    settle o config batch hasSignal startIndex totalLinks b st = (Returns b', st') ->
    Reached o config batch hasSignal startIndex totalLinks st0 b' st'.

End Orchestrator.

(** ** Scenarios *)

Module Scenarios.
Import LinkValidator Orchestrator.

(** The n-th link of a page. *)
Definition link (n : nat) : LinkInfo.t :=
  {| LinkInfo.url := "https://example.test/" ++ JsString.ofZ (Z.of_nat n);
     LinkInfo.tagName := A;
     LinkInfo.text := None;
     LinkInfo.elementId := "lc-" ++ JsString.ofZ (Z.of_nat n) |}.

Definition page (n : nat) : list LinkInfo.t := map link (seq 0 n).

(** A world in which every probe is answered 200, probes settle in the
    order given by [order], storage never fails, and [cancel()] is invoked
    during the suspensions listed in [cancels]. *)
Definition world (order : nat -> nat) (cancels : list nat) : Oracle :=
  {| net := fun _ _ _ => Resolved (Response.mk 200);
     settles := order;
     cancelAt := fun t => existsb (Nat.eqb t) cancels;
     saveFails := fun _ => false;
     date := fun t => "T" ++ JsString.ofZ (Z.of_nat t);
     sessionId := fun _ => "session-1" |}.

(** The outcome of [link n] when its probe was called at tick [called]. *)
Definition ok (n called : nat) : ValidationResult.t :=
  {| ValidationResult.url := LinkInfo.url (link n);
     ValidationResult.status := Some 200;
     ValidationResult.statusCategory := success;
     ValidationResult.statusText := "OK";
     ValidationResult.tagName := A;
     ValidationResult.text := None;
     ValidationResult.elementId := LinkInfo.elementId (link n);
     ValidationResult.checkedAt := "T" ++ JsString.ofZ (Z.of_nat called) |}.

(** 25 links, batches of 20; [cancel()] arrives while the checkpoint of the
    first batch is being written (ticks 1 to 20 settle the 20 probes of the
    first batch, tick 21 ends the write). *)
Definition cancelledRun : Outcome (list ValidationResult.t) * State :=
  start (world (fun _ => 0%nat) [21%nat]) defaultConfig "https://example.test/"
    (page 25) (initialState None).

(** The outcomes of the links [from], ..., [from + count - 1], all probed at
    tick [called]. *)
Definition oks (from count called : nat) : list ValidationResult.t :=
  map (fun n => ok n called) (seq from count).

(** A session of 25 links interrupted after the checkpoint of its first
    batch of 20: what storage holds when the service worker is stopped
    between two batches. *)
Definition interrupted : Session.t :=
  {| Session.id := "session-0";
     Session.pageUrl := "https://example.test/";
     Session.links := page 25;
     Session.results := oks 0 20 1;
     Session.status := checking;
     Session.completedCount := 20;
     Session.startedAt := "T0";
     Session.completedAt := None |}.

Definition resumedRun : Outcome (option (list ValidationResult.t)) * State :=
  resume (world (fun _ => 0%nat) []) defaultConfig (initialState (Some interrupted)).

(** Three links, all answered 200, with a progress callback; the probes
    settle last first. *)
Definition threeLinksRun : Outcome (list ValidationResult.t) * State :=
  start (world (fun _ => 2%nat) []) defaultConfig "https://example.test/"
    (page 3) (onProgress (initialState None)).

(** A world whose storage rejects every write. *)
Definition brokenStorage : Oracle :=
  {| net := fun _ _ _ => Resolved (Response.mk 200);
     settles := fun _ => 0%nat;
     cancelAt := fun _ => false;
     saveFails := fun _ => true;
     date := fun t => "T" ++ JsString.ofZ (Z.of_nat t);
     sessionId := fun _ => "session-1" |}.

(** The last record written to storage. *)
Definition lastPersisted (st : State) : option Session.t := last (persisted st).

End Scenarios.

(** ** Messages and ports (src/shared/types.ts, src/shared/messaging.ts) *)

Module Messaging.

(** The messages of the progress port; [OtherMessage] stands for every
    other extension message. *)
Inductive ExtensionMessage : Type :=
| VALIDATION_PROGRESS (payload : ValidationProgress.t)
| VALIDATION_COMPLETE (payload : list ValidationResult.t)
| OtherMessage.

(** A connected port, and what was posted through the ports, in order. *)
Definition Port : Type := nat.

Record PortManager : Type := {
  ports : list Port;
  posted : list (Port * ExtensionMessage)
}.

(** [this.ports.add(port)] and [this.ports.delete(port)], on a [Set]
    kept in insertion order. *)
Definition add (port : Port) (pm : PortManager) : PortManager :=
  {| ports := if bool_decide (port ∈ ports pm) then ports pm else ports pm ++ [port];
     posted := posted pm |}.

Definition delete (port : Port) (pm : PortManager) : PortManager :=
  {| ports := List.filter (fun p => negb (Nat.eqb p port)) (ports pm);
     posted := posted pm |}.

(** [broadcast(message)]: [throws port] tells whether [port.postMessage]
    throws; a port whose [postMessage] throws is deleted. *)
Definition broadcast (throws : Port -> bool) (message : ExtensionMessage)
    (pm : PortManager) : PortManager :=
  fold_left
    (fun pm port =>
       if throws port then delete port pm
       else {| ports := ports pm; posted := posted pm ++ [(port, message)] |})
    (ports pm) pm.

(** [sendProgress(progress)], [sendComplete(results)] *)
Definition sendProgress (throws : Port -> bool) (progress : ValidationProgress.t)
    : PortManager -> PortManager :=
  broadcast throws (VALIDATION_PROGRESS progress).

Definition sendComplete (throws : Port -> bool) (results : list ValidationResult.t)
    : PortManager -> PortManager :=
  broadcast throws (VALIDATION_COMPLETE results).

(** [connectedCount], [hasConnections] *)
Definition connectedCount (pm : PortManager) : nat := length (ports pm).
Definition hasConnections (pm : PortManager) : bool := (0 <? length (ports pm))%nat.

(** What was posted through one port. *)
Definition received (port : Port) (pm : PortManager) : list ExtensionMessage :=
  map snd (List.filter (fun pm => Nat.eqb (fst pm) port) (posted pm)).

End Messaging.

(** ** JavaScript arrays *)

Module JsArray.

(** [Array.prototype.sort(compare)] is a stable sort: elements that
    compare equal keep their order.  By insertion, from the right. *)
Fixpoint insertSorted {T} (compare : T -> T -> Z) (x : T) (l : list T) : list T :=
  match l with
  | [] => [x]
  | y :: l' =>
      if compare x y <=? 0 then x :: y :: l'
      else y :: insertSorted compare x l'
  end.

Definition sort {T} (compare : T -> T -> Z) (l : list T) : list T :=
  foldr (insertSorted compare) [] l.

End JsArray.

(** ** Popup (src/popup/popup.ts) *)

Module Popup.

Inductive PopupPhase : Type := idle | checking | completed.

Module ResultFilter.
Inductive t : Type := all | success | redirect | error.
End ResultFilter.

Module ResultSummary.
Record t : Type := mk {
  total : nat;
  success : nat;
  redirect : nat;
  error : nat
}.
End ResultSummary.

Record PopupState : Type := {
  phase : PopupPhase;
  progress : option ValidationProgress.t;
  results : list ValidationResult.t;
  filter : ResultFilter.t;
  summary : ResultSummary.t
}.

Definition initialState : PopupState :=
  {| phase := idle;
     progress := None;
     results := [];
     filter := ResultFilter.all;
     summary := ResultSummary.mk 0 0 0 0 |}.

(** The callback of [filter] in [getFilteredResults]. *)
Definition passes (filter : ResultFilter.t) (result : ValidationResult.t) : bool :=
  match filter with
  | ResultFilter.success =>
      match ValidationResult.statusCategory result with
      | success => true
      | _ => false
      end
  | ResultFilter.redirect =>
      match ValidationResult.statusCategory result with
      | redirect => true
      | _ => false
      end
  | ResultFilter.error =>
      match ValidationResult.statusCategory result with
      | client_error | server_error | timeout | network_error => true
      | _ => false
      end
  | ResultFilter.all => true
  end.

(** [getFilteredResults()] *)
Definition getFilteredResults (state : PopupState) : list ValidationResult.t :=
  match filter state with
  | ResultFilter.all => results state
  | f => List.filter (passes f) (results state)
  end.

(** The [categoryOrder] table of [sortResultsByStatus]. *)
Definition categoryOrder (category : StatusCategory) : Z :=
  match category with
  | client_error | server_error | timeout | network_error => 0
  | redirect => 1
  | success => 2
  end.

(** [sortResultsByStatus(results)] *)
Definition sortResultsByStatus (results : list ValidationResult.t)
    : list ValidationResult.t :=
  JsArray.sort
    (fun a b =>
       let orderA := categoryOrder (ValidationResult.statusCategory a) in
       let orderB := categoryOrder (ValidationResult.statusCategory b) in
       orderA - orderB)
    results.

(** [getStatusClass(category)] *)
Definition getStatusClass (category : StatusCategory) : string :=
  match category with
  | success => "status-success"
  | redirect => "status-redirect"
  | _ => "status-error"
  end.

(** [getStatusDisplay(result)] *)
Definition getStatusDisplay (result : ValidationResult.t) : string :=
  match ValidationResult.status result with
  | Some status => JsString.ofZ status
  | None =>
      match ValidationResult.statusCategory result with
      | timeout => "T/O"
      | _ => "ERR"
      end
  end.

(** An item of the results list, as [updateResults] renders it. *)
Record Item : Type := {
  elementId : string;
  statusClass : string;
  statusDisplay : string;
  url : string;
  text : option string;
  tagName : LinkTagName
}.

(** [updateResults()]: the items of the list, in order. *)
Definition updateResults (state : PopupState) : list Item :=
  let filtered := getFilteredResults state in
  let sorted := sortResultsByStatus filtered in
  map (fun result =>
         {| elementId := ValidationResult.elementId result;
            statusClass := getStatusClass (ValidationResult.statusCategory result);
            statusDisplay := getStatusDisplay result;
            url := ValidationResult.url result;
            text := ValidationResult.text result;
            tagName := ValidationResult.tagName result |})
      sorted.

(** [calculateSummary(results)] *)
Definition calculateSummary (results : list ValidationResult.t) : ResultSummary.t :=
  fold_left
    (fun summary result =>
       match ValidationResult.statusCategory result with
       | success =>
           ResultSummary.mk (ResultSummary.total summary)
             (ResultSummary.success summary + 1)
             (ResultSummary.redirect summary) (ResultSummary.error summary)
       | redirect =>
           ResultSummary.mk (ResultSummary.total summary)
             (ResultSummary.success summary)
             (ResultSummary.redirect summary + 1) (ResultSummary.error summary)
       | _ =>
           ResultSummary.mk (ResultSummary.total summary)
             (ResultSummary.success summary)
             (ResultSummary.redirect summary) (ResultSummary.error summary + 1)
       end)
    results
    (ResultSummary.mk (length results) 0 0 0).

(** [setPhase], [setProgress], [setResults], [setFilter]: the state they
    leave; the display is a function of the state. *)
Definition setPhase (p : PopupPhase) (state : PopupState) : PopupState :=
  {| phase := p; progress := progress state; results := results state;
     filter := filter state; summary := summary state |}.

Definition setProgress (p : ValidationProgress.t) (state : PopupState) : PopupState :=
  {| phase := phase state; progress := Some p; results := results state;
     filter := filter state; summary := summary state |}.

Definition setResults (rs : list ValidationResult.t) (state : PopupState) : PopupState :=
  {| phase := phase state; progress := progress state; results := rs;
     filter := filter state; summary := calculateSummary rs |}.

Definition setFilter (f : ResultFilter.t) (state : PopupState) : PopupState :=
  {| phase := phase state; progress := progress state; results := results state;
     filter := f; summary := summary state |}.

(** [handlePortMessage(message)]; any message that is neither a progress
    nor a completion is ignored. *)
Definition handlePortMessage (message : Messaging.ExtensionMessage)
    (state : PopupState) : PopupState :=
  match message with
  | Messaging.VALIDATION_PROGRESS payload =>
      let state := setProgress payload state in
      match phase state with
      | checking => state
      | _ => setPhase checking state
      end
  | Messaging.VALIDATION_COMPLETE payload =>
      setPhase completed (setResults payload state)
  | Messaging.OtherMessage => state
  end.

(** What [restoreState] reads from [chrome.storage.local]. *)
Record Stored : Type := {
  currentSession : option Orchestrator.Session.t;
  lastProgress : option (option ValidationProgress.t);
  validationResults : option (list ValidationResult.t)
}.

(** [restoreState()]; [None] when reading the storage throws. *)
Definition restoreState (stored : option Stored) (state : PopupState) : PopupState :=
  match stored with
  | None => state
  | Some stored =>
      let fallback :=
        match validationResults stored with
        | Some storedResults =>
            if (0 <? length storedResults)%nat then
              {| phase := completed; progress := progress state;
                 results := storedResults; filter := filter state;
                 summary := calculateSummary storedResults |}
            else state
        | None => state
        end in
      match currentSession stored with
      | Some session =>
          match Orchestrator.Session.status session with
          | Orchestrator.checking =>
              {| phase := checking;
                 progress := match lastProgress stored with
                             | Some (Some p) => Some p
                             | _ => progress state
                             end;
                 results := results state; filter := filter state;
                 summary := summary state |}
          | Orchestrator.completed =>
              {| phase := completed; progress := progress state;
                 results := Orchestrator.Session.results session;
                 filter := filter state;
                 summary := calculateSummary (Orchestrator.Session.results session) |}
          | _ => fallback
          end
      | None => fallback
      end
  end.

(** What happens to a popup: it is opened, a button is clicked, a message
    to the service worker fails, a message arrives on the port. *)
Inductive Event : Type :=
| Opened (stored : option Stored)
| StartClicked
| StartNotDelivered
| CancelDelivered
| FilterClicked (f : ResultFilter.t)
| PortMessage (message : Messaging.ExtensionMessage).

Definition step (state : PopupState) (e : Event) : PopupState :=
  match e with
  | Opened stored => restoreState stored state
  | StartClicked => setPhase checking state
  | StartNotDelivered => setPhase idle state
  | CancelDelivered => setPhase idle state
  | FilterClicked f => setFilter f state
  | PortMessage message => handlePortMessage message state
  end.

Definition after (events : list Event) : PopupState :=
  fold_left step events initialState.

(** *** Vocabulary for the properties of the popup *)

(** The state that shows the results [rs] under the filter [f]. *)
Definition showing (f : ResultFilter.t) (rs : list ValidationResult.t) : PopupState :=
  setFilter f (setResults rs initialState).

(** The comparison of [sortResultsByStatus], and the key it compares. *)
Definition byStatus (a b : ValidationResult.t) : Z :=
  categoryOrder (ValidationResult.statusCategory a)
  - categoryOrder (ValidationResult.statusCategory b).

Definition rank (r : ValidationResult.t) : Z :=
  categoryOrder (ValidationResult.statusCategory r).

(** The count the summary holds for a filter. *)
Definition counted (f : ResultFilter.t) (s : ResultSummary.t) : nat :=
  match f with
  | ResultFilter.all => ResultSummary.total s
  | ResultFilter.success => ResultSummary.success s
  | ResultFilter.redirect => ResultSummary.redirect s
  | ResultFilter.error => ResultSummary.error s
  end.

End Popup.

(** ** Progress notifier (src/background/progressNotifier.ts)

    A call is taken as a whole: a report and the service of a connecting
    port do not overlap. *)

Module Notifier.
Import Messaging.

(** [StoredProgressState], the value under the key [lastProgress]. *)
Record StoredProgressState : Type := {
  progress : ValidationProgress.t;
  isComplete : bool;
  updatedAt : string
}.

(** The two keys of [chrome.storage.local] the notifier owns. *)
Record Storage : Type := {
  lastProgress : option StoredProgressState;
  validationResults : option (list ValidationResult.t)
}.

(** A [ProgressNotifier], its port manager and the storage. *)
Record State : Type := {
  portManager : PortManager;
  currentProgress : option ValidationProgress.t;
  isValidationComplete : bool;
  completedResults : list ValidationResult.t;
  storage : Storage
}.

(** What a call cannot decide: whether [postMessage] throws on a port,
    whether its n-th storage call rejects, and the date. *)
Record World : Type := {
  postThrows : Port -> bool;
  storageFails : nat -> bool;
  now : string
}.

(** A freshly constructed notifier (a service worker that has just
    started) over a storage. *)
Definition fresh (stored : Storage) : State :=
  {| portManager := {| ports := []; posted := [] |};
     currentProgress := None;
     isValidationComplete := false;
     completedResults := [];
     storage := stored |}.

Definition withPortManager (pm : PortManager) (st : State) : State :=
  {| portManager := pm; currentProgress := currentProgress st;
     isValidationComplete := isValidationComplete st;
     completedResults := completedResults st; storage := storage st |}.

Definition withStorage (s : Storage) (st : State) : State :=
  {| portManager := portManager st; currentProgress := currentProgress st;
     isValidationComplete := isValidationComplete st;
     completedResults := completedResults st; storage := s |}.

(** [saveProgressState(state)], as the [n]-th storage call: a rejection is
    caught and logged. *)
Definition saveProgressState (w : World) (n : nat) (state : StoredProgressState)
    (st : State) : State :=
  if storageFails w n then st
  else withStorage {| lastProgress := Some state;
                      validationResults := validationResults (storage st) |} st.

(** [loadProgressState()] *)
Definition loadProgressState (w : World) (n : nat) (st : State)
    : option StoredProgressState :=
  if storageFails w n then None else lastProgress (storage st).

(** [saveResults(results)] *)
Definition saveResults (w : World) (n : nat) (results : list ValidationResult.t)
    (st : State) : State :=
  if storageFails w n then st
  else withStorage {| lastProgress := lastProgress (storage st);
                      validationResults := Some results |} st.

(** [loadResults()] *)
Definition loadResults (w : World) (n : nat) (st : State)
    : option (list ValidationResult.t) :=
  if storageFails w n then None else validationResults (storage st).

(** [clearState()] *)
Definition clearState (w : World) (n : nat) (st : State) : State :=
  if storageFails w n then st
  else withStorage {| lastProgress := None; validationResults := None |} st.

(** [port.postMessage(message)] inside the [try] block of
    [sendCurrentStateToPort]: [None] when it throws. *)
Definition postMessage (w : World) (port : Port) (message : ExtensionMessage)
    (st : State) : option State :=
  if postThrows w port then None
  else
    Some (withPortManager
            {| ports := ports (portManager st);
               posted := posted (portManager st) ++ [(port, message)] |} st).

(** [sendCurrentStateToPort(port)]; the [catch] clause only logs, so a
    [postMessage] that throws ends the call. *)
Definition sendCurrentStateToPort (w : World) (port : Port) (st : State) : State :=
  match
    match currentProgress st with
    | Some p => postMessage w port (VALIDATION_PROGRESS p) st
    | None => Some st
    end
  with
  | None => st
  | Some st1 =>
      if isValidationComplete st1 && (0 <? length (completedResults st1))%nat then
        match postMessage w port (VALIDATION_COMPLETE (completedResults st1)) st1 with
        | Some st2 => st2
        | None => st1
        end
      else
        match loadProgressState w 0 st1 with
        | Some storedState =>
            match postMessage w port (VALIDATION_PROGRESS (progress storedState)) st1 with
            | None => st1
            | Some st2 =>
                if isComplete storedState then
                  match loadResults w 1 st2 with
                  | Some results =>
                      match postMessage w port (VALIDATION_COMPLETE results) st2 with
                      | Some st3 => st3
                      | None => st2
                      end
                  | None => st2
                  end
                else st2
            end
        | None => st1
        end
  end.

(** A port connects: the port manager adds it, and the handler the
    notifier registered sends it the current state. *)
Definition connect (w : World) (port : Port) (st : State) : State :=
  sendCurrentStateToPort w port (withPortManager (add port (portManager st)) st).

(** A port disconnects. *)
Definition disconnect (port : Port) (st : State) : State :=
  withPortManager (delete port (portManager st)) st.

(** [reportProgress(progress)] *)
Definition reportProgress (w : World) (p : ValidationProgress.t) (st : State) : State :=
  let st :=
    {| portManager := sendProgress (postThrows w) p (portManager st);
       currentProgress := Some p;
       isValidationComplete := false;
       completedResults := completedResults st;
       storage := storage st |} in
  saveProgressState w 0
    {| progress := p; isComplete := false; updatedAt := now w |} st.

(** [reportComplete(results)] *)
Definition reportComplete (w : World) (results : list ValidationResult.t)
    (st : State) : State :=
  let current :=
    match currentProgress st with
    | Some p =>
        Some {| ValidationProgress.total := ValidationProgress.total p;
                ValidationProgress.completed := ValidationProgress.total p;
                ValidationProgress.current := ValidationProgress.current p |}
    | None => None
    end in
  let st :=
    {| portManager := sendComplete (postThrows w) results (portManager st);
       currentProgress := current;
       isValidationComplete := true;
       completedResults := results;
       storage := storage st |} in
  let st :=
    saveProgressState w 0
      {| progress :=
           match current with
           | Some p => p
           | None =>
               {| ValidationProgress.total := length results;
                  ValidationProgress.completed := length results;
                  ValidationProgress.current := last results |}
           end;
         isComplete := true;
         updatedAt := now w |} st in
  saveResults w 1 results st.

(** [reportCancelled()] *)
Definition reportCancelled (w : World) (st : State) : State :=
  let st :=
    match currentProgress st with
    | Some p =>
        withPortManager
          (broadcast (postThrows w)
             (VALIDATION_PROGRESS
                {| ValidationProgress.total := ValidationProgress.total p;
                   ValidationProgress.completed := ValidationProgress.completed p;
                   ValidationProgress.current := None |})
             (portManager st)) st
    | None => st
    end in
  clearState w 0 st.

(** [reset()] *)
Definition reset (w : World) (st : State) : State :=
  clearState w 0
    {| portManager := portManager st;
       currentProgress := None;
       isValidationComplete := false;
       completedResults := [];
       storage := storage st |}.

(** The calls of a validation run: one report per progress, then the
    completion, each in a world of its own. *)
Definition reportAll (run : list (World * ValidationProgress.t)) (st : State) : State :=
  fold_left (fun st wp => reportProgress (fst wp) (snd wp) st) run st.

(** A popup that reads messages from its port. *)
Definition popupReads (messages : list ExtensionMessage) (state : Popup.PopupState)
    : Popup.PopupState :=
  fold_left (fun state m => Popup.handlePortMessage m state) messages state.

(** The progress with every link counted as completed. *)
Definition finished (p : ValidationProgress.t) : ValidationProgress.t :=
  {| ValidationProgress.total := ValidationProgress.total p;
     ValidationProgress.completed := ValidationProgress.total p;
     ValidationProgress.current := ValidationProgress.current p |}.

(** What a port has received from the notifier. *)
Definition inbox (port : Port) (st : State) : list ExtensionMessage :=
  received port (portManager st).

(** The progress stored at completion when none was reported. *)
Definition wholeRun (results : list ValidationResult.t) : ValidationProgress.t :=
  {| ValidationProgress.total := length results;
     ValidationProgress.completed := length results;
     ValidationProgress.current := last results |}.

(** The [postMessage] of a port throws in none of the calls of a run. *)
Definition healthy (run : list (World * ValidationProgress.t)) (w : World)
    (port : Port) : bool :=
  forallb (fun wp => negb (postThrows (fst wp) port)) run && negb (postThrows w port).

(** The messages of a run, as a port that stays connected reads them. *)
Definition stream (run : list (World * ValidationProgress.t))
    (results : list ValidationResult.t) : list ExtensionMessage :=
  map (fun wp => VALIDATION_PROGRESS (snd wp)) run ++ [VALIDATION_COMPLETE results].

(** A world in which no call fails, and a notifier to which the ports 1
    and 2 are connected. *)
Definition calm : World :=
  {| postThrows := fun _ => false;
     storageFails := fun _ => false;
     now := "2026-01-01T00:00:00.000Z" |}.

Definition attended : State :=
  {| portManager := {| ports := [1; 2]%nat; posted := [] |};
     currentProgress := None;
     isValidationComplete := false;
     completedResults := [];
     storage := {| lastProgress := None; validationResults := None |} |}.

End Notifier.

(** ** Link extractor (src/content/linkExtractor.ts) *)

Module LinkExtractor.
Import JsString.

Definition EXCLUDED_SCHEMES : list string :=
  [ "javascript:"; "mailto:"; "tel:"; "data:"; "blob:"; "about:";
    "chrome:"; "chrome-extension:"; "moz-extension:"; "file:" ].

(** An element of the page: the node it is, and the attributes the
    extractor reads from it. *)
Record Element : Type := {
  node : nat;
  href : option string;
  src : option string
}.

(** What the extractor changes: the [data-lc-id] attributes of the nodes
    and the counter of the module. *)
Record Page : Type := {
  dataLcId : gmap nat string;
  elementIdCounter : nat
}.

(** The locals of [extractLinks], and the page. *)
Record Acc : Type := {
  links : list LinkInfo.t;
  seenUrls : gset string;
  page : Page
}.

Section Extractor.

(** What the platform decides: [String.prototype.trim] and [toLowerCase],
    [new URL(url, window.location.href).href] ([None] when the constructor
    throws), the text of an element, which only reads the page, and
    [Date.now()] at the generation of the n-th identifier. *)
Variable trim : string -> string.
Variable toLowerCase : string -> string.
Variable newURL : string -> option string.
Variable getElementText : Element -> LinkTagName -> option string.
Variable dateNow : nat -> Z.

(** [hasExcludedScheme(url)] *)
Definition hasExcludedScheme (url : string) : bool :=
  let lowerUrl := trim (toLowerCase url) in
  existsb (fun scheme => String.prefix scheme lowerUrl) EXCLUDED_SCHEMES.

(** [isValidUrl(url)] *)
Definition isValidUrl (url : string) : bool :=
  if negb (truthy url) then false
  else
    let trimmedUrl := trim url in
    if String.eqb trimmedUrl EmptyString || String.eqb trimmedUrl "#" then false
    else if hasExcludedScheme trimmedUrl then false
    else
      match newURL trimmedUrl with
      | Some _ => true
      | None => false
      end.

(** [toAbsoluteUrl(url)] *)
Definition toAbsoluteUrl (url : string) : option string :=
  if negb (truthy url) then None
  else
    let trimmedUrl := trim url in
    if String.eqb trimmedUrl EmptyString || String.eqb trimmedUrl "#" then None
    else newURL trimmedUrl.

(** [generateElementId()] *)
Definition generateElementId (p : Page) : string * Page :=
  let counter := S (elementIdCounter p) in
  ("lc-" ++ ofZ (dateNow counter) ++ "-" ++ ofZ (Z.of_nat counter),
   {| dataLcId := dataLcId p; elementIdCounter := counter |}).

(** [getOrAssignElementId(element)] *)
Definition getOrAssignElementId (element : Element) (p : Page) : string * Page :=
  let assign :=
    let (newId, p') := generateElementId p in
    (newId,
     {| dataLcId := <[node element := newId]> (dataLcId p');
        elementIdCounter := elementIdCounter p' |}) in
  match dataLcId p !! node element with
  | Some existingId => if truthy existingId then (existingId, p) else assign
  | None => assign
  end.

(** The body the four [extractFrom...] functions share: the attribute
    they read and the tag name they record differ. *)
Definition extractFrom (tagName : LinkTagName) (attribute : option string)
    (element : Element) (p : Page) : option LinkInfo.t * Page :=
  match attribute with
  | None => (None, p)
  | Some value =>
      if negb (truthy value) || negb (isValidUrl value) then (None, p)
      else
        match toAbsoluteUrl value with
        | None => (None, p)
        | Some absoluteUrl =>
            let text := getElementText element tagName in
            let (elementId, p') := getOrAssignElementId element p in
            (Some {| LinkInfo.url := absoluteUrl;
                     LinkInfo.tagName := tagName;
                     LinkInfo.text := text;
                     LinkInfo.elementId := elementId |}, p')
        end
  end.

Definition extractFromAnchor (element : Element) : Page -> option LinkInfo.t * Page :=
  extractFrom A (href element) element.
Definition extractFromImage (element : Element) : Page -> option LinkInfo.t * Page :=
  extractFrom IMG (src element) element.
Definition extractFromLink (element : Element) : Page -> option LinkInfo.t * Page :=
  extractFrom LINK (href element) element.
Definition extractFromScript (element : Element) : Page -> option LinkInfo.t * Page :=
  extractFrom SCRIPT (src element) element.

(** The body of each of the four loops of [extractLinks]. *)
Definition visit (extract : Element -> Page -> option LinkInfo.t * Page)
    (acc : Acc) (element : Element) : Acc :=
  let (linkInfo, p') := extract element (page acc) in
  match linkInfo with
  | Some linkInfo =>
      if negb (bool_decide (LinkInfo.url linkInfo ∈ seenUrls acc)) then
        {| links := links acc ++ [linkInfo];
           seenUrls := {[ LinkInfo.url linkInfo ]} ∪ seenUrls acc;
           page := p' |}
      else {| links := links acc; seenUrls := seenUrls acc; page := p' |}
  | None => {| links := links acc; seenUrls := seenUrls acc; page := p' |}
  end.

(** [extractLinks()], on the elements the four selectors give, in
    document order. *)
Definition extractLinks (anchors images linkElements scripts : list Element)
    (p : Page) : list LinkInfo.t * Page :=
  let acc := {| links := []; seenUrls := ∅; page := p |} in
  let acc := fold_left (visit extractFromAnchor) anchors acc in
  let acc := fold_left (visit extractFromImage) images acc in
  let acc := fold_left (visit extractFromLink) linkElements acc in
  let acc := fold_left (visit extractFromScript) scripts acc in
  (links acc, page acc).

(** *** Vocabulary for the properties of [extractLinks] *)

(** The attribute an element is read by, under each tag name. *)
Definition attributeOf (tagName : LinkTagName) (element : Element) : option string :=
  match tagName with
  | A | LINK => href element
  | IMG | SCRIPT => src element
  end.

(** The absolute URL an attribute value stands for, when it is one the
    extractor accepts. *)
Definition accepted (value : option string) : option string :=
  match value with
  | Some value =>
      if truthy value && isValidUrl value then toAbsoluteUrl value else None
  | None => None
  end.

(** The elements in the order [extractLinks] visits them, with the tag
    name they are visited under. *)
Definition visited (anchors images linkElements scripts : list Element)
    : list (LinkTagName * Element) :=
  map (pair A) anchors ++ map (pair IMG) images
    ++ map (pair LINK) linkElements ++ map (pair SCRIPT) scripts.

(** The candidates: the visited elements that stand for a URL. *)
Definition candidate (te : LinkTagName * Element)
    : option (LinkTagName * Element * string) :=
  match accepted (attributeOf (fst te) (snd te)) with
  | Some u => Some (fst te, snd te, u)
  | None => None
  end.

Definition candidates (anchors images linkElements scripts : list Element)
    : list (LinkTagName * Element * string) :=
  omap candidate (visited anchors images linkElements scripts).

(** Visiting an element under a tag name. *)
Definition visitAs (acc : Acc) (te : LinkTagName * Element) : Acc :=
  visit (extractFrom (fst te) (attributeOf (fst te) (snd te))) acc (snd te).

(** The link a candidate stands for on a page: its URL, the tag name it
    was visited under, the text of its element and the [data-lc-id]
    attribute its element carries on that page. *)
Definition infoAt (p : Page) (c : LinkTagName * Element * string) : LinkInfo.t :=
  {| LinkInfo.url := snd c;
     LinkInfo.tagName := fst (fst c);
     LinkInfo.text := getElementText (snd (fst c)) (fst (fst c));
     LinkInfo.elementId := default EmptyString (dataLcId p !! node (snd (fst c))) |}.

(** The element of a candidate carries an identifier. *)
Definition identified (p : Page) (c : LinkTagName * Element * string) : Prop :=
  exists id, dataLcId p !! node (snd (fst c)) = Some id /\ truthy id = true.

(** The identifiers of [p] are still on [p']. *)
Definition settled (p p' : Page) : Prop :=
  forall n id, dataLcId p !! n = Some id -> truthy id = true ->
    dataLcId p' !! n = Some id.

(** The [k]-th identifier [generateElementId] makes. *)
Definition generated (k : nat) : string :=
  "lc-" ++ ofZ (dateNow k) ++ "-" ++ ofZ (Z.of_nat k).

(** Every identifier on the page was made by [generateElementId] after the
    counter stood at [from], and no two nodes carry the same one. *)
Definition minted (from : nat) (p : Page) : Prop :=
  (from <= elementIdCounter p)%nat /\
  (forall n id, dataLcId p !! n = Some id ->
     exists k, (from < k <= elementIdCounter p)%nat /\ id = generated k) /\
  (forall n n' id, dataLcId p !! n = Some id -> dataLcId p !! n' = Some id -> n = n').

(** The first link of each URL not seen yet, in order. *)
Fixpoint firsts (seen : gset string) (infos : list LinkInfo.t) : list LinkInfo.t :=
  match infos with
  | [] => []
  | info :: infos' =>
      if bool_decide (LinkInfo.url info ∈ seen) then firsts seen infos'
      else info :: firsts ({[ LinkInfo.url info ]} ∪ seen) infos'
  end.

End Extractor.

End LinkExtractor.

(** ** Element highlighter (src/content/elementHighlighter.ts) *)

Module Highlighter.

(** The nodes that carry the class [lc-highlight], the two variables of
    the module, and the timers that were set and have neither fired nor
    been cleared; [setTimeout] returns a new positive identifier. *)
Record State : Type := {
  classList : gset nat;
  currentHighlightedElement : option nat;
  highlightTimeout : option nat;
  timers : gset nat;
  nextTimer : nat;
  styles : bool
}.

Definition initialState : State :=
  {| classList := ∅;
     currentHighlightedElement := None;
     highlightTimeout := None;
     timers := ∅;
     nextTimer := 1%nat;
     styles := false |}.

(** [clearHighlight()] *)
Definition clearHighlight (st : State) : State :=
  let st :=
    match highlightTimeout st with
    | Some t =>
        if (0 <? t)%nat then
          {| classList := classList st;
             currentHighlightedElement := currentHighlightedElement st;
             highlightTimeout := None;
             timers := timers st ∖ {[ t ]};
             nextTimer := nextTimer st;
             styles := styles st |}
        else st
    | None => st
    end in
  match currentHighlightedElement st with
  | Some element =>
      {| classList := classList st ∖ {[ element ]};
         currentHighlightedElement := None;
         highlightTimeout := highlightTimeout st;
         timers := timers st;
         nextTimer := nextTimer st;
         styles := styles st |}
  | None => st
  end.

(** [highlightElement(elementId)], where [found] is what
    [findElementById(elementId)] gives. *)
Definition highlightElement (found : option nat) (st : State) : bool * State :=
  let st := clearHighlight st in
  match found with
  | None => (false, st)
  | Some element =>
      (true,
       {| classList := {[ element ]} ∪ classList st;
          currentHighlightedElement := Some element;
          highlightTimeout := Some (nextTimer st);
          timers := {[ nextTimer st ]} ∪ timers st;
          nextTimer := S (nextTimer st);
          styles := true |})
  end.

(** What happens to the module: a message asks for a highlight or for its
    removal, or a timer fires and runs its callback, [clearHighlight]. *)
Inductive Event : Type :=
| HIGHLIGHT_ELEMENT (found : option nat)
| CLEAR_HIGHLIGHT
| TimerFires (t : nat).

Definition step (st : State) (e : Event) : State :=
  match e with
  | HIGHLIGHT_ELEMENT found => snd (highlightElement found st)
  | CLEAR_HIGHLIGHT => clearHighlight st
  | TimerFires t =>
      if bool_decide (t ∈ timers st) then
        clearHighlight
          {| classList := classList st;
             currentHighlightedElement := currentHighlightedElement st;
             highlightTimeout := highlightTimeout st;
             timers := timers st ∖ {[ t ]};
             nextTimer := nextTimer st;
             styles := styles st |}
      else st
  end.

Definition after (events : list Event) : State := fold_left step events initialState.

(** The set an optional value stands for. *)
Definition only (x : option nat) : gset nat :=
  match x with
  | Some n => {[ n ]}
  | None => ∅
  end.

(** One highlight at most, and one timer, its own. *)
Definition tidy (st : State) : Prop :=
  classList st = only (currentHighlightedElement st) /\
  timers st = only (highlightTimeout st) /\
  (highlightTimeout st = None <-> currentHighlightedElement st = None) /\
  (forall t, highlightTimeout st = Some t -> (0 < t < nextTimer st)%nat) /\
  (0 < nextTimer st)%nat.

End Highlighter.

(** ** Content script injector (src/background/contentScriptInjector.ts)

    A call is taken as a whole: the calls of [injectContentScript] do not
    overlap. *)

Module Injector.
Import JsString.

(** A [chrome.tabs.Tab], as far as the injector reads it. *)
Record Tab : Type := {
  id : option nat;
  url : option string
}.

(** The [injectedTabs] set, and the tabs [chrome.scripting.executeScript]
    was called for, in order. *)
Record State : Type := {
  injectedTabs : gset nat;
  executed : list nat
}.

Definition initialState : State := {| injectedTabs := ∅; executed := [] |}.

(** [isInjectableUrl(url)] *)
Definition isInjectableUrl (url : option string) : bool :=
  match url with
  | Some url =>
      if negb (truthy url) then false
      else String.prefix "http://" url || String.prefix "https://" url
  | None => false
  end.

(** [clearInjectionStatus(tabId)], [clearAllInjectionStatus()] *)
Definition clearInjectionStatus (tabId : nat) (st : State) : State :=
  {| injectedTabs := injectedTabs st ∖ {[ tabId ]}; executed := executed st |}.

Definition clearAllInjectionStatus (st : State) : State :=
  {| injectedTabs := ∅; executed := executed st |}.

(** [injectContentScript(tabId)]; [scriptFails] tells whether
    [executeScript] rejects. *)
Definition injectContentScript (scriptFails : bool) (tabId : nat) (st : State)
    : bool * State :=
  if bool_decide (tabId ∈ injectedTabs st) then (true, st)
  else if scriptFails then
    (false, {| injectedTabs := injectedTabs st; executed := executed st ++ [tabId] |})
  else
    (true, {| injectedTabs := {[ tabId ]} ∪ injectedTabs st;
              executed := executed st ++ [tabId] |}).

Record InjectionResult : Type := {
  success : bool;
  tabId : option nat;
  resultUrl : option string;
  error : option string
}.

(** [injectIntoActiveTab()]; [tab] is what [getActiveTab()] gives. *)
Definition injectIntoActiveTab (tab : option Tab) (scriptFails : bool) (st : State)
    : InjectionResult * State :=
  match tab with
  | None =>
      ({| success := false; tabId := None; resultUrl := None;
          error := Some "No active tab found" |}, st)
  | Some tab =>
      match id tab with
      | None | Some O =>
          ({| success := false; tabId := None; resultUrl := None;
              error := Some "No active tab found" |}, st)
      | Some tabId' =>
          if negb (isInjectableUrl (url tab)) then
            ({| success := false; tabId := Some tabId'; resultUrl := url tab;
                error := Some "Cannot inject into this page (only http/https pages are supported)" |},
             st)
          else
            let (ok, st') := injectContentScript scriptFails tabId' st in
            if ok then
              ({| success := true; tabId := Some tabId'; resultUrl := url tab;
                  error := None |}, st')
            else
              ({| success := false; tabId := Some tabId'; resultUrl := url tab;
                  error := Some "Failed to inject Content Script" |}, st')
      end
  end.

(** What happens to the injector: a request to inject into the active
    tab, a tab that starts loading, a tab that is removed, and
    [initializeInjector()]. *)
Inductive Event : Type :=
| Inject (tab : option Tab) (scriptFails : bool)
| Loading (tabId : nat)
| Removed (tabId : nat)
| Initialize.

Definition step (st : State) (e : Event) : State :=
  match e with
  | Inject tab scriptFails => snd (injectIntoActiveTab tab scriptFails st)
  | Loading tabId => clearInjectionStatus tabId st
  | Removed tabId => clearInjectionStatus tabId st
  | Initialize => clearAllInjectionStatus st
  end.

Definition run (events : list Event) (st : State) : State := fold_left step events st.

(** An event that forgets the injection into a tab. *)
Definition forgets (tabId : nat) (e : Event) : bool :=
  match e with
  | Loading t | Removed t => Nat.eqb t tabId
  | Initialize => true
  | Inject _ _ => false
  end.

End Injector.

(** ** Service worker: a validation run *)

(** [startValidation] of background.ts, over the processor and the
    notifier, for a run during which no CANCEL_CHECK message arrives.
    [processor.cancel()] has one caller, [handleCancelCheck], which also
    calls [notifier.reportCancelled()] while the run goes on; such runs
    are not modelled here.  Nor does a port connect or disconnect during
    the run. *)
Module Background.
Import LinkValidator Messaging.
Local Open Scope nat_scope.
Local Open Scope list_scope.

(** The two singletons of the service worker. *)
Record State : Type := {
  processor : Orchestrator.State;
  notifier : Notifier.State
}.

(** What a run cannot decide: the replies of the network, the order in
    which probes settle, the storage writes of the processor that are
    rejected, the dates and the session identifier, and the world of each
    call of the notifier, numbered in the order of the calls.  A world
    holds no cancellation. *)
Record World : Type := {
  net : nat -> string -> HttpMethod -> FetchReply;
  settles : nat -> nat;
  saveFails : nat -> bool;
  date : nat -> string;
  sessionId : nat -> string;
  call : nat -> Notifier.World
}.

(** The world of the processor: [cancel()] is never invoked. *)
Definition oracle (w : World) : Orchestrator.Oracle :=
  {| Orchestrator.net := net w;
     Orchestrator.settles := settles w;
     Orchestrator.cancelAt := fun _ => false;
     Orchestrator.saveFails := saveFails w;
     Orchestrator.date := date w;
     Orchestrator.sessionId := sessionId w |}.

(** The calls [notifier.reportProgress(progress)] made by the callback
    for the reports of a run. *)
Definition calls (w : World) (reports : list ValidationProgress.t)
    : list (Notifier.World * ValidationProgress.t) :=
  imap (fun i progress => (call w i, progress)) reports.

(** [processor.session?.status === "cancelled"] *)
Definition sessionCancelled (p : Orchestrator.State) : bool :=
  match Orchestrator.currentSession p with
  | Some r =>
      match Orchestrator.heap p !! r with
      | Some s =>
          match Orchestrator.Session.status s with
          | Orchestrator.cancelled => true
          | _ => false
          end
      | None => false
      end
  | None => false
  end.

(** [startValidation(links, pageUrl)].  The callback it registers calls
    [notifier.reportProgress] without awaiting it: that call sets the
    fields of the notifier, posts to the ports and issues its storage
    write before its first await, and touches nothing the processor
    reads.  So the notifier goes through the reports of the run in the
    order in which they were made, and then through the call of the
    [try] block or of the [catch] clause. *)
Definition startValidation (w : World) (config : Orchestrator.Config)
    (links : list LinkInfo.t) (pageUrl : string) (st : State) : State :=
  let p0 := Orchestrator.onProgress (processor st) in
  let '(out, p1) := Orchestrator.start (oracle w) config pageUrl links p0 in
  let reports := drop (length (Orchestrator.reported p0)) (Orchestrator.reported p1) in
  let n1 := Notifier.reportAll (calls w reports) (notifier st) in
  let after := call w (length reports) in
  {| processor := p1;
     notifier :=
       match out with
       | Orchestrator.Returns results => Notifier.reportComplete after results n1
       | Orchestrator.Throws _ =>
           if sessionCancelled p1 then Notifier.reportCancelled after n1 else n1
       | Orchestrator.Diverges => n1
       end |}.

(** A world where every link answers 200, no storage write of the
    processor is rejected and no call of the notifier fails; and a
    service worker that has run nothing, with the ports 1 and 2
    connected. *)
Definition quietWorld (order : nat -> nat) : World :=
  {| net := fun _ _ _ => Resolved (Response.mk 200);
     settles := order;
     saveFails := fun _ => false;
     date := fun t => ("T" ++ JsString.ofZ (Z.of_nat t))%string;
     sessionId := fun _ => "session-1"%string;
     call := fun _ => Notifier.calm |}.

Definition watched : State :=
  {| processor := Orchestrator.initialState None; notifier := Notifier.attended |}.

End Background.

(** ** CSV export: the report (src/background/csvExporter.ts) *)

(** [generateCSV].  Text is held as the bytes of its UTF-8 encoding; the
    characters [escapeCSVValue] looks for are ASCII, which no byte of a
    longer sequence equals. *)
Module CsvReport.
Import JsString CsvExporter.

(** U+FEFF *)
Definition UTF8_BOM : string :=
  String (ascii_of_nat 239) (String (ascii_of_nat 187) (str1 (ascii_of_nat 191))).

Definition LINE_TERMINATOR : string := String cr (str1 lf).

Definition CSV_HEADERS : list Cell :=
  [CString "URL"; CString "ステータスコード"; CString "ステータス";
   CString "タグ"; CString "リンクテキスト"; CString "検証日時"].

(** The values of [LinkTagName]: 'A' | 'IMG' | 'LINK' | 'SCRIPT'. *)
Definition tagText (t : LinkTagName) : string :=
  match t with
  | A => "A"
  | IMG => "IMG"
  | LINK => "LINK"
  | SCRIPT => "SCRIPT"
  end.

(** A field that may be [null] or [undefined]. *)
Definition optional {T} (cell : T -> Cell) (v : option T) : Cell :=
  match v with
  | Some x => cell x
  | None => CNull
  end.

Section Report.
(** [formatDateTime(isoString)], which is [Date.toLocaleString]. *)
Variable formatDateTime : string -> string.

(** The [row] of one result in [generateCSV]. *)
Definition resultRow (result : ValidationResult.t) : list Cell :=
  [CString (ValidationResult.url result);
   optional CNumber (ValidationResult.status result);
   CString (ValidationResult.statusText result);
   CString (tagText (ValidationResult.tagName result));
   optional CString (ValidationResult.text result);
   CString (formatDateTime (ValidationResult.checkedAt result))].

(** The cells of the lines of the report; the empty line is the line of
    no cell. *)
Definition reportRows (results : list ValidationResult.t) (pageUrl checkedAt : string)
    : list (list Cell) :=
  ([ [CString "Link Checker - 検証結果レポート"; CString EmptyString; CString EmptyString;
     CString EmptyString; CString EmptyString; CString EmptyString];
    [CString "ページURL"; CString pageUrl; CString EmptyString;
     CString EmptyString; CString EmptyString; CString EmptyString];
    [CString "検証日時"; CString (formatDateTime checkedAt); CString EmptyString;
     CString EmptyString; CString EmptyString; CString EmptyString];
    [CString "総リンク数"; CNumber (Z.of_nat (length results)); CString EmptyString;
     CString EmptyString; CString EmptyString; CString EmptyString] ]
  ++ [[]] ++ [CSV_HEADERS] ++ map resultRow results)%list.

(** [generateCSV(results, pageUrl, checkedAt)] *)
Definition generateCSV (results : list ValidationResult.t) (pageUrl checkedAt : string)
    : string :=
  let lines :=
    ([ createCSVRow
        [CString "Link Checker - 検証結果レポート"; CString EmptyString; CString EmptyString;
         CString EmptyString; CString EmptyString; CString EmptyString];
      createCSVRow
        [CString "ページURL"; CString pageUrl; CString EmptyString;
         CString EmptyString; CString EmptyString; CString EmptyString];
      createCSVRow
        [CString "検証日時"; CString (formatDateTime checkedAt); CString EmptyString;
         CString EmptyString; CString EmptyString; CString EmptyString];
      createCSVRow
        [CString "総リンク数"; CNumber (Z.of_nat (length results)); CString EmptyString;
         CString EmptyString; CString EmptyString; CString EmptyString];
      EmptyString;
      createCSVRow CSV_HEADERS ]
    ++ map (fun result => createCSVRow (resultRow result)) results)%list in
  UTF8_BOM ++ String.concat LINE_TERMINATOR lines.

End Report.

(** What may follow a cell in the report: nothing, a separator, or a
    line terminator. *)
Definition fieldEnd (r : string) : Prop :=
  r = EmptyString \/ (exists r', r = String ","%char r') \/ exists r', r = String cr r'.

(** What may follow a line in the report: nothing, or a line terminator. *)
Definition lineEnd (r : string) : Prop :=
  r = EmptyString \/ exists r', r = (LINE_TERMINATOR ++ r')%string.

(** The lines after the first, each behind its line terminator. *)
Fixpoint moreLines (rows : list (list Cell)) : string :=
  match rows with
  | [] => EmptyString
  | row :: rows' => (LINE_TERMINATOR ++ createCSVRow row ++ moreLines rows')%string
  end.

(** A result for an anchor whose URL holds a comma, with the link text
    and the element identifier given. *)
Definition sample (text : option string) (elementId : string) : ValidationResult.t :=
  {| ValidationResult.url := "https://example.test/a,b";
     ValidationResult.status := Some 200;
     ValidationResult.statusCategory := success;
     ValidationResult.statusText := "OK";
     ValidationResult.tagName := A;
     ValidationResult.text := text;
     ValidationResult.elementId := elementId;
     ValidationResult.checkedAt := "2026-01-01T00:00:00.000Z" |}.

End CsvReport.

(** * Properties *)

(** ** Strings and CSV cells *)

Section CsvFacts.
Import JsString CsvExporter.

Lemma includes_str1 (c : ascii) (s : string) :
  includes (str1 c) s = mem c s.
Proof.
  induction s as [|a s IH]; [reflexivity|].
  cbn [includes mem]. rewrite IH. f_equal.
  unfold str1. cbn [String.prefix].
  destruct (ascii_dec c a) as [->|Hne].
  - rewrite Ascii.eqb_refl. destruct s; reflexivity.
  - destruct (Ascii.eqb a c) eqn:E; [|reflexivity].
    apply Ascii.eqb_eq in E. congruence.
Qed.

Lemma replaceAll_doubleQuotes (s : string) :
  replaceAll dquote (String dquote (str1 dquote)) s = doubleQuotes s.
Proof.
  induction s as [|a s IH]; [reflexivity|].
  cbn [replaceAll doubleQuotes]. rewrite IH.
  destruct (Ascii.eqb a dquote); reflexivity.
Qed.

Lemma needsEscaping_special (s : string) :
  includes SEPARATOR s || includes (str1 dquote) s
    || includes (str1 lf) s || includes (str1 cr) s
  = special s.
Proof.
  unfold special, SEPARATOR.
  change "," with (str1 ","%char).
  rewrite !includes_str1.
  destruct (mem "," s), (mem dquote s), (mem lf s), (mem cr s); reflexivity.
Qed.

(** A decimal numeral holds no character that needs quoting. *)
Lemma numeral_plain (d : Decimal.uint) : special (NilEmpty.string_of_uint d) = false.
Proof.
  induction d as [|d IH|d IH|d IH|d IH|d IH|d IH|d IH|d IH|d IH|d IH];
    [reflexivity|..].
  all: unfold special in *; cbn [NilEmpty.string_of_uint mem].
  all: apply orb_false_elim in IH as [IH H4]; apply orb_false_elim in IH as [IH H3];
       apply orb_false_elim in IH as [H1 H2]; rewrite H1, H2, H3, H4; reflexivity.
Qed.

Lemma ofZ_plain (n : Z) : special (ofZ n) = false.
Proof.
  unfold ofZ. destruct (Z.to_int n) as [d|d]; cbn [NilZero.string_of_int].
  - unfold NilZero.string_of_uint. destruct d; try reflexivity; apply numeral_plain.
  - unfold special. cbn [mem].
    assert (H : special (NilZero.string_of_uint d) = false).
    { unfold NilZero.string_of_uint. destruct d; try reflexivity; apply numeral_plain. }
    unfold special in H.
    apply orb_false_elim in H as [H H4]; apply orb_false_elim in H as [H H3];
      apply orb_false_elim in H as [H1 H2]. rewrite H1, H2, H3, H4. reflexivity.
Qed.

(** C9.  Every cell value written to the export is a string, a number or
    null ([string | number | null]).  A null cell is emitted as the empty
    string.  A string cell that holds a comma, a double quote, a carriage
    return or a line feed is emitted between double quotes with each
    embedded double quote doubled; any other string cell is emitted
    unchanged.  A number cell (a status code, the count of links: an
    integer) goes through the same rule as the text [String(value)],
    which is its decimal numeral: it holds none of the four characters,
    so the numeral is emitted unchanged; 200 is emitted as "200". *)
Theorem escapeCSVValue_spec :
  escapeCSVValue CNull = EmptyString /\
  (forall s : string,
     escapeCSVValue (CString s) =
       if special s then (str1 dquote ++ doubleQuotes s ++ str1 dquote)%string
       else s) /\
  (forall n : Z,
     let numeral := NilZero.string_of_int (Z.to_int n) in
     stringOf (CNumber n) = numeral /\
     special numeral = false /\
     escapeCSVValue (CNumber n) =
       (if special numeral
        then (str1 dquote ++ doubleQuotes numeral ++ str1 dquote)%string
        else numeral) /\
     escapeCSVValue (CNumber n) = numeral) /\
  escapeCSVValue (CNumber 200) = "200" /\
  escapeCSVValue (CNumber 404) = "404" /\
  escapeCSVValue (CNumber 0) = "0" /\
  escapeCSVValue (CNumber 25) = "25".
Proof.
  split; [reflexivity|]. split.
  - intros s. unfold escapeCSVValue. cbn [stringOf].
    rewrite needsEscaping_special, replaceAll_doubleQuotes.
    destruct (special s); reflexivity.
  - split; [|repeat split].
    intros n. cbv zeta. fold (ofZ n).
    assert (E : escapeCSVValue (CNumber n) = ofZ n).
    { unfold escapeCSVValue. cbn [stringOf].
      rewrite needsEscaping_special, ofZ_plain. reflexivity. }
    rewrite ofZ_plain. split_and!; [reflexivity|reflexivity|exact E|exact E].
Qed.

(** The scenario of the specification: a URL with a comma and a quote. *)
Example escapeCSVValue_comma_and_quote :
  escapeCSVValue (CString ("a,b" ++ str1 dquote ++ "c"))
  = (str1 dquote ++ "a,b" ++ str1 dquote ++ str1 dquote ++ "c" ++ str1 dquote)%string.
Proof. reflexivity. Qed.

End CsvFacts.

(** ** Status classifier *)

Section ClassifierFacts.
Import LinkValidator.

(** C2.  [classifyStatus] maps a status code to [success] exactly on
    [200, 300), to [redirect] exactly on [300, 400), to [client_error]
    exactly on [400, 500), to [server_error] exactly from 500 on, and to
    [network_error] exactly below 200; an absent status is a
    [network_error]. *)
Theorem classifyStatus_ranges :
  classifyStatus None = network_error /\
  forall c : Z,
    (classifyStatus (Some c) = success <-> 200 <= c < 300) /\
    (classifyStatus (Some c) = redirect <-> 300 <= c < 400) /\
    (classifyStatus (Some c) = client_error <-> 400 <= c < 500) /\
    (classifyStatus (Some c) = server_error <-> 500 <= c) /\
    (classifyStatus (Some c) = network_error <-> c < 200) /\
    classifyStatus (Some c) <> timeout.
Proof.
  split; [reflexivity|]. intros c. unfold classifyStatus.
  destruct (200 <=? c) eqn:E1, (c <? 300) eqn:E2, (300 <=? c) eqn:E3,
    (c <? 400) eqn:E4, (400 <=? c) eqn:E5, (c <? 500) eqn:E6,
    (500 <=? c) eqn:E7; cbn;
    repeat match goal with
      | H : (_ <=? _) = _ |- _ => first [apply Z.leb_le in H | apply Z.leb_gt in H]
      | H : (_ <? _) = _ |- _ => first [apply Z.ltb_lt in H | apply Z.ltb_ge in H]
      end;
    repeat split; intros; try discriminate; try lia; try reflexivity.
Qed.

End ClassifierFacts.

(** ** Single-link validator *)

Section ValidatorFacts.
Import JsString LinkValidator.

#[local] Arguments shouldFallbackToGet : simpl never.
#[local] Arguments classifyStatus : simpl never.
#[local] Arguments getStatusText : simpl never.
#[local] Arguments isTimeout : simpl never.
#[local] Arguments orElse : simpl never.

Ltac vl_unfold :=
  unfold run, validateLink, bind, tryCatch, tryFinally, ret, isAborted,
    createTimeoutController, performRequest, setResponse, setLastError,
    getResponse, getLastError, clear, emit, initialFrame, firedAfter, timeoutOf in *;
  cbn [response lastError trace nextTimer awaits] in *.

(** [validateLink] always ends normally. *)
Lemma validateLink_returns (w : World) (link : LinkInfo.t) (config : ValidatorConfig) :
  exists v fr, run (validateLink w link config) = (Normal v, fr).
Proof.
  vl_unfold.
  destruct (signal config) as [s|]; [destruct (s 0%nat)|]; cbn; eauto.
  all: destruct (fetch w (LinkInfo.url link) HEAD) as [r|t]; cbn.
  all: try destruct (shouldFallbackToGet (Some r)); cbn.
  all: try (destruct (fetch w (LinkInfo.url link) GET) as [r'|t']; cbn); eauto.
  all: try destruct (s 2%nat); try destruct (isTimeout _); eauto.
Qed.

Lemma validateLink_descriptor (w : World) (link : LinkInfo.t) (config : ValidatorConfig)
    (v : ValidationResult.t) :
  fst (run (validateLink w link config)) = Normal v -> descriptor v = link.
Proof.
  destruct link as [u tg tx eid]. unfold descriptor.
  vl_unfold.
  destruct (signal config) as [s|]; [destruct (s 0%nat)|]; cbn.
  all: try (intros [= <-]; reflexivity).
  all: destruct (fetch w u HEAD) as [r|t]; cbn.
  all: try destruct (shouldFallbackToGet (Some r)); cbn.
  all: try (destruct (fetch w u GET) as [r'|t']; cbn).
  all: try destruct (s 2%nat); try destruct (isTimeout _).
  all: intros [= <-]; reflexivity.
Qed.






(** C6.  When the HEAD probe yields a response with status 405 or 400, the
    validator retries with GET under a fresh timer and signal, and the
    outcome is classified from the response of the retry; with 405 from
    HEAD and 200 from GET the category is [success]. *)
Theorem validateLink_head_unsupported (w : World) (link : LinkInfo.t)
    (config : ValidatorConfig) (r : Response.t) :
  firedAfter config 0 = false ->
  fetch w (LinkInfo.url link) HEAD = Resolved r ->
  Response.status r = 405 \/ Response.status r = 400 ->
  exists v fr,
    run (validateLink w link config) = (Normal v, fr) /\
    trace fr = retryTrace (LinkInfo.url link) (timeoutOf config) (isSome (signal config)) /\
    (forall r',
       fetch w (LinkInfo.url link) GET = Resolved r' ->
       ValidationResult.status v = Some (Response.status r') /\
       ValidationResult.statusCategory v = classifyStatus (Some (Response.status r')) /\
       ValidationResult.statusText v
         = getStatusText (Some (Response.status r'))
             (classifyStatus (Some (Response.status r')))) /\
    (Response.status r = 405 ->
     fetch w (LinkInfo.url link) GET = Resolved (Response.mk 200) ->
     ValidationResult.statusCategory v = success).
Proof.
  intros H0 Hh Hs.
  assert (Hfb : shouldFallbackToGet (Some r) = true).
  { unfold shouldFallbackToGet. destruct Hs as [-> | ->]; reflexivity. }
  unfold retryTrace. vl_unfold.
  destruct (signal config) as [s|]; [rewrite H0|]; cbn; rewrite Hh; cbn;
    rewrite Hfb; cbn.
  all: destruct (fetch w (LinkInfo.url link) GET) as [r'|t'] eqn:Hg; cbn.
  all: eexists _, _; split; [reflexivity|]; cbn; split; [reflexivity|].
  all: split; [intros r'' [= <-] || intros r'' [=]; repeat split
              | intros _ [= E] || intros _ [=]; try (rewrite E; reflexivity)].
Qed.

(** C6 at the scenario of the specification: 405 from HEAD, 200 from GET. *)
Lemma validateLink_head_unsupported_witness :
  let w := {| fetch := fun _ m =>
                match m with
                | HEAD => Resolved (Response.mk 405)
                | GET => Resolved (Response.mk 200)
                end;
              now := "2026-01-01T00:00:00.000Z" |} in
  let link := LinkInfo.mk "https://example.test/a" A None "lc-0" in
  let config := {| timeoutMs := None; signal := None |} in
  exists v fr,
    run (validateLink w link config) = (Normal v, fr) /\
    ValidationResult.status v = Some 200 /\
    ValidationResult.statusCategory v = success.
Proof.
  cbv zeta.
  destruct (validateLink_head_unsupported
              {| fetch := fun _ m =>
                   match m with
                   | HEAD => Resolved (Response.mk 405)
                   | GET => Resolved (Response.mk 200)
                   end;
                 now := "2026-01-01T00:00:00.000Z" |}
              (LinkInfo.mk "https://example.test/a" A None "lc-0")
              {| timeoutMs := None; signal := None |}
              (Response.mk 405) eq_refl eq_refl (or_introl eq_refl))
    as (v & fr & Hrun & _ & Hget & Hok).
  exists v, fr. split; [exact Hrun|]. split.
  - exact (proj1 (Hget _ eq_refl)).
  - exact (Hok eq_refl eq_refl).
Defined.

(** When the retry after a 405 or 400 fails, the response of the HEAD probe
    stays in [response] and is what the outcome reports. *)
Lemma validateLink_retry_fails_keeps_head (w : World) (link : LinkInfo.t)
    (config : ValidatorConfig) (r : Response.t) (t : Thrown) :
  firedAfter config 0 = false ->
  fetch w (LinkInfo.url link) HEAD = Resolved r ->
  shouldFallbackToGet (Some r) = true ->
  fetch w (LinkInfo.url link) GET = Rejected t ->
  exists v fr,
    run (validateLink w link config) = (Normal v, fr) /\
    ValidationResult.status v = Some (Response.status r).
Proof.
  intros H0 Hh Hfb Hg. vl_unfold.
  destruct (signal config) as [s|]; [rewrite H0|]; cbn; rewrite Hh; cbn;
    rewrite Hfb; cbn; rewrite Hg; cbn; eauto.
Qed.

(** Any other response of the HEAD probe is final: no GET is issued. *)
Lemma validateLink_head_final (w : World) (link : LinkInfo.t)
    (config : ValidatorConfig) (r : Response.t) :
  firedAfter config 0 = false ->
  fetch w (LinkInfo.url link) HEAD = Resolved r ->
  shouldFallbackToGet (Some r) = false ->
  exists v fr,
    run (validateLink w link config) = (Normal v, fr) /\
    ValidationResult.status v = Some (Response.status r) /\
    ValidationResult.statusCategory v = classifyStatus (Some (Response.status r)) /\
    trace fr =
      [ EvSetTimeout 0 (timeoutOf config);
        EvFetch (LinkInfo.url link) HEAD
          {| timer := 0; external := isSome (signal config) |};
        EvClearTimeout 0; EvClearTimeout 0 ].
Proof.
  intros H0 Hh Hfb. vl_unfold.
  destruct (signal config) as [s|]; [rewrite H0|]; cbn; rewrite Hh; cbn;
    rewrite Hfb; cbn; eauto 10.
Qed.

End ValidatorFacts.

(** ** Concurrency limiter *)

Section LimiterFacts.
Import Limiter.
Local Open Scope list_scope.

(** What [acquire] does, by cases on the free count. *)
Lemma acquire_free (c : nat) (s : Semaphore) :
  (0 < permits s)%nat ->
  acquire c s = (true, {| permits := permits s - 1; waiting := waiting s |}).
Proof.
  intros H. unfold acquire.
  destruct (Nat.ltb_spec 0 (permits s)); [reflexivity | lia].
Qed.

Lemma acquire_busy (c : nat) (s : Semaphore) :
  permits s = 0%nat ->
  acquire c s = (false, {| permits := permits s; waiting := waiting s ++ [c] |}).
Proof. intros H. unfold acquire. rewrite H. reflexivity. Qed.

(** What [release] does, by cases on the queue. *)
Lemma release_handover (s : Semaphore) (next : nat) (rest : list nat) :
  waiting s = next :: rest ->
  release s = (Some next, {| permits := permits s; waiting := rest |}).
Proof. intros H. unfold release. rewrite H. reflexivity. Qed.

Lemma release_idle (s : Semaphore) :
  waiting s = [] ->
  release s = (None, {| permits := permits s + 1; waiting := [] |}).
Proof. intros H. unfold release. rewrite H. reflexivity. Qed.

Lemma remove1_length (c : nat) (l : list nat) :
  In c l -> S (length (remove1 c l)) = length l.
Proof.
  induction l as [|x l IH]; [intros []|].
  intros Hin. cbn [remove1].
  destruct (Nat.eqb_spec x c) as [->|Hne]; [reflexivity|].
  destruct Hin as [->|Hin]; [congruence|].
  cbn [length]. rewrite IH by exact Hin. reflexivity.
Qed.

Lemma accounted_init (n : nat) : accounted n (init n).
Proof. split; cbn; [lia | congruence]. Qed.

Lemma accounted_step (n : nat) (y : Sys) (op : Op) :
  accounted n y ->
  match op with Acquire _ => True | Release c => In c (holders y) end ->
  accounted n (step y op).
Proof.
  intros [Hsum Hq] Hop. destruct y as [[p q] h sv]. cbn in *.
  destruct op as [c|c]; unfold step, acquire, release, accounted; cbn.
  - destruct p as [|p']; cbn.
    + split; [lia | reflexivity].
    + split; [rewrite length_app; cbn; lia|].
      intros Hne. specialize (Hq Hne). lia.
  - pose proof (remove1_length c h Hop) as Hlen.
    destruct q as [|d q']; cbn.
    + split; [lia | congruence].
    + assert (p = 0%nat) as -> by (apply Hq; congruence).
      split; [rewrite length_app; cbn; lia | reflexivity].
Qed.

Lemma accounted_run (n : nat) (ops : list Op) (y : Sys) :
  accounted n y -> disciplined y ops -> accounted n (fold_left step ops y).
Proof.
  revert y. induction ops as [|op ops IH]; intros y Hy Hd; [exact Hy|].
  destruct Hd as [Hop Hd]. cbn [fold_left].
  apply IH; [apply accounted_step; assumption | exact Hd].
Qed.

(** First come, first served: the callers served so far, followed by those
    still waiting, are the callers of [acquire] in call order.  This needs
    no discipline. *)
Lemma fifo_step (y : Sys) (op : Op) :
  (waiting (sem y) <> [] -> permits (sem y) = 0%nat) ->
  (waiting (sem (step y op)) <> [] -> permits (sem (step y op)) = 0%nat) /\
  served (step y op) ++ waiting (sem (step y op))
    = (served y ++ waiting (sem y)) ++ requests [op].
Proof.
  intros Hq. destruct y as [[p q] h sv]. cbn in *.
  destruct op as [c|c]; unfold step, acquire, release; cbn.
  - destruct p as [|p']; cbn.
    + split; [reflexivity|]. now rewrite app_assoc.
    + destruct q as [|d q']; [|specialize (Hq ltac:(congruence)); lia].
      split; [congruence|]. now rewrite !app_nil_r.
  - destruct q as [|d q']; cbn.
    + split; [congruence|]. now rewrite !app_nil_r.
    + split; [intros _; apply Hq; congruence|].
      rewrite !app_nil_r, <- app_assoc. reflexivity.
Qed.

Lemma requests_app (ops ops' : list Op) :
  requests (ops ++ ops') = requests ops ++ requests ops'.
Proof.
  induction ops as [|[c|c] ops IH]; cbn; [reflexivity | now rewrite IH | exact IH].
Qed.

Lemma fifo_run (ops : list Op) (y : Sys) :
  (waiting (sem y) <> [] -> permits (sem y) = 0%nat) ->
  served (fold_left step ops y) ++ waiting (sem (fold_left step ops y))
    = (served y ++ waiting (sem y)) ++ requests ops.
Proof.
  revert y. induction ops as [|op ops IH]; intros y Hq.
  - cbn. now rewrite app_nil_r.
  - cbn [fold_left]. destruct (fifo_step y op Hq) as [Hq' Heq].
    rewrite (IH _ Hq'), Heq, <- app_assoc.
    change (op :: ops) with ([op] ++ ops). now rewrite requests_app.
Qed.

(** C7, amended.  [acquire] takes a free permit at once when there is one
    and otherwise suspends its caller at the back of the queue; [release]
    hands the permit to the caller at the front of the queue and leaves the
    free count as it is, or adds one to the free count when nobody waits;
    callers are served in the order of their [acquire] calls; and in every
    run in which only holders of a permit release, the free permits and the
    held permits add up to N, so that never more than N are held. *)
Theorem semaphore_accounting (n : nat) (ops : list Op) :
  (forall c s,
     acquire c s =
       if (0 <? permits s)%nat
       then (true, {| permits := permits s - 1; waiting := waiting s |})
       else (false, {| permits := permits s; waiting := waiting s ++ [c] |})) /\
  (forall s,
     release s =
       match waiting s with
       | next :: rest => (Some next, {| permits := permits s; waiting := rest |})
       | [] => (None, {| permits := permits s + 1; waiting := [] |})
       end) /\
  served (run n ops) ++ waiting (sem (run n ops)) = requests ops /\
  (disciplined (init n) ops ->
   (permits (sem (run n ops)) + length (holders (run n ops)) = n)%nat /\
   (length (holders (run n ops)) <= n)%nat).
Proof.
  split; [reflexivity|]. split; [reflexivity|]. split.
  - unfold run. rewrite fifo_run; [reflexivity | cbn; congruence].
  - intros Hd.
    destruct (accounted_run n ops (init n) (accounted_init n) Hd) as [Hsum _].
    unfold run. split; [exact Hsum | lia].
Qed.

(** C7 at a run of a semaphore with one permit: three callers acquire, the
    first releases, and the permit goes to the second. *)
Lemma semaphore_accounting_witness :
  served (run 1 [Acquire 0; Acquire 1; Acquire 2; Release 0]) = [0%nat; 1%nat] /\
  waiting (sem (run 1 [Acquire 0; Acquire 1; Acquire 2; Release 0])) = [2%nat] /\
  (length (holders (run 1 [Acquire 0; Acquire 1; Acquire 2; Release 0])) <= 1)%nat.
Proof.
  split; [reflexivity|]. split; [reflexivity|].
  refine (proj2 (proj2 (proj2 (proj2
    (semaphore_accounting 1 [Acquire 0; Acquire 1; Acquire 2; Release 0]))) _)).
  cbn. intuition.
Defined.

(** C7 as stated fails for a run in which a caller releases a permit it
    does not hold: the free count exceeds N and two callers then hold a
    permit of a semaphore built with one. *)
Lemma semaphore_stray_release :
  permits (sem (run 1 [Release 0])) = 2%nat /\
  holders (run 1 [Release 0; Acquire 1; Acquire 2]) = [1%nat; 2%nat] /\
  ~ (length (holders (run 1 [Release 0; Acquire 1; Acquire 2])) <= 1)%nat.
Proof. repeat split. cbn. lia. Qed.

End LimiterFacts.

(** ** Batch orchestrator: every run *)

Section OrchestratorFacts.
Import LinkValidator Limiter Orchestrator.
Local Open Scope nat_scope.
Local Open Scope list_scope.

Variable o : Oracle.
Variable config : Config.


Lemma quiet_refl pool st : quiet pool st st.
Proof.
  unfold quiet. split_and!; auto.
  exists []. rewrite app_nil_r. split; [reflexivity | constructor].
Qed.

Lemma quiet_trans pool st1 st2 st3 :
  quiet pool st1 st2 -> quiet pool st2 st3 -> quiet pool st1 st3.
Proof.
  intros (A1 & A2 & A3 & A4 & A5 & A6 & A7 & A8 & ps & A9 & A10)
         (B1 & B2 & B3 & B4 & B5 & B6 & B7 & B8 & qs & B9 & B10).
  unfold quiet. split_and!; try congruence; auto.
  exists (ps ++ qs). rewrite B9, A9, app_assoc. split; [reflexivity|].
  apply Forall_app; split; assumption.
Qed.

Lemma quiet_withProbed pool l st : l ∈ pool -> quiet pool st (withProbed l st).
Proof.
  intros Hl. unfold quiet; cbn. split_and!; auto.
  exists [l]. split; [reflexivity | apply Forall_singleton; exact Hl].
Qed.

Lemma quiet_withReported pool p st : quiet pool st (withReported p st).
Proof.
  unfold quiet; cbn. split_and!; auto.
  exists []. rewrite app_nil_r. split; [reflexivity | constructor].
Qed.

Lemma quiet_tick pool st : quiet pool st (snd (tick o st)).
Proof.
  destruct st as [ac cs ir pc hp sg ps rp pb ck].
  unfold tick, quiet, cancel, aborted. cbn.
  destruct (cancelAt o ck), ac as [[]|]; cbn; split_and!; auto;
    (exists []; rewrite app_nil_r; split; [reflexivity | constructor]).
Qed.

Lemma quiet_mono pool pool' st st' :
  (forall l, l ∈ pool -> l ∈ pool') -> quiet pool st st' -> quiet pool' st st'.
Proof.
  intros Hsub (A1 & A2 & A3 & A4 & A5 & A6 & A7 & A8 & ps & A9 & A10).
  unfold quiet. split_and!; auto.
  exists ps. split; [exact A9|]. eapply Forall_impl; [exact A10 | exact Hsub].
Qed.

Lemma enter_aborted fuel batch index b st :
  aborted st = true ->
  (length (waiting (semaphore b)) <= fuel)%nat ->
  enter fuel batch index b st
  = (withSemaphore {| permits := permits (semaphore b) + 1; waiting := [] |} b, st).
Proof.
  intros Ha. revert index b.
  induction fuel as [|fuel IH]; intros index b Hlen.
  - cbn. rewrite Ha. unfold release.
    destruct (waiting (semaphore b)) as [|j rest] eqn:E; [reflexivity|cbn in Hlen; lia].
  - cbn. rewrite Ha. unfold release.
    destruct (waiting (semaphore b)) as [|j rest] eqn:E; [reflexivity|].
    rewrite IH by (cbn in *; lia). reflexivity.
Qed.

Lemma enter_live fuel batch index link b st :
  aborted st = false ->
  batch !! index = Some link ->
  enter fuel batch index b st
  = ({| semaphore := semaphore b; slots := slots b;
        completedInBatch := completedInBatch b;
        inflight := inflight b ++ [(index, clock st)] |},
     withProbed link st).
Proof. intros Ha Hl. destruct fuel; cbn; rewrite Ha, Hl; reflexivity. Qed.

Ltac close_inv :=
  cbn;
  first
    [ assumption
    | reflexivity
    | apply quiet_refl
    | apply quiet_withProbed; eapply list_elem_of_lookup_2; eassumption
    | apply Forall_nil_2
    | apply Forall_app; split; [assumption | repeat constructor; assumption]
    | unfold pending in *; cbn in *; rewrite ?length_app in *; cbn in *; lia
    | congruence
    | intros _; cbn in *; match goal with H : _ -> ?g |- ?g => apply H; congruence end ].

Ltac solve_inv :=
  split; [unfold BInv; cbn; split_and!; close_inv
         | split; [close_inv | split_and?; close_inv]].

(** A task that holds a permit and passes the second check. *)
Lemma enter_inv fuel batch n index b st :
  BInv batch n 1 b ->
  (index < length batch)%nat ->
  (length (waiting (semaphore b)) <= fuel)%nat ->
  let r := enter fuel batch index b st in
  BInv batch n 0 (fst r) /\ quiet batch st (snd r) /\ aborted (snd r) = aborted st /\
  (pending (fst r) <= S (pending b))%nat /\
  slots (fst r) = slots b /\ completedInBatch (fst r) = completedInBatch b.
Proof.
  intros (Hlen & Hslots & Hin & Hw & Hsum & Hq) Hidx Hfuel.
  destruct (aborted st) eqn:Ha.
  - rewrite enter_aborted by assumption.
    solve_inv.
  - destruct (lookup_lt_is_Some_2 batch index Hidx) as [link Hl].
    rewrite (enter_live _ _ _ link) by assumption.
    solve_inv.
Qed.

Lemma spawn_inv batch n index b st :
  BInv batch n 0 b ->
  (index < length batch)%nat ->
  let r := spawn batch (b, st) index in
  BInv batch n 0 (fst r) /\ quiet batch st (snd r) /\ aborted (snd r) = aborted st /\
  (pending (fst r) <= S (pending b))%nat /\
  slots (fst r) = slots b /\ completedInBatch (fst r) = completedInBatch b.
Proof.
  intros HB Hidx. pose proof HB as (Hlen & Hslots & Hin & Hw & Hsum & Hq).
  unfold spawn. destruct (aborted st) eqn:Ha.
  - solve_inv.
  - destruct (lookup_lt_is_Some_2 batch index Hidx) as [link Hl].
    destruct (Nat.eq_dec (permits (semaphore b)) 0) as [Hp|Hp].
    + rewrite acquire_busy by exact Hp.
      solve_inv.
    + rewrite acquire_free by lia.
      rewrite (enter_live _ _ _ link) by assumption.
      assert (Hwe : waiting (semaphore b) = []).
      { destruct (waiting (semaphore b)); [reflexivity|].
        specialize (Hq ltac:(congruence)). lia. }
      solve_inv.
Qed.

Lemma spawn_fold batch n idxs b st :
  BInv batch n 0 b ->
  Forall (fun i => i < length batch)%nat idxs ->
  let r := fold_left (spawn batch) idxs (b, st) in
  BInv batch n 0 (fst r) /\ quiet batch st (snd r) /\
  (pending (fst r) <= pending b + length idxs)%nat.
Proof.
  revert b st. induction idxs as [|i idxs IH]; intros b st HB Hidx.
  - cbn. split; [exact HB|]. split; [apply quiet_refl | lia].
  - apply Forall_cons in Hidx as [Hi Hidx]. cbn [fold_left].
    destruct (spawn_inv batch n i b st HB Hi) as (HB' & Hq' & _ & Hp' & _).
    destruct (spawn batch (b, st) i) as [b' st']. cbn in HB', Hq', Hp'.
    destruct (IH b' st' HB' Hidx) as (HB'' & Hq'' & Hp'').
    split; [exact HB''|]. split; [eapply quiet_trans; eassumption | cbn in *; lia].
Qed.

Lemma leave_inv batch n b st :
  BInv batch n 1 b ->
  let r := leave batch b st in
  BInv batch n 0 (fst r) /\ quiet batch st (snd r) /\
  (pending (fst r) <= pending b)%nat.
Proof.
  intros (Hlen & Hslots & Hin & Hw & Hsum & Hq).
  unfold leave, release.
  destruct (waiting (semaphore b)) as [|j rest] eqn:E.
  - solve_inv.
  - apply Forall_cons in Hw as [Hj Hrest].
    pose proof (enter_inv (length rest) batch n j
                  (withSemaphore {| permits := permits (semaphore b); waiting := rest |} b) st)
      as H.
    destruct H as (H1 & H2 & _ & H4 & _).
    + unfold BInv; cbn; split_and!; close_inv.
    + exact Hj.
    + cbn. lia.
    + split; [exact H1|]. split; [exact H2|].
      unfold pending in *. cbn in *. rewrite E. cbn. lia.
Qed.

Lemma settle_spec batch n hasSignal startIndex totalLinks b st :
  BInv batch n 0 b ->
  inflight b <> [] ->
  exists b' st',
    settle o config batch hasSignal startIndex totalLinks b st = (Returns b', st') /\
    BInv batch n 0 b' /\ quiet batch st st' /\ (pending b' < pending b)%nat.
Proof.
  intros (Hlen & Hslots & Hin & Hw & Hsum & Hq) Hne.
  unfold settle, andThen, get, modify.
  pose proof (quiet_tick batch st) as Hqt.
  destruct (tick o st) as [ot st1] eqn:Et.
  assert (ot = Returns tt) as -> by (unfold tick in Et; congruence).
  cbn in Hqt.
  set (k := (settles o (clock st1) mod length (inflight b))%nat).
  assert (Hk : (k < length (inflight b))%nat).
  { apply Nat.mod_upper_bound. destruct (inflight b); cbn; congruence. }
  destruct (lookup_lt_is_Some_2 _ _ Hk) as [[index called] Hlk].
  rewrite Hlk.
  assert (Hidx : (index < length batch)%nat).
  { exact (Forall_lookup_1 _ _ _ _ Hin Hlk). }
  destruct (lookup_lt_is_Some_2 batch index Hidx) as [link Hl].
  rewrite Hl.
  set (w := {| fetch := net o (clock st1); now := date o called |}).
  set (vc := validatorConfig config hasSignal (aborted st1)).
  destruct (validateLink_returns w link vc) as (v & fr & Hrun).
  pose proof (validateLink_descriptor w link vc v) as Hdesc.
  rewrite Hrun in *. cbn [fst]. specialize (Hdesc eq_refl).
  set (st2 := if progressCallback st1 then _ else st1).
  assert (Hq2 : quiet batch st1 st2).
  { subst st2. destruct (progressCallback st1); [apply quiet_withReported | apply quiet_refl]. }
  match goal with |- context [leave batch ?x st2] => set (b2 := x) end.
  assert (HB2 : BInv batch n 1 b2).
  { subst b2. repeat split; cbn.
    - rewrite length_insert. exact Hlen.
    - intros i r Hi. destruct (decide (i = index)) as [->|Hne'].
      + rewrite list_lookup_insert_eq in Hi by lia.
        injection Hi as <-. rewrite Hdesc. exact Hl.
      + rewrite list_lookup_insert_ne in Hi by congruence. eauto.
    - apply Forall_delete. exact Hin.
    - exact Hw.
    - rewrite length_delete by eauto. lia.
    - exact Hq. }
  destruct (leave_inv batch n b2 st2 HB2) as (HB3 & Hq3 & Hp3).
  eexists _, _. split; [reflexivity|].
  split; [exact HB3|]. split.
  - eapply quiet_trans; [exact Hqt|]. eapply quiet_trans; [exact Hq2 | exact Hq3].
  - unfold pending in *. subst b2. cbn in *.
    rewrite length_delete in Hp3 by eauto. lia.
Qed.

Lemma settleAll_spec batch n hasSignal startIndex totalLinks fuel b st :
  (0 < n)%nat ->
  BInv batch n 0 b ->
  (pending b <= fuel)%nat ->
  exists b' st',
    settleAll o config fuel batch hasSignal startIndex totalLinks b st = (Returns b', st') /\
    BInv batch n 0 b' /\ quiet batch st st'.
Proof.
  intros Hn. revert b st. induction fuel as [|fuel IH]; intros b st HB Hp.
  - assert (inflight b = [] /\ waiting (semaphore b) = []) as [E1 E2].
    { unfold pending in Hp.
      destruct (inflight b), (waiting (semaphore b)); cbn in Hp; try lia. split; reflexivity. }
    cbn. rewrite E1, E2. eexists _, _. split; [reflexivity|]. split; [exact HB | apply quiet_refl].
  - cbn. destruct (inflight b) as [|x fl] eqn:E1.
    + assert (E2 : waiting (semaphore b) = []).
      { destruct HB as (_ & _ & _ & _ & Hsum & Hq). rewrite E1 in Hsum. cbn in Hsum.
        destruct (waiting (semaphore b)); [reflexivity|].
        specialize (Hq ltac:(congruence)). lia. }
      rewrite E2. eexists _, _. split; [reflexivity|]. split; [exact HB | apply quiet_refl].
    + destruct (settle_spec batch n hasSignal startIndex totalLinks b st HB)
        as (b' & st' & Hs & HB' & Hq' & Hp'); [congruence|].
      unfold andThen. rewrite Hs.
      destruct (IH b' st' HB' ltac:(lia)) as (b'' & st'' & Hs' & HB'' & Hq'').
      rewrite Hs'. eexists _, _. split; [reflexivity|]. split; [exact HB''|].
      eapply quiet_trans; eassumption.
Qed.

(** The outcomes kept by [filter] are those of a sublist of the batch. *)
Lemma defined_sublist (batch : list LinkInfo.t) (sl : list (option ValidationResult.t)) :
  length sl = length batch ->
  (forall i r, sl !! i = Some (Some r) -> batch !! i = Some (descriptor r)) ->
  map descriptor (defined sl) `sublist_of` batch.
Proof.
  revert batch. induction sl as [|x sl IH]; intros [|l batch] Hlen Hs; cbn in Hlen; try lia.
  - constructor.
  - unfold defined in *. cbn. destruct x as [r|]; cbn.
    + specialize (Hs 0%nat r eq_refl) as H0. cbn in H0. injection H0 as ->.
      apply sublist_skip. apply IH; [lia|]. intros i r' Hi. apply (Hs (S i) r' Hi).
    + apply sublist_cons. apply IH; [lia|]. intros i r' Hi. apply (Hs (S i) r' Hi).
Qed.

Lemma emptyBatch_inv batch : BInv batch (concurrency config) 0 (emptyBatch config batch).
Proof.
  unfold BInv, emptyBatch; cbn. split_and!.
  - apply length_replicate.
  - intros i r Hi. apply lookup_replicate in Hi as [Hi _]. discriminate.
  - constructor.
  - constructor.
  - lia.
  - congruence.
Qed.

(** [processBatch] returns, and what it returns follows the batch. *)
Lemma processBatch_sound batch startIndex totalLinks st :
  (0 < concurrency config)%nat ->
  exists rs st',
    processBatch o config batch startIndex totalLinks st = (Returns rs, st') /\
    quiet batch st st' /\ map descriptor rs `sublist_of` batch.
Proof.
  intros Hn. unfold processBatch, andThen, get, modify, pure.
  set (b0 := emptyBatch config batch).
  pose proof (emptyBatch_inv batch) as HB0. fold b0 in HB0.
  destruct (spawn_fold batch (concurrency config) (seq 0 (length batch)) b0 st HB0)
    as (HB1 & Hq1 & Hp1).
  { apply Forall_forall. intros i Hi. apply list_elem_of_In, in_seq in Hi. lia. }
  destruct (fold_left (spawn batch) (seq 0 (length batch)) (b0, st)) as [b1 st1].
  cbn [fst snd] in *.
  destruct (settleAll_spec batch (concurrency config) (isSome (abortController st))
              startIndex totalLinks (length batch) b1 st1 Hn HB1)
    as (b2 & st2 & Hs & HB2 & Hq2).
  { rewrite length_seq in Hp1. unfold pending in *. subst b0. cbn in *. lia. }
  rewrite Hs. eexists _, _. split; [reflexivity|]. split.
  - eapply quiet_trans; eassumption.
  - destruct HB2 as (Hlen & Hslots & _). apply defined_sublist; assumption.
Qed.


Lemma Reached_inv batch hasSignal startIndex totalLinks st0 b st :
  Reached o config batch hasSignal startIndex totalLinks st0 b st ->
  BInv batch (concurrency config) 0 b.
Proof.
  induction 1 as [k Hk | b b' st st' _ IH Hne Hs].
  - apply (spawn_fold batch (concurrency config) (seq 0 k) (emptyBatch config batch) st0).
    + apply emptyBatch_inv.
    + apply Forall_forall. intros i Hi. apply list_elem_of_In, in_seq in Hi. lia.
  - destruct (settle_spec batch (concurrency config) hasSignal startIndex totalLinks b st IH Hne)
      as (b2 & st2 & E & HB & _).
    rewrite Hs in E. injection E as <- <-. exact HB.
Qed.

(** X3.  At every moment of a [processBatch] call, whatever the order in
    which probes settle and the moment of cancellation, the probes in
    flight and the free permits add up to the configured concurrency: at
    most [concurrency] probes are in flight. *)
Theorem in_flight_bounded batch hasSignal startIndex totalLinks st0 b st :
  Reached o config batch hasSignal startIndex totalLinks st0 b st ->
  permits (semaphore b) + length (inflight b) = concurrency config /\
  length (inflight b) <= concurrency config.
Proof.
  intros H. apply Reached_inv in H as (_ & _ & _ & _ & Hsum & _). lia.
Qed.

(** *** Chunking *)

Lemma chunkLoop_spec (links : list LinkInfo.t) (size fuel i : nat)
    (acc : list (list LinkInfo.t)) :
  (0 < size)%nat ->
  (length links - i <= fuel)%nat ->
  exists bs,
    chunkLoop fuel links size i acc = Some (acc ++ bs) /\ concat bs = drop i links.
Proof.
  intros Hsize. revert i acc. induction fuel as [|fuel IH]; intros i acc Hfuel.
  - cbn [chunkLoop]. destruct (Nat.ltb_spec i (length links)); [lia|].
    exists []. rewrite app_nil_r, drop_ge by lia. split; reflexivity.
  - cbn [chunkLoop]. destruct (Nat.ltb_spec i (length links)).
    + destruct (IH (i + size)%nat (acc ++ [slice links i (i + size)])) as (bs & E & Hc); [lia|].
      exists (slice links i (i + size) :: bs). split.
      * rewrite E, <- app_assoc. reflexivity.
      * cbn. rewrite Hc. unfold slice.
        replace (i + size - i)%nat with size by lia.
        rewrite <- drop_drop. apply take_drop.
    + exists []. rewrite app_nil_r, drop_ge by lia. split; reflexivity.
Qed.

(** With a batch size of 0 the loop never ends on a non-empty list,
    whatever the fuel. *)
Lemma chunkLoop_zero (links : list LinkInfo.t) (fuel i : nat)
    (acc : list (list LinkInfo.t)) :
  (i < length links)%nat -> chunkLoop fuel links 0 i acc = None.
Proof.
  revert acc. induction fuel as [|fuel IH]; intros acc Hi; cbn [chunkLoop];
    destruct (Nat.ltb_spec i (length links)); try lia; [reflexivity|].
  rewrite Nat.add_0_r. apply IH. exact Hi.
Qed.

(** *** Records and the log *)

Lemma nondecreasing_snoc (l : list nat) (y : nat) :
  nondecreasing l -> Forall (fun x => x <= y)%nat l -> nondecreasing (l ++ [y]).
Proof.
  intros Hl Hy i j a b Hij Hi Hj.
  destruct (decide (j < length l)%nat) as [Hjl|Hjl].
  - rewrite lookup_app_l in Hi, Hj by lia. eauto.
  - assert (b = y) as ->.
    { rewrite lookup_app_r in Hj by lia.
      destruct (j - length l)%nat as [|?]; cbn in Hj; [congruence|].
      first [discriminate | rewrite lookup_nil in Hj; discriminate]. }
    destruct (decide (i < length l)%nat) as [Hil|Hil].
    + rewrite lookup_app_l in Hi by lia.
      exact (Forall_lookup_1 _ _ _ _ Hy Hi).
    + rewrite lookup_app_r in Hi by lia.
      destruct (i - length l)%nat as [|?]; cbn in Hi; [injection Hi as ->; lia|].
      first [discriminate | rewrite lookup_nil in Hi; discriminate].
Qed.

Lemma Logged_quiet pool links ws0 bound st st' :
  quiet pool st st' -> Logged links ws0 bound st -> Logged links ws0 bound st'.
Proof.
  intros (_ & Hp & _) (ws & E & H). exists ws. rewrite Hp. auto.
Qed.

Lemma Logged_weaken links ws0 bound bound' st :
  (bound <= bound')%nat -> Logged links ws0 bound st -> Logged links ws0 bound' st.
Proof.
  intros Hb (ws & E & Hg & Hn & Hle). exists ws. repeat split; try assumption.
  eapply Forall_impl; [exact Hle|]. cbn. intros. lia.
Qed.

Lemma Tracking_quiet pool r links all ws0 st st' :
  quiet pool st st' -> Tracking r links all ws0 st -> Tracking r links all ws0 st'.
Proof.
  intros Hq (Hc & Hs & Hsub & Hl). pose proof Hq as (Hh & _ & _ & Hcs & _).
  unfold Tracking. rewrite Hh, Hcs. repeat split; try assumption.
  eapply Logged_quiet; eassumption.
Qed.

Lemma writeObj_eq r (f : Session.t -> Session.t) s st :
  heap st !! r = Some s ->
  writeObj r f st = (Returns tt, withHeap (<[r := f s]> (heap st)) st).
Proof. intros H. unfold writeObj. rewrite H. reflexivity. Qed.

Lemma readObj_eq r s st :
  heap st !! r = Some s -> readObj r st = (Returns s, st).
Proof. intros H. unfold readObj. rewrite H. reflexivity. Qed.

Lemma saveSession_eq r s st :
  heap st !! r = Some s ->
  saveSession o r st =
    if saveFails o (clock st) then (Throws (error "storage failure"), snd (tick o st))
    else (Returns tt, snd (tick o (withStored s st))).
Proof.
  intros H. unfold saveSession, andThen, get, modify, throw.
  rewrite (readObj_eq _ _ _ H).
  destruct (saveFails o (clock st)); reflexivity.
Qed.

(** Writing the tracked object to storage. *)
Lemma saveSession_tracked r links all ws0 st :
  Tracking r links all ws0 st ->
  exists out st',
    saveSession o r st = (out, st') /\
    Tracking r links all ws0 st' /\
    probed st' = probed st /\
    ((out = Returns tt /\
      exists s, persisted st' = persisted st ++ [s] /\ heap st !! r = Some s) \/
     (exists t n, out = Throws t /\ saveFails o n = true)).
Proof.
  intros HT. pose proof HT as (Hc & (s & Hs & Hl & Hr & Hn) & Hsub & (ws & E & Hg & Hm & Hb)).
  rewrite (saveSession_eq r s st Hs).
  destruct (saveFails o (clock st)) eqn:Ef.
  - eexists _, _. split; [reflexivity|]. split; [|split; [|right; eauto]].
    + eapply (Tracking_quiet []); [apply quiet_tick | exact HT].
    + destruct (quiet_tick [] st) as (_ & _ & _ & _ & _ & _ & _ & _ & ps & Hp & Hps).
      rewrite Hp. destruct ps; [apply app_nil_r|].
      apply Forall_cons in Hps as [Hx _]. now apply not_elem_of_nil in Hx.
  - eexists _, _. split; [reflexivity|]. split; [|split].
    + eapply (Tracking_quiet []); [apply quiet_tick|].
      split; [exact Hc|]. split; [exists s; auto|]. split; [exact Hsub|].
      exists (ws ++ [s]). cbn. rewrite E, app_assoc. split; [reflexivity|].
      assert (HG : Good links s) by (split; [congruence | rewrite Hr; exact Hsub]).
      split; [apply Forall_app; split; [exact Hg | apply Forall_singleton; exact HG]|].
      split.
      * rewrite map_app. cbn. apply nondecreasing_snoc; [exact Hm|].
        apply Forall_map. eapply Forall_impl; [exact Hb|]. cbn. intros. lia.
      * apply Forall_app; split; [exact Hb | apply Forall_singleton; lia].
    + destruct (quiet_tick [] (withStored s st)) as (_ & _ & _ & _ & _ & _ & _ & _ & ps & Hp & Hps).
      rewrite Hp. destruct ps; [apply app_nil_r|].
      apply Forall_cons in Hps as [Hx _]. now apply not_elem_of_nil in Hx.
    + left. split; [reflexivity|]. exists s. split; [|exact Hs].
      destruct (quiet_tick [] (withStored s st)) as (_ & Hp & _).
      rewrite Hp. reflexivity.
Qed.

(** A write that leaves links, results and count alone. *)
Lemma writeObj_tracked r links all ws0 st (f : Session.t -> Session.t) :
  (forall s, Session.links (f s) = Session.links s /\
             Session.results (f s) = Session.results s /\
             Session.completedCount (f s) = Session.completedCount s) ->
  Tracking r links all ws0 st ->
  exists s,
    heap st !! r = Some s /\
    writeObj r f st = (Returns tt, withHeap (<[r := f s]> (heap st)) st) /\
    Tracking r links all ws0 (withHeap (<[r := f s]> (heap st)) st).
Proof.
  intros Hf (Hc & (s & Hs & Hl & Hr & Hn) & Hsub & HL).
  exists s. split; [exact Hs|]. split; [apply writeObj_eq; exact Hs|].
  destruct (Hf s) as (F1 & F2 & F3).
  split; [exact Hc|]. split.
  - exists (f s). cbn. rewrite list_lookup_insert_eq by (eapply lookup_lt_Some; eauto).
    repeat split; congruence.
  - split; [exact Hsub|]. exact HL.
Qed.

(** The checkpoint written by [processLinks] after a batch. *)
Lemma checkpoint_tracked r links pre old new ws0 st :
  Tracking r links (pre ++ old) ws0 st ->
  map descriptor (pre ++ new) `sublist_of` links ->
  (length old <= length new)%nat ->
  exists out st',
    andThen
      (writeObj r (fun s =>
         Session.withResults (slice (Session.results s) 0 (length pre) ++ new) s))
      (fun _ =>
         andThen (writeObj r (Session.withCompletedCount (length pre + length new)))
           (fun _ => saveSession o r)) st = (out, st') /\
    Tracking r links (pre ++ new) ws0 st' /\
    probed st' = probed st /\
    (out = Returns tt \/ exists t n, out = Throws t /\ saveFails o n = true).
Proof.
  intros (Hc & (s & Hs & Hl & Hr & Hn) & Hsub & HL) Hnew Hlen.
  pose proof (lookup_lt_Some _ _ _ Hs) as Hlt.
  unfold andThen at 1. rewrite (writeObj_eq _ _ s) by exact Hs.
  unfold andThen at 1. erewrite writeObj_eq
    by (cbn; rewrite list_lookup_insert_eq by exact Hlt; reflexivity).
  match goal with |- context [saveSession o r ?x] => set (st1 := x) end.
  assert (HT1 : Tracking r links (pre ++ new) ws0 st1).
  { subst st1. split; [exact Hc|]. split.
    - eexists. cbn. rewrite list_lookup_insert_eq
        by (rewrite length_insert; exact Hlt).
      split; [reflexivity|]. cbn. rewrite Hr. unfold slice.
      rewrite Nat.sub_0_r, drop_0, take_app_length, !length_app.
      repeat split; assumption || reflexivity.
    - split; [exact Hnew|].
      eapply Logged_weaken; [|exact HL]. rewrite !length_app. lia. }
  destruct (saveSession_tracked r links (pre ++ new) ws0 st1 HT1)
    as (out & st' & E & HT' & Hp & [[-> _] | (t & n & -> & Hf)]).
  - exists (Returns tt), st'. split; [exact E|]. split; [exact HT'|].
    split; [exact Hp | left; reflexivity].
  - exists (Throws t), st'. split; [exact E|]. split; [exact HT'|].
    split; [exact Hp | right; eauto].
Qed.

Lemma forBatches_spec r links pre ws0 totalLinks doneP batches :
  (0 < concurrency config)%nat ->
  map descriptor pre `sublist_of` doneP ->
  forall res doneR st,
    Tracking r links (pre ++ res) ws0 st ->
    map descriptor res `sublist_of` doneR ->
    doneP ++ doneR ++ concat batches = links ->
    exists out st' res',
      forBatches o config batches (length pre) totalLinks res st = (out, st') /\
      Tracking r links (pre ++ res') ws0 st' /\
      map descriptor res' `sublist_of` doneR ++ concat batches /\
      (exists ps, probed st' = probed st ++ ps /\ Forall (fun l => l ∈ concat batches) ps) /\
      (out = Returns res' \/ exists t n, out = Throws t /\ saveFails o n = true).
Proof.
  intros Hn Hpre. induction batches as [|batch rest IH]; intros res doneR st HT Hsub Hcat.
  - cbn. exists (Returns res), st, res. split; [reflexivity|]. split; [exact HT|].
    split; [rewrite app_nil_r; exact Hsub|].
    split; [exists []; rewrite app_nil_r; split; [reflexivity | constructor] | left; reflexivity].
  - cbn [forBatches]. unfold andThen at 1. cbn [get].
    destruct (aborted st) eqn:Ha.
    { exists (Returns res), st, res. split; [reflexivity|]. split; [exact HT|].
      split; [apply sublist_inserts_r; exact Hsub|].
      split; [exists []; rewrite app_nil_r; split; [reflexivity | constructor]
             | left; reflexivity]. }
    destruct (processBatch_sound batch (length pre + length res) totalLinks st Hn)
      as (brs & st1 & Epb & Hq1 & Hbs).
    unfold andThen at 1. rewrite Epb.
    unfold andThen at 1. cbn [get].
    pose proof (Tracking_quiet _ _ _ _ _ _ _ Hq1 HT) as HT1.
    pose proof HT1 as (Hc1 & _). rewrite Hc1.
    pose proof Hq1 as (_ & _ & _ & _ & _ & _ & _ & _ & ps1 & Hp1 & Hps1).
    assert (Hnew : map descriptor (res ++ brs) `sublist_of` doneR ++ batch).
    { rewrite map_app. apply sublist_app; assumption. }
    destruct (checkpoint_tracked r links pre res (res ++ brs) ws0 st1 HT1)
      as (out & st2 & Ecp & HT2 & Hp2 & Hout).
    { rewrite <- Hcat. cbn [concat]. rewrite map_app.
      apply sublist_app; [exact Hpre|].
      rewrite (app_assoc doneR). apply sublist_inserts_r. exact Hnew. }
    { rewrite length_app. lia. }
    unfold andThen at 1.
    rewrite Ecp.
    assert (Hps1' : Forall (fun l => l ∈ concat (batch :: rest)) ps1).
    { eapply Forall_impl; [exact Hps1|]. cbn. intros l Hl. apply elem_of_app. left. exact Hl. }
    destruct Hout as [-> | (t & n & -> & Hf)].
    + destruct (IH (res ++ brs) (doneR ++ batch) st2 HT2 Hnew)
        as (out3 & st3 & res3 & E3 & HT3 & Hsub3 & (ps3 & Hp3 & Hps3) & Hout3).
      { rewrite <- Hcat. cbn [concat]. rewrite <- (app_assoc doneR). reflexivity. }
      exists out3, st3, res3. split; [exact E3|]. split; [exact HT3|].
      split; [cbn [concat]; rewrite (app_assoc doneR); exact Hsub3|].
      split; [|exact Hout3].
      exists (ps1 ++ ps3). rewrite Hp3, Hp2, Hp1, app_assoc. split; [reflexivity|].
      apply Forall_app; split; [exact Hps1'|].
      eapply Forall_impl; [exact Hps3|]. cbn. intros l Hl. apply elem_of_app. right. exact Hl.
    + exists (Throws t), st2, (res ++ brs). split; [reflexivity|]. split; [exact HT2|].
      split; [cbn [concat]; rewrite (app_assoc doneR); apply sublist_inserts_r; exact Hnew|].
      split; [|right; eauto].
      exists ps1. rewrite Hp2, Hp1. split; [reflexivity | exact Hps1'].
Qed.

Lemma processLinks_spec r links pre ws0 doneP remaining st :
  (0 < concurrency config)%nat ->
  (0 < batchSize config)%nat ->
  Tracking r links pre ws0 st ->
  map descriptor pre `sublist_of` doneP ->
  doneP ++ remaining = links ->
  exists out st' res',
    processLinks o config remaining st = (out, st') /\
    Tracking r links (pre ++ res') ws0 st' /\
    map descriptor res' `sublist_of` remaining /\
    (exists ps, probed st' = probed st ++ ps /\ Forall (fun l => l ∈ remaining) ps) /\
    (out = Returns res' \/ exists t n, out = Throws t /\ saveFails o n = true).
Proof.
  intros Hn Hb HT Hsub Hcat.
  pose proof HT as (Hc & (s & Hs & Hl & Hr & Hcount) & _).
  unfold processLinks. unfold andThen at 1. cbn [get]. rewrite Hc.
  unfold andThen at 1. unfold andThen at 1. rewrite (readObj_eq r s st Hs). cbn [pure].
  destruct (chunkLoop_spec remaining (batchSize config) (length remaining) 0 [] Hb)
    as (bs & Ech & Hbs); [lia|].
  rewrite Ech. cbn [app]. rewrite Hcount. rewrite drop_0 in Hbs. rewrite <- Hbs.
  apply (forBatches_spec r links pre ws0 (length (Session.links s)) doneP bs Hn Hsub [] [] st).
  - rewrite app_nil_r. exact HT.
  - constructor.
  - cbn [app]. rewrite Hbs. exact Hcat.
Qed.

(** The [catch] clause keeps the log sound and rethrows. *)
Lemma onError_tracked {T} r links all ws0 (e : Thrown) st :
  Tracking r links all ws0 st ->
  exists t st',
    @onError o T e st = (Throws t, st') /\ Tracking r links all ws0 st' /\
    probed st' = probed st.
Proof.
  intros HT. pose proof HT as (Hc & _).
  unfold onError. unfold andThen at 1. cbn [get].
  destruct (aborted st).
  - rewrite Hc.
    destruct (writeObj_tracked r links all ws0 st (Session.withStatus cancelled))
      as (s & Hs & Ew & HT1); [intros; repeat split | exact HT |].
    unfold andThen at 1. unfold andThen at 1. rewrite Ew.
    destruct (saveSession_tracked r links all ws0 _ HT1)
      as (out & st' & Es & HT' & Hp & [[-> _] | (t & n & -> & _)]); rewrite Es.
    + exists e, st'. split; [reflexivity|]. split; [exact HT' | exact Hp].
    + exists t, st'. split; [reflexivity|]. split; [exact HT' | exact Hp].
  - exists e, st. split; [reflexivity|]. split; [exact HT | reflexivity].
Qed.

(** The records of a run of [start] are sound. *)
Lemma start_sound pageUrl links st :
  isRunning st = false ->
  (0 < concurrency config)%nat ->
  (0 < batchSize config)%nat ->
  exists out st' ws ps,
    start o config pageUrl links st = (out, st') /\
    persisted st' = persisted st ++ ws /\
    probed st' = probed st ++ ps /\
    Forall (fun l => l ∈ links) ps /\
    Forall (Good links) ws /\
    nondecreasing (map Session.completedCount ws) /\
    ((exists rs s,
        out = Returns rs /\ last ws = Some s /\ Session.status s = completed /\
        Session.results s = rs /\ Session.completedAt s <> None /\
        isRunning st' = false) \/
     (exists t n, out = Throws t /\ saveFails o n = true)).
Proof.
  intros Hrun Hn Hb.
  unfold start. unfold andThen at 1. cbn [get]. rewrite Hrun.
  unfold andThen at 1. unfold alloc at 1.
  set (s0 := createSession _ _ pageUrl links).
  set (r := length (heap st)).
  do 3 (unfold andThen at 1; unfold modify at 1).
  match goal with |- context [andThen (saveSession o r) _ ?x] => set (st2 := x) end.
  assert (HT2 : Tracking r links [] (persisted st) st2).
  { subst st2 r. split; [reflexivity|]. split.
    - exists s0. cbn. rewrite lookup_app_r by lia. rewrite Nat.sub_diag.
      repeat split.
    - split; [apply sublist_nil_l|]. exists []. cbn. rewrite app_nil_r.
      repeat split; try constructor. intros i j x y _ Hi. now rewrite lookup_nil in Hi. }
  assert (Hfin : forall out st' all ps,
            Tracking r links all (persisted st) st' ->
            probed st' = probed st ++ ps ->
            Forall (fun l => l ∈ links) ps ->
            ((exists s pw, out = Returns all /\
                        persisted st' = persisted st ++ pw ++ [s] /\
                        Session.status s = completed /\ Session.results s = all /\
                        Session.completedAt s <> None /\ isRunning st' = false) \/
             (exists t n, out = Throws t /\ saveFails o n = true)) ->
            exists ws ps,
              persisted st' = persisted st ++ ws /\
              probed st' = probed st ++ ps /\
              Forall (fun l => l ∈ links) ps /\
              Forall (Good links) ws /\
              nondecreasing (map Session.completedCount ws) /\
              ((exists rs s,
                  out = Returns rs /\ last ws = Some s /\
                  Session.status s = completed /\
                  Session.results s = rs /\ Session.completedAt s <> None /\
                  isRunning st' = false) \/
               (exists t n, out = Throws t /\ saveFails o n = true))).
  { intros out st' all ps (_ & _ & _ & (ws & E & Hg & Hm & _)) Hp Hps Hout.
    exists ws, ps. repeat split; try assumption.
    destruct Hout as [(s & pw & -> & Hpw & H1 & H2 & H3 & H4) | Hthrow]; [left | right; exact Hthrow].
    exists all, s. repeat split; try assumption.
    rewrite E in Hpw. apply app_inv_head in Hpw. rewrite Hpw. apply last_snoc. }
  destruct (saveSession_tracked r links [] (persisted st) st2 HT2)
    as (out1 & st3 & Es & HT3 & Hp3 & Hout1).
  unfold andThen at 1. rewrite Es.
  destruct Hout1 as [[-> _] | (t & n & -> & Hf)].
  2:{ destruct (Hfin (Throws t) st3 [] [] HT3) as (ws & ps & H).
      - rewrite Hp3, app_nil_r. reflexivity.
      - constructor.
      - right; eauto.
      - exists (Throws t), st3, ws, ps. split; [reflexivity | exact H]. }
  unfold finally, catch. unfold andThen at 1.
  destruct (processLinks_spec r links [] (persisted st) [] links st3 Hn Hb HT3)
    as (out4 & st4 & res & Epl & HT4 & _ & (ps & Hp4 & Hps) & Hout4);
    [constructor | reflexivity |].
  rewrite Epl. cbn [app] in HT4.
  assert (Hp4' : probed st4 = probed st ++ ps) by (rewrite Hp4, Hp3; reflexivity).
  destruct Hout4 as [-> | (t & n & -> & Hf)].
  - unfold andThen at 1. cbn [get]. pose proof HT4 as (Hc4 & _). rewrite Hc4.
    destruct (writeObj_tracked r links res (persisted st) st4 (Session.withStatus completed))
      as (s4 & Hs4 & Ew4 & HT5); [intros; repeat split | exact HT4 |].
    unfold andThen at 1. unfold andThen at 1. rewrite Ew4.
    destruct (writeObj_tracked r links res (persisted st) _
                (Session.withCompletedAt (Some (date o (clock st4)))) ltac:(intros; repeat split) HT5)
      as (s5 & Hs5 & Ew5 & HT6).
    unfold andThen at 1. rewrite Ew5.
    destruct (saveSession_tracked r links res (persisted st) _ HT6)
      as (out7 & st7 & Es7 & HT7 & Hp7 & Hout7).
    rewrite Es7.
    destruct Hout7 as [[-> (s7 & Hlast & Hs7)] | (t & n & -> & Hf)].
    + cbn [pure].
      destruct (Hfin (Returns res) (cleanup st7) res ps) as (ws & ps' & H).
      { destruct HT7 as (? & ? & ? & ?). repeat split; assumption. }
      { cbn. rewrite Hp7. exact Hp4'. }
      { exact Hps. }
      { left. pose proof HT4 as (_ & (s4' & Hs4' & _ & Hr4 & _) & _ & (ws4 & E4 & _)).
        exists s7, ws4. cbn.
        cbn in Hs5, Hs7, Hlast.
        rewrite list_lookup_insert_eq in Hs5 by (eapply lookup_lt_Some; eauto).
        rewrite list_lookup_insert_eq in Hs7
          by (rewrite length_insert; eapply lookup_lt_Some; eauto).
        injection Hs5 as <-. injection Hs7 as <-.
        assert (s4' = s4) as -> by congruence.
        rewrite Hlast, E4, <- app_assoc.
        repeat split; try assumption; try discriminate. }
      exists (Returns res), (cleanup st7), ws, ps'. split; [reflexivity | exact H].
    + destruct (onError_tracked (T := list ValidationResult.t) r links res (persisted st) t st7 HT7)
        as (t' & st8 & Eo & HT8 & Hp8).
      rewrite Eo.
      destruct (Hfin (Throws t') (cleanup st8) res ps) as (ws & ps' & H).
      { destruct HT8 as (? & ? & ? & ?). repeat split; assumption. }
      { cbn. rewrite Hp8, Hp7. exact Hp4'. }
      { exact Hps. }
      { right; eauto. }
      exists (Throws t'), (cleanup st8), ws, ps'. split; [reflexivity | exact H].
  - destruct (onError_tracked (T := list ValidationResult.t) r links res (persisted st) t st4 HT4)
      as (t' & st8 & Eo & HT8 & Hp8).
    rewrite Eo.
    destruct (Hfin (Throws t') (cleanup st8) res ps) as (ws & ps' & H).
    { destruct HT8 as (? & ? & ? & ?). repeat split; assumption. }
    { cbn. rewrite Hp8. exact Hp4'. }
    { exact Hps. }
    { right; eauto. }
    exists (Throws t'), (cleanup st8), ws, ps'. split; [reflexivity | exact H].
Qed.


Lemma tick_eq st : tick o st = (Returns tt, snd (tick o st)).
Proof. reflexivity. Qed.

Lemma tick_frame st :
  heap (snd (tick o st)) = heap st /\ persisted (snd (tick o st)) = persisted st /\
  probed (snd (tick o st)) = probed st /\ storage (snd (tick o st)) = storage st /\
  currentSession (snd (tick o st)) = currentSession st /\
  isRunning (snd (tick o st)) = isRunning st.
Proof.
  unfold tick. cbn. destruct (cancelAt o (clock st)); [|repeat split].
  unfold cancel. destruct (abortController st); repeat split.
Qed.

Lemma tick_heap st : heap (snd (tick o st)) = heap st.
Proof. apply tick_frame. Qed.
Lemma tick_persisted st : persisted (snd (tick o st)) = persisted st.
Proof. apply tick_frame. Qed.
Lemma tick_probed st : probed (snd (tick o st)) = probed st.
Proof. apply tick_frame. Qed.
Lemma tick_currentSession st : currentSession (snd (tick o st)) = currentSession st.
Proof. apply tick_frame. Qed.

Lemma cleanup_probed st : probed (cleanup st) = probed st.
Proof. reflexivity. Qed.
Lemma cleanup_persisted st : persisted (cleanup st) = persisted st.
Proof. reflexivity. Qed.

(** The [catch] clause rethrows, whatever the state of the object. *)
Lemma onError_throws {T} r s (e : Thrown) st :
  currentSession st = Some r ->
  heap st !! r = Some s ->
  exists t st',
    @onError o T e st = (Throws t, st') /\ probed st' = probed st.
Proof.
  intros Hc Hs. unfold onError. unfold andThen at 1. cbn [get].
  destruct (aborted st); [|exists e, st; split; reflexivity].
  rewrite Hc. unfold andThen at 1. unfold andThen at 1.
  rewrite (writeObj_eq _ _ s) by exact Hs.
  erewrite saveSession_eq
    by (cbn; rewrite list_lookup_insert_eq by (eapply lookup_lt_Some; eauto); reflexivity).
  cbn [clock withHeap].
  destruct (saveFails o (clock st)); eexists _, _; (split; [reflexivity|]);
    cbn [snd]; rewrite tick_probed; reflexivity.
Qed.

Theorem resume_spec s st :
  isRunning st = false ->
  storage st = Some s ->
  Session.status s = checking ->
  Session.completedCount s = length (Session.results s) ->
  map descriptor (Session.results s)
    `sublist_of` take (Session.completedCount s) (Session.links s) ->
  (0 < concurrency config)%nat ->
  (0 < batchSize config)%nat ->
  exists out st' new ps,
    resume o config st = (out, st') /\
    probed st' = probed st ++ ps /\
    Forall (fun l => l ∈ drop (Session.completedCount s) (Session.links s)) ps /\
    map descriptor new `sublist_of` drop (Session.completedCount s) (Session.links s) /\
    ((out = Returns (Some (Session.results s ++ new ++ new)) /\
      exists w,
        last (persisted st') = Some w /\
        Session.status w = completed /\
        Session.results w = Session.results s ++ new ++ new /\
        Session.completedCount w = (length (Session.results s) + length new)%nat) \/
     (exists t n, out = Throws t /\ saveFails o n = true)).
Proof.
  intros Hrun Hst Hchk Hcount Hord Hn Hb.
  unfold resume. unfold andThen at 1. cbn [get]. rewrite Hrun.
  unfold andThen at 1. unfold loadSession. unfold andThen at 1. cbn [get].
  unfold andThen at 1. rewrite tick_eq. rewrite Hst.
  unfold andThen at 1. unfold alloc.
  destruct (tick_frame st) as (Hh1 & Hp1 & Hpr1 & Hs1 & Hc1 & Hr1).
  set (st1 := snd (tick o st)) in *.
  set (r := length (heap st1)).
  cbn [pure].
  set (sta := withHeap (heap st1 ++ [s]) st1).
  assert (Hsa : heap sta !! r = Some s).
  { subst sta r. cbn. rewrite lookup_app_r by lia. now rewrite Nat.sub_diag. }
  unfold andThen at 1. rewrite (readObj_eq r s sta Hsa). rewrite Hchk.
  do 3 (unfold andThen at 1; unfold modify at 1).
  match goal with |- context [finally _ cleanup ?x] => set (st2 := x) end.
  set (k := Session.completedCount s) in *.
  assert (HT2 : Tracking r (Session.links s) (Session.results s) (persisted st) st2).
  { subst st2. split; [reflexivity|]. split; [exists s; cbn; auto|]. split.
    - etransitivity; [exact Hord | apply sublist_take].
    - exists []. cbn. rewrite app_nil_r. split; [exact Hp1|].
      repeat split; try constructor. intros i j x y _ Hi. now rewrite lookup_nil in Hi. }
  assert (Hs2 : heap st2 !! r = Some s) by exact Hsa.
  unfold finally, catch. unfold andThen at 1. rewrite (readObj_eq r s st2 Hs2).
  unfold andThen at 1. unfold sliceFrom. fold k.
  destruct (processLinks_spec r (Session.links s) (Session.results s) (persisted st)
              (take k (Session.links s)) (drop k (Session.links s)) st2 Hn Hb HT2 Hord
              (take_drop _ _))
    as (out4 & st4 & new & Epl & HT4 & Hsub4 & (ps & Hp4 & Hps) & Hout4).
  rewrite Epl.
  assert (Hp4' : probed st4 = probed st ++ ps).
  { rewrite Hp4. change (probed st2) with (probed st1). rewrite Hpr1. reflexivity. }
  pose proof HT4 as (Hc4 & (s4 & Hs4 & Hl4 & Hr4 & Hn4) & _ & (ws4 & E4 & _)).
  pose proof (lookup_lt_Some _ _ _ Hs4) as Hlt4.
  destruct Hout4 as [-> | (t & n & -> & Hf)].
  - unfold andThen at 1. rewrite (readObj_eq r s4 st4 Hs4).
    unfold andThen at 1. cbn [get]. rewrite Hc4.
    unfold andThen at 1. unfold andThen at 1. rewrite (writeObj_eq _ _ s4) by exact Hs4.
    unfold andThen at 1. erewrite writeObj_eq
      by (cbn; rewrite list_lookup_insert_eq by exact Hlt4; reflexivity).
    unfold andThen at 1. erewrite writeObj_eq
      by (cbn; rewrite list_lookup_insert_eq by (rewrite length_insert; exact Hlt4);
          reflexivity).
    erewrite saveSession_eq
      by (cbn; rewrite list_lookup_insert_eq by (rewrite !length_insert; exact Hlt4);
          reflexivity).
    cbn [clock withHeap].
    destruct (saveFails o (clock st4)) eqn:Ef.
    + match goal with |- context [onError o ?e ?x] =>
        destruct (onError_throws (T := option (list ValidationResult.t)) r
                    (Session.withCompletedAt (Some (date o (clock st4)))
                       (Session.withResults (Session.results s4 ++ new)
                          (Session.withStatus completed s4))) e x)
          as (t' & st8 & Eo & Hp8)
      end.
      { rewrite tick_currentSession. exact Hc4. }
      { rewrite tick_heap. cbn.
        rewrite list_lookup_insert_eq by (rewrite !length_insert; exact Hlt4).
        reflexivity. }
      rewrite Eo. exists (Throws t'), (cleanup st8), new, ps.
      split; [reflexivity|]. split.
      { rewrite cleanup_probed, Hp8, tick_probed. exact Hp4'. }
      split; [exact Hps|]. split; [exact Hsub4|]. right. eauto.
    + cbn [pure]. rewrite Hr4.
      eexists (Returns _), (cleanup _), new, ps.
      split; [reflexivity|]. split.
      { rewrite cleanup_probed, tick_probed. exact Hp4'. }
      split; [exact Hps|]. split; [exact Hsub4|]. left.
      split; [rewrite <- app_assoc; reflexivity|].
      eexists. rewrite cleanup_persisted, tick_persisted. cbn [persisted withStored].
      split; [apply last_snoc|]. cbn.
      split; [reflexivity|]. split; [rewrite <- app_assoc; reflexivity|].
      rewrite Hn4, length_app. reflexivity.
  - destruct (onError_throws (T := option (list ValidationResult.t)) r s4 t st4 Hc4 Hs4)
      as (t' & st8 & Eo & Hp8).
    rewrite Eo. exists (Throws t'), (cleanup st8), new, ps.
    split; [reflexivity|]. split; [cbn; rewrite Hp8; exact Hp4'|].
    split; [exact Hps|]. split; [exact Hsub4|]. right. eauto.
Qed.

Lemma tick_clock st : clock (snd (tick o st)) = S (clock st).
Proof.
  unfold tick. cbn. destruct (cancelAt o (clock st)); [|reflexivity].
  unfold cancel. destruct (abortController st); reflexivity.
Qed.

(** C10.  Starting an idle processor on an empty list, in a world where
    the two storage writes succeed, returns the empty list without
    probing anything; it persists the new session and then the same
    session with status [completed], no results, a count of 0 and a
    completion timestamp, and leaves the processor idle. *)
Theorem start_empty_list pageUrl st :
  isRunning st = false ->
  saveFails o (clock st) = false ->
  saveFails o (S (clock st)) = false ->
  exists st' s,
    start o config pageUrl [] st = (Returns [], st') /\
    probed st' = probed st /\
    persisted st'
      = persisted st
        ++ [createSession (sessionId o (clock st)) (date o (clock st)) pageUrl []; s] /\
    storage st' = Some s /\
    Session.status s = completed /\
    Session.results s = [] /\
    Session.completedCount s = 0%nat /\
    Session.completedAt s = Some (date o (S (clock st))) /\
    isRunning st' = false.
Proof.
  intros Hrun Hf0 Hf1.
  unfold start. unfold andThen at 1. cbn [get]. rewrite Hrun.
  unfold andThen at 1. unfold alloc at 1.
  set (s0 := createSession _ _ pageUrl []).
  set (r := length (heap st)).
  do 3 (unfold andThen at 1; unfold modify at 1).
  match goal with |- context [andThen (saveSession o r) _ ?x] => set (st2 := x) end.
  assert (Hs2 : heap st2 !! r = Some s0).
  { subst st2 r. cbn. rewrite lookup_app_r by lia. now rewrite Nat.sub_diag. }
  assert (Hlt : (r < length (heap st2))%nat) by (eapply lookup_lt_Some; eauto).
  unfold andThen at 1. rewrite (saveSession_eq r s0 st2 Hs2).
  change (clock st2) with (clock st). rewrite Hf0.
  remember (snd (tick o (withStored s0 st2))) as st3 eqn:E3.
  assert (Hc3 : currentSession st3 = Some r) by (rewrite E3, tick_currentSession; reflexivity).
  assert (Hh3 : heap st3 = heap st2) by (rewrite E3, tick_heap; reflexivity).
  assert (Hk3 : clock st3 = S (clock st)) by (rewrite E3, tick_clock; reflexivity).
  assert (Hp3 : persisted st3 = persisted st ++ [s0])
    by (rewrite E3, tick_persisted; reflexivity).
  assert (Hb3 : probed st3 = probed st) by (rewrite E3, tick_probed; reflexivity).
  clear E3.
  unfold finally, catch. unfold andThen at 1.
  unfold processLinks. unfold andThen at 1. cbn [get]. rewrite Hc3.
  unfold andThen at 1. unfold andThen at 1.
  rewrite (readObj_eq r s0 st3) by (rewrite Hh3; exact Hs2).
  cbn [pure chunkLoop length Nat.ltb Nat.leb forBatches].
  unfold andThen at 1. cbn [get]. rewrite Hc3.
  unfold andThen at 1. unfold andThen at 1.
  rewrite (writeObj_eq _ _ s0) by (rewrite Hh3; exact Hs2).
  unfold andThen at 1. erewrite writeObj_eq
    by (cbn [heap withHeap]; rewrite Hh3, list_lookup_insert_eq by exact Hlt; reflexivity).
  erewrite saveSession_eq
    by (cbn [heap withHeap];
        rewrite Hh3, list_lookup_insert_eq by (rewrite length_insert; exact Hlt);
        reflexivity).
  cbn [clock withHeap]. rewrite Hk3, Hf1. cbn [pure].
  match goal with |- context [cleanup (snd (tick o ?x))] => set (st6 := x) end.
  exists (cleanup (snd (tick o st6))),
    (Session.withCompletedAt (Some (date o (S (clock st)))) (Session.withStatus completed s0)).
  split; [reflexivity|].
  rewrite cleanup_probed, cleanup_persisted, tick_probed, tick_persisted.
  split; [exact Hb3|].
  split; [subst st6; cbn [persisted withStored withHeap]; rewrite Hp3, <- app_assoc; reflexivity|].
  split.
  { change (storage (cleanup (snd (tick o st6)))) with (storage (snd (tick o st6))).
    destruct (tick_frame st6) as (_ & _ & _ & -> & _). reflexivity. }
  repeat split.
Qed.

(** Where storage never fails, a run of [start] always returns, and the
    last record it persists has status [completed]: whether or not
    [cancel()] was invoked during the run, no record with status
    [cancelled] ends it. *)
Corollary start_never_ends_cancelled pageUrl links st :
  (forall n, saveFails o n = false) ->
  isRunning st = false ->
  (0 < concurrency config)%nat ->
  (0 < batchSize config)%nat ->
  exists rs st' s,
    start o config pageUrl links st = (Returns rs, st') /\
    last (persisted st') = Some s /\
    Session.status s = completed /\
    Session.results s = rs.
Proof.
  intros Hsave Hrun Hn Hb.
  destruct (start_sound pageUrl links st Hrun Hn Hb)
    as (out & st' & ws & ps & E & Hp & _ & _ & _ & _ & [H | (t & n & _ & Hf)]).
  - destruct H as (rs & s & -> & Hlast & Hst & Hrs & _).
    exists rs, st', s. split; [exact E|]. split; [|split; assumption].
    rewrite Hp. destruct ws as [|w ws] using rev_ind; [discriminate|].
    rewrite last_snoc in Hlast. rewrite app_assoc, last_snoc. exact Hlast.
  - rewrite Hsave in Hf. discriminate.
Qed.

End OrchestratorFacts.

(** ** Batch orchestrator: the runs of the scenarios *)

Section ScenarioFacts.
Import LinkValidator Limiter Orchestrator Scenarios.
Local Open Scope nat_scope.
Local Open Scope list_scope.

(** C1 at the scenario of the specification.  25 links, batches of 20,
    [cancel()] invoked once the first batch is complete: the run returns
    the 20 outcomes of the first batch and probes no link of the second,
    but [processLinks] leaves its loop without throwing, so [start] takes
    its normal path and the last record it persists has status
    [completed], not [cancelled]. *)
Theorem start_cancelled_run_is_persisted_completed :
  (exists rs, fst cancelledRun = Returns rs /\ length rs = 20%nat) /\
  probed (snd cancelledRun) = page 20 /\
  map (fun s => (Session.status s, Session.completedCount s, length (Session.results s)))
      (persisted (snd cancelledRun))
    = [ (checking, 0%nat, 0%nat); (checking, 20%nat, 20%nat); (completed, 20%nat, 20%nat) ] /\
  (exists s, lastPersisted (snd cancelledRun) = Some s /\
             Session.status s = completed /\ Session.status s <> cancelled /\
             length (Session.results s) = 20%nat).
Proof.
  split; [eexists; split; [vm_compute; reflexivity | reflexivity]|].
  split; [vm_compute; reflexivity|].
  split; [vm_compute; reflexivity|].
  eexists. split; [vm_compute; reflexivity|].
  repeat split. discriminate.
Qed.

(** C4 at the resumed run.  [resume] probes only the five links after the
    twenty whose outcomes are persisted, and the checkpoint written by
    [processLinks] holds the 25 outcomes once each; but [session] and
    [this.currentSession] are one object, so [session.results] already
    holds the new outcomes when [allResults] is built, and what [resume]
    returns and persists last holds them twice: 30 results for 25 links. *)
Theorem resume_duplicates_new_outcomes :
  probed (snd resumedRun) = map link (seq 20 5) /\
  fst resumedRun = Returns (Some (oks 0 20 1 ++ oks 20 5 1 ++ oks 20 5 1)) /\
  fst resumedRun <> Returns (Some (oks 0 20 1 ++ oks 20 5 1)) /\
  map (fun s => (Session.status s, Session.results s)) (persisted (snd resumedRun))
    = [ (checking, oks 0 20 1 ++ oks 20 5 1);
        (completed, oks 0 20 1 ++ oks 20 5 1 ++ oks 20 5 1) ].
Proof.
  assert (E : fst resumedRun = Returns (Some (oks 0 20 1 ++ oks 20 5 1 ++ oks 20 5 1)))
    by (vm_compute; reflexivity).
  split; [vm_compute; reflexivity|]. split; [exact E|].
  split; [rewrite E; intros H; apply (f_equal (fun o =>
            match o with Returns (Some l) => length l | _ => 0 end)) in H;
          vm_compute in H; discriminate|].
  vm_compute; reflexivity.
Qed.

(** C3 at the resumed run.  The checkpoint written by [processLinks] has
    a count equal to the number of its results, but the last record
    written by [resume] has a count of 25 for 30 results: [resume]
    replaces [results] by a list that holds the new outcomes twice and
    leaves [completedCount] as [processLinks] set it. *)
Theorem resume_final_record_breaks_count :
  map (fun s => (Session.completedCount s, length (Session.results s)))
      (persisted (snd resumedRun))
    = [ (25, 25); (25, 30) ] /\
  exists s,
    lastPersisted (snd resumedRun) = Some s /\
    Session.completedCount s <> length (Session.results s).
Proof.
  split; [vm_compute; reflexivity|].
  eexists. split; [vm_compute; reflexivity|].
  cbn. discriminate.
Qed.

(** C8 at the resumed run.  In the last record written by [resume] the
    outcomes of links 20 to 24 are followed by the outcomes of links 20 to
    24 again: the outcome of link 24 stands before an outcome of link 20,
    and the results are not in the order of the links. *)
Theorem resume_final_record_breaks_order :
  exists s,
    lastPersisted (snd resumedRun) = Some s /\
    Session.links s = page 25 /\
    map descriptor (Session.results s) = page 25 ++ map link (seq 20 5) /\
    ~ map descriptor (Session.results s) `sublist_of` Session.links s.
Proof.
  eexists. split; [vm_compute; reflexivity|].
  split; [reflexivity|]. split; [vm_compute; reflexivity|].
  intros H. apply sublist_length in H. vm_compute in H. lia.
Qed.

(** C10 in a world where storage never fails, for a fresh processor. *)
Lemma start_empty_list_witness :
  exists st' s,
    start (world (fun _ => 0%nat) []) defaultConfig "https://example.test/" []
      (initialState None) = (Returns [], st') /\
    probed st' = [] /\
    persisted st'
      = [createSession "session-1" "T0" "https://example.test/" []; s] /\
    storage st' = Some s /\
    Session.status s = completed /\
    Session.results s = [] /\
    Session.completedCount s = 0%nat /\
    Session.completedAt s = Some "T1" /\
    isRunning st' = false.
Proof.
  exact (start_empty_list (world (fun _ => 0%nat) []) defaultConfig
           "https://example.test/" (initialState None) eq_refl eq_refl eq_refl).
Defined.

(** Three links, all answered 200: three [success] outcomes in the order
    of the links although the probes settled in another order, one
    progress report per link, and a last record with status [completed]
    and a count of 3. *)
Example three_links_all_ok :
  fst threeLinksRun = Returns [ok 0 1; ok 1 1; ok 2 1] /\
  map (fun p => (ValidationProgress.total p, ValidationProgress.completed p,
                 option_map ValidationResult.elementId (ValidationProgress.current p)))
      (reported (snd threeLinksRun))
    = [ (3%nat, 1%nat, Some "lc-2"); (3%nat, 2%nat, Some "lc-0");
        (3%nat, 3%nat, Some "lc-1") ] /\
  option_map (fun s => (Session.status s, Session.completedCount s))
             (lastPersisted (snd threeLinksRun))
    = Some (completed, 3%nat).
Proof. repeat split; vm_compute; reflexivity. Qed.



(** [in_flight_bounded] once the tasks of 25 links have started: five
    probes are in flight and twenty tasks wait. *)
Lemma in_flight_bounded_witness :
  let started :=
    fold_left (spawn (page 25)) (seq 0 25)
      (emptyBatch defaultConfig (page 25), initialState None) in
  length (waiting (semaphore (fst started))) = 20 /\
  permits (semaphore (fst started)) + length (inflight (fst started)) = 5 /\
  length (inflight (fst started)) <= 5.
Proof.
  cbv zeta. split; [vm_compute; reflexivity|].
  exact (in_flight_bounded (world (fun _ => 0) []) defaultConfig (page 25) false 0 25
           (initialState None) _ _
           (reached_spawn (world (fun _ => 0) []) defaultConfig (page 25) false 0 25
              (initialState None) 25 (le_n 25))).
Defined.

End ScenarioFacts.

(** ** Single-link validator: the shape of every outcome *)

Section ValidatorShape.
Import JsString LinkValidator.

Lemma statusDescriptions_nonempty (c : Z) (d : string) :
  statusDescriptions c = Some d -> d <> EmptyString.
Proof.
  unfold statusDescriptions.
  destruct c as [|p|p]; try discriminate.
  repeat (match goal with
          | |- match ?p with _ => _ end = _ -> _ => destruct p
          end); try discriminate; intros [= <-]; discriminate.
Qed.

Lemma getStatusText_nonempty (status : option Z) (category : StatusCategory) :
  getStatusText status category <> EmptyString.
Proof.
  unfold getStatusText. destruct status as [c|].
  - destruct (statusDescriptions c) as [d|] eqn:Hd.
    + exact (statusDescriptions_nonempty c d Hd).
    + discriminate.
  - destruct category; discriminate.
Qed.

Lemma orElse_nonempty (a b : string) : b <> EmptyString -> orElse a b <> EmptyString.
Proof. unfold orElse. destruct a; cbn; [tauto|discriminate]. Qed.

#[local] Arguments shouldFallbackToGet : simpl never.
#[local] Arguments classifyStatus : simpl never.
#[local] Arguments getStatusText : simpl never.
#[local] Arguments isTimeout : simpl never.
#[local] Arguments orElse : simpl never.

Ltac vl_unfold :=
  unfold run, validateLink, bind, tryCatch, tryFinally, ret, isAborted,
    createTimeoutController, performRequest, setResponse, setLastError,
    getResponse, getLastError, clear, emit, initialFrame, firedAfter, timeoutOf in *;
  cbn [response lastError trace nextTimer awaits] in *.

(** X5.  Every outcome of [validateLink] is well formed: it copies the
    descriptor of the link and the current time, and its description is never
    empty.  An outcome with a status code comes from a response the network
    gave for the link (the external signal had not fired at the call); its
    category is that of [classifyStatus] on the code and its description is
    that of [getStatusText] on the code.  An outcome without a status is a
    [timeout] or a [network_error], and occurs only when the signal had
    fired at the call or the HEAD request was rejected. *)
Theorem validateLink_outcome_shape (w : World) (link : LinkInfo.t)
    (config : ValidatorConfig) :
  exists v fr,
    run (validateLink w link config) = (Normal v, fr) /\
    descriptor v = link /\
    ValidationResult.checkedAt v = now w /\
    ValidationResult.statusText v <> EmptyString /\
    match ValidationResult.status v with
    | Some code =>
        (exists method, fetch w (LinkInfo.url link) method = Resolved (Response.mk code)) /\
        firedAfter config 0 = false /\
        ValidationResult.statusCategory v = classifyStatus (Some code) /\
        ValidationResult.statusText v = getStatusText (Some code) (classifyStatus (Some code))
    | None =>
        (ValidationResult.statusCategory v = timeout \/
         ValidationResult.statusCategory v = network_error) /\
        (firedAfter config 0 = true \/
         exists t, fetch w (LinkInfo.url link) HEAD = Rejected t)
    end.
Proof.
  pose proof (getStatusText_nonempty) as Hne.
  destruct link as [u tg tx eid]. unfold descriptor.
  vl_unfold.
  destruct (signal config) as [s|]; [destruct (s 0%nat) eqn:H0|]; cbn.
  1: { do 2 eexists. split; [reflexivity|]. cbn. split_and!; auto; discriminate. }
  all: destruct (fetch w u HEAD) as [[c]|t] eqn:Hh; cbn.
  all: try destruct (shouldFallbackToGet (Some _)); cbn.
  all: try (destruct (fetch w u GET) as [[c']|t'] eqn:Hg; cbn).
  all: try destruct (s 2%nat); try destruct (isTimeout _).
  all: do 2 eexists; (split; [reflexivity|]); cbn; split_and!; eauto.
  all: try discriminate.
  all: try (apply orElse_nonempty; apply Hne).
Qed.

End ValidatorShape.

(** ** Sequential validator *)

Section SequentialFacts.
Import JsString LinkValidator.
Local Open Scope nat_scope.
Local Open Scope list_scope.

Variable worlds : nat -> World.
Variable config : ValidatorConfig.
Variable onProgress : option Callback.
Variable total : nat.

(** What one run of the loop adds to its locals. *)
Lemma validateLinksFrom_spec (rest : list LinkInfo.t) :
  quietCallback onProgress ->
  forall i l,
  exists l' new,
    validateLinksFrom worlds config onProgress total i rest l = (Normal tt, l') /\
    outcomes l' = outcomes l ++ new /\
    map descriptor new = take (length new) rest /\
    (forall j v, new !! j = Some v ->
       exists link n, rest !! j = Some link /\
         fst (run (validateLink (worlds (i + j)) link (since n config))) = Normal v) /\
    (exists ps, notified l' = notified l ++ ps /\
       (onProgress = None -> ps = []) /\
       (onProgress <> None ->
          map Progress.completed ps = seq (i + 1) (length new) /\
          map Progress.current ps = new /\
          Forall (fun p => Progress.total p = total) ps)) /\
    ((forall n, firedAfter config n = false) -> length new = length rest) /\
    (firedAfter config (elapsed l) = true -> new = []).
Proof.
  intros Hq. induction rest as [|link rest' IH]; intros i l.
  - exists l, []. cbn. rewrite !app_nil_r.
    split_and!; try done.
    exists []. rewrite app_nil_r. split_and!; try done.
  - cbn [validateLinksFrom].
    destruct (firedAfter config (elapsed l)) eqn:Hf.
    { exists l, []. rewrite !app_nil_r. split_and!; try done.
      - exists []. rewrite app_nil_r. split_and!; try done.
      - intros H. rewrite H in Hf. discriminate. }
    destruct (validateLink_returns (worlds i) link (since (elapsed l) config))
      as (v & fr & Hrun).
    rewrite Hrun.
    destruct onProgress as [callback|] eqn:Hcb.
    + rewrite (Hq callback _ eq_refl).
      match goal with |- context [validateLinksFrom _ _ _ _ _ _ ?x] => set (l1 := x) end.
      destruct (IH (S i) l1) as (l' & new & Hrun' & Hout & Hdesc & Hval & (ps & Hps & _ & Hps') & Hall & _).
      destruct (Hps' ltac:(done)) as (Hc & Hcur & Htot).
      exists l', (v :: new). split_and!.
      * exact Hrun'.
      * rewrite Hout. cbn. rewrite <- app_assoc. reflexivity.
      * cbn. f_equal; [|exact Hdesc].
        apply (validateLink_descriptor (worlds i) link (since (elapsed l) config)).
        rewrite Hrun. reflexivity.
      * intros [|j] v' Hj; cbn in Hj.
        -- injection Hj as <-. exists link, (elapsed l). split; [reflexivity|].
           rewrite Nat.add_0_r, Hrun. reflexivity.
        -- destruct (Hval j v' Hj) as (link' & n & Hl & Hr).
           exists link', n. split; [exact Hl|].
           rewrite Nat.add_succ_r. exact Hr.
      * eexists (_ :: ps). split; [rewrite Hps; cbn; rewrite <- app_assoc; reflexivity|].
        split; [discriminate|]. intros _. cbn. split_and!.
        -- f_equal. rewrite Hc. reflexivity.
        -- f_equal. exact Hcur.
        -- constructor; [reflexivity|exact Htot].
      * intros H. cbn. f_equal. exact (Hall H).
      * discriminate.
    + match goal with |- context [validateLinksFrom _ _ _ _ _ _ ?x] => set (l1 := x) end.
      destruct (IH (S i) l1) as (l' & new & Hrun' & Hout & Hdesc & Hval & (ps & Hps & Hps0 & _) & Hall & _).
      exists l', (v :: new). split_and!.
      * exact Hrun'.
      * rewrite Hout. cbn. rewrite <- app_assoc. reflexivity.
      * cbn. f_equal; [|exact Hdesc].
        apply (validateLink_descriptor (worlds i) link (since (elapsed l) config)).
        rewrite Hrun. reflexivity.
      * intros [|j] v' Hj; cbn in Hj.
        -- injection Hj as <-. exists link, (elapsed l). split; [reflexivity|].
           rewrite Nat.add_0_r, Hrun. reflexivity.
        -- destruct (Hval j v' Hj) as (link' & n & Hl & Hr).
           exists link', n. split; [exact Hl|].
           rewrite Nat.add_succ_r. exact Hr.
      * exists ps. rewrite Hps. split; [reflexivity|]. split; [exact Hps0|]. done.
      * intros H. cbn. f_equal. exact (Hall H).
      * discriminate.
Qed.


End SequentialFacts.

Section SequentialSpec.
Import JsString LinkValidator.
Local Open Scope nat_scope.
Local Open Scope list_scope.

(** X4.  [validateLinks], with a callback that does not throw (or without
    one), never throws.  It returns the outcomes of a prefix of the links, in
    the order of the links, each one the outcome of [validateLink] on the
    link at its index; the callback, when given, is called once per outcome,
    with [completed] running over 1, 2, ..., [total] the number of links and
    [current] that outcome.  Every link has its outcome when the signal
    never fires, and none is probed when it has fired before the call. *)
Theorem validateLinks_spec (worlds : nat -> World) (links : list LinkInfo.t)
    (config : ValidatorConfig) (onProgress : option Callback) :
  quietCallback onProgress ->
  exists l,
    validateLinks worlds links config onProgress = (Normal (outcomes l), l) /\
    map descriptor (outcomes l) = take (length (outcomes l)) links /\
    (forall j v, outcomes l !! j = Some v ->
       exists link n, links !! j = Some link /\
         fst (run (validateLink (worlds j) link (since n config))) = Normal v) /\
    (onProgress = None -> notified l = []) /\
    (onProgress <> None ->
       map Progress.completed (notified l) = seq 1 (length (outcomes l)) /\
       map Progress.current (notified l) = outcomes l /\
       Forall (fun p => Progress.total p = length links) (notified l)) /\
    ((forall n, firedAfter config n = false) -> length (outcomes l) = length links) /\
    (firedAfter config 0 = true -> outcomes l = []).
Proof.
  intros Hq. unfold validateLinks.
  destruct (validateLinksFrom_spec worlds config onProgress (length links) links Hq 0
              {| outcomes := []; notified := []; elapsed := 0 |})
    as (l & new & Hrun & Hout & Hdesc & Hval & (ps & Hps & Hnone & Hsome) & Hall & Hfired).
  cbn in Hout, Hps, Hfired. subst new.
  exists l. rewrite Hrun. rewrite Hps. split_and!; auto.
Qed.

Lemma validateLinks_spec_witness :
  let w := {| fetch := fun _ _ => Resolved (Response.mk 200);
              now := "2026-01-01T00:00:00.000Z" |} in
  let links := [ LinkInfo.mk "https://example.test/a" A None "lc-0";
                 LinkInfo.mk "https://example.test/b" IMG None "lc-1" ] in
  let config := {| timeoutMs := None; signal := None |} in
  exists l,
    validateLinks (fun _ => w) links config (Some (fun _ => None))
      = (Normal (outcomes l), l) /\
    length (outcomes l) = 2 /\
    map Progress.completed (notified l) = [1; 2].
Proof.
  cbv zeta.
  destruct (validateLinks_spec
              (fun _ => {| fetch := fun _ _ => Resolved (Response.mk 200);
                           now := "2026-01-01T00:00:00.000Z" |})
              [ LinkInfo.mk "https://example.test/a" A None "lc-0";
                LinkInfo.mk "https://example.test/b" IMG None "lc-1" ]
              {| timeoutMs := None; signal := None |}
              (Some (fun _ => None))
              (fun callback p H =>
                 match H in _ = o return
                   match o with Some c => c p = None | None => True end with
                 | eq_refl => eq_refl
                 end))
    as (l & Hrun & _ & _ & _ & Hsome & Hall & _).
  exists l. split; [exact Hrun|].
  pose proof (Hall (fun _ => eq_refl)) as Hlen. cbn in Hlen.
  split; [exact Hlen|].
  destruct (Hsome ltac:(discriminate)) as (Hc & _ & _).
  rewrite Hc, Hlen. reflexivity.
Defined.

End SequentialSpec.

(** ** CSV rows *)

Section CsvRows.
Import JsString CsvExporter.

#[local] Arguments String.append !_ _ : simpl nomatch.

Lemma escapeCSVValue_shown (v : Cell) :
  escapeCSVValue v =
    if special (shown v) then (str1 dquote ++ doubleQuotes (shown v) ++ str1 dquote)%string
    else shown v.
Proof.
  destruct v as [|s|n]; [reflexivity| |].
  all: unfold escapeCSVValue; cbn [stringOf shown].
  all: rewrite needsEscaping_special, replaceAll_doubleQuotes.
  all: match goal with |- context [special ?x] => destruct (special x) end; reflexivity.
Qed.

Lemma plain_cells_split (a b r1 r2 : string) :
  mem "," a = false -> mem "," b = false ->
  cellEnd r1 -> cellEnd r2 ->
  (a ++ r1 = b ++ r2)%string -> a = b /\ r1 = r2.
Proof.
  revert b. induction a as [|c a IH]; intros [|d b] Ha Hb H1 H2 H; cbn in *.
  - split; [reflexivity|exact H].
  - exfalso. destruct H1 as [->|[r' ->]]; [discriminate|].
    injection H as <- _. cbn in Hb. discriminate.
  - exfalso. destruct H2 as [->|[r' ->]]; [discriminate|].
    injection H as -> _. cbn in Ha. discriminate.
  - injection H as -> H.
    apply orb_false_elim in Ha as [_ Ha]. apply orb_false_elim in Hb as [_ Hb].
    destruct (IH b Ha Hb H1 H2 H) as [-> ->]. split; reflexivity.
Qed.

Lemma quoted_cells_split (a b r1 r2 : string) :
  cellEnd r1 -> cellEnd r2 ->
  (doubleQuotes a ++ String dquote r1 = doubleQuotes b ++ String dquote r2)%string ->
  a = b /\ r1 = r2.
Proof.
  intros H1 H2. revert b.
  assert (Hq : forall r, cellEnd r -> forall x, r <> String dquote x).
  { intros r [->|[r' ->]] x; discriminate. }
  induction a as [|c a IH]; intros [|d b] H; cbn [doubleQuotes] in H.
  - cbn in H. injection H as ->. split; reflexivity.
  - exfalso. destruct (Ascii.eqb d dquote) eqn:E; cbn in H.
    + injection H as H. exact (Hq r1 H1 _ H).
    + injection H as H _. apply Ascii.eqb_neq in E. congruence.
  - exfalso. destruct (Ascii.eqb c dquote) eqn:E; cbn in H.
    + injection H as H. exact (Hq r2 H2 _ (eq_sym H)).
    + injection H as H _. apply Ascii.eqb_neq in E. congruence.
  - destruct (Ascii.eqb c dquote) eqn:Ec, (Ascii.eqb d dquote) eqn:Ed; cbn in H.
    + injection H as H. apply Ascii.eqb_eq in Ec, Ed. subst.
      destruct (IH b H) as [-> ->]. split; reflexivity.
    + exfalso. injection H as H _. apply Ascii.eqb_neq in Ed. congruence.
    + exfalso. injection H as H _. apply Ascii.eqb_neq in Ec. congruence.
    + injection H as -> H. destruct (IH b H) as [-> ->]. split; reflexivity.
Qed.

Lemma special_false (s : string) :
  special s = false -> mem "," s = false /\ mem dquote s = false.
Proof.
  unfold special. intros H.
  destruct (mem "," s), (mem dquote s); try discriminate; split; reflexivity.
Qed.

Lemma append_assoc (a b c : string) : ((a ++ b) ++ c = a ++ (b ++ c))%string.
Proof. induction a as [|x a IH]; cbn; [reflexivity|]. rewrite IH. reflexivity. Qed.

Lemma append_empty_r (a : string) : (a ++ EmptyString)%string = a.
Proof. induction a as [|x a IH]; cbn; [reflexivity|]. rewrite IH. reflexivity. Qed.

(** A cell can be read back from the front of a row. *)
Lemma cells_split (v w : Cell) (r1 r2 : string) :
  cellEnd r1 -> cellEnd r2 ->
  (escapeCSVValue v ++ r1 = escapeCSVValue w ++ r2)%string ->
  shown v = shown w /\ r1 = r2.
Proof.
  intros H1 H2. rewrite !escapeCSVValue_shown.
  generalize (shown v) (shown w). intros a b.
  assert (Hmix : forall a b r1 r2, cellEnd r1 -> special a = false ->
            (a ++ r1)%string <> (str1 dquote ++ doubleQuotes b ++ str1 dquote ++ r2)%string).
  { intros a' b' r1' r2' Hr Ha H. apply special_false in Ha as [_ Ha].
    destruct a' as [|c a']; cbn in H.
    - destruct Hr as [->|[r' ->]]; discriminate.
    - injection H as -> _. cbn in Ha. rewrite Ascii.eqb_refl in Ha. discriminate. }
  destruct (special a) eqn:Ea, (special b) eqn:Eb; intros H.
  - rewrite !append_assoc in H. cbn in H. injection H as H.
    exact (quoted_cells_split a b r1 r2 H1 H2 H).
  - exfalso. rewrite !append_assoc in H. symmetry in H.
    exact (Hmix b a r2 r1 H2 Eb H).
  - exfalso. rewrite !append_assoc in H.
    exact (Hmix a b r1 r2 H1 Ea H).
  - apply special_false in Ea as [Ea _]. apply special_false in Eb as [Eb _].
    exact (plain_cells_split a b r1 r2 Ea Eb H1 H2 H).
Qed.

Lemma concat_cons (x : string) (xs : list string) :
  exists r, cellEnd r /\ String.concat SEPARATOR (x :: xs) = (x ++ r)%string /\
    (xs = [] -> r = EmptyString) /\
    (xs <> [] -> r = String ","%char (String.concat SEPARATOR xs)).
Proof.
  destruct xs as [|y ys].
  - exists EmptyString. cbn. rewrite append_empty_r.
    split_and!; [left; reflexivity|reflexivity|reflexivity|congruence].
  - exists (String ","%char (String.concat SEPARATOR (y :: ys))).
    split_and!; [right; eauto|reflexivity|congruence|reflexivity].
Qed.

Lemma createCSVRow_inj (vs ws : list Cell) :
  length vs = length ws ->
  createCSVRow vs = createCSVRow ws ->
  map shown vs = map shown ws.
Proof.
  unfold createCSVRow.
  revert ws. induction vs as [|v vs IH]; intros [|w ws] Hlen H; try discriminate.
  - reflexivity.
  - cbn [map] in *. injection Hlen as Hlen.
    destruct (concat_cons (escapeCSVValue v) (map escapeCSVValue vs))
      as (r1 & Hr1 & E1 & Hn1 & Hc1).
    destruct (concat_cons (escapeCSVValue w) (map escapeCSVValue ws))
      as (r2 & Hr2 & E2 & Hn2 & Hc2).
    rewrite E1, E2 in H.
    destruct (cells_split v w r1 r2 Hr1 Hr2 H) as [Hs Hr].
    f_equal; [exact Hs|].
    destruct vs as [|v' vs], ws as [|w' ws]; try discriminate; [reflexivity|].
    apply IH; [exact Hlen|].
    rewrite Hc1, Hc2 in Hr by discriminate. injection Hr as Hr. exact Hr.
Qed.

(** X6.  Quoting keeps the rows apart: two rows with the same number of
    cells that [createCSVRow] writes as the same line show the same text in
    every cell ([null] shows as the empty text).  So a comma, a quote or a
    line break inside a URL or a link text is never taken for a separator
    or for the end of a cell. *)
Theorem createCSVRow_unambiguous (vs ws : list Cell) :
  length vs = length ws ->
  createCSVRow vs = createCSVRow ws ->
  map shown vs = map shown ws.
Proof. exact (createCSVRow_inj vs ws). Qed.

Lemma createCSVRow_unambiguous_witness :
  map shown [CString EmptyString; CNumber 200] = map shown [CNull; CString "200"].
Proof.
  exact (createCSVRow_unambiguous
           [CString EmptyString; CNumber 200] [CNull; CString "200"]
           eq_refl eq_refl).
Defined.

End CsvRows.

(** ** Popup *)

Section PopupFacts.
Import Popup.
Local Open Scope nat_scope.
Local Open Scope list_scope.

Lemma getFilteredResults_filter (state : PopupState) :
  getFilteredResults state = List.filter (passes (filter state)) (results state).
Proof.
  unfold getFilteredResults. destruct (filter state); try reflexivity.
  cbn. induction (results state) as [|r rs IH]; [reflexivity|].
  cbn. rewrite <- IH. reflexivity.
Qed.

Lemma calculateSummary_fold (rs : list ValidationResult.t) (t a b c : nat) :
  fold_left
    (fun summary result =>
       match ValidationResult.statusCategory result with
       | success =>
           ResultSummary.mk (ResultSummary.total summary)
             (ResultSummary.success summary + 1)
             (ResultSummary.redirect summary) (ResultSummary.error summary)
       | redirect =>
           ResultSummary.mk (ResultSummary.total summary)
             (ResultSummary.success summary)
             (ResultSummary.redirect summary + 1) (ResultSummary.error summary)
       | _ =>
           ResultSummary.mk (ResultSummary.total summary)
             (ResultSummary.success summary)
             (ResultSummary.redirect summary) (ResultSummary.error summary + 1)
       end)
    rs (ResultSummary.mk t a b c)
  = ResultSummary.mk t
      (a + length (List.filter (passes ResultFilter.success) rs))
      (b + length (List.filter (passes ResultFilter.redirect) rs))
      (c + length (List.filter (passes ResultFilter.error) rs)).
Proof.
  revert a b c. induction rs as [|r rs IH]; intros a b c.
  - cbn. f_equal; lia.
  - cbn [fold_left List.filter passes].
    destruct (ValidationResult.statusCategory r); cbn [ResultSummary.total
      ResultSummary.success ResultSummary.redirect ResultSummary.error];
      rewrite IH; cbn [length]; f_equal; lia.
Qed.

Lemma calculateSummary_eq (rs : list ValidationResult.t) :
  calculateSummary rs
  = ResultSummary.mk (length rs)
      (length (List.filter (passes ResultFilter.success) rs))
      (length (List.filter (passes ResultFilter.redirect) rs))
      (length (List.filter (passes ResultFilter.error) rs)).
Proof. unfold calculateSummary. rewrite calculateSummary_fold. reflexivity. Qed.

Lemma filter_partition (rs : list ValidationResult.t) :
  length rs
  = length (List.filter (passes ResultFilter.success) rs)
    + length (List.filter (passes ResultFilter.redirect) rs)
    + length (List.filter (passes ResultFilter.error) rs).
Proof.
  induction rs as [|r rs IH]; [reflexivity|].
  cbn [List.filter passes].
  destruct (ValidationResult.statusCategory r); cbn [length]; lia.
Qed.

Lemma insertSorted_front (x : ValidationResult.t) (l : list ValidationResult.t) :
  Forall (fun y => (rank x <= rank y)%Z) l ->
  JsArray.insertSorted byStatus x l = x :: l.
Proof.
  destruct l as [|y l]; [reflexivity|].
  intros H. apply Forall_cons in H as [H _]. cbn.
  unfold byStatus. fold (rank x) (rank y).
  destruct (Z.leb_spec (rank x - rank y) 0); [reflexivity|lia].
Qed.

Lemma insertSorted_skip (x : ValidationResult.t) (l1 l2 : list ValidationResult.t) :
  Forall (fun y => (rank y < rank x)%Z) l1 ->
  JsArray.insertSorted byStatus x (l1 ++ l2) = l1 ++ JsArray.insertSorted byStatus x l2.
Proof.
  induction l1 as [|y l1 IH]; [reflexivity|].
  intros H. apply Forall_cons in H as [Hy H]. cbn.
  unfold byStatus at 1. fold (rank x) (rank y).
  destruct (Z.leb_spec (rank x - rank y) 0); [lia|].
  rewrite (IH H). reflexivity.
Qed.

Lemma filter_rank (f : ResultFilter.t) (rs : list ValidationResult.t) :
  f <> ResultFilter.all ->
  Forall (fun y => rank y = match f with
                            | ResultFilter.error => 0
                            | ResultFilter.redirect => 1
                            | _ => 2
                            end%Z)
         (List.filter (passes f) rs).
Proof.
  intros Hf. induction rs as [|r rs IH]; [constructor|].
  cbn [List.filter]. destruct (passes f r) eqn:E; [|exact IH].
  constructor; [|exact IH].
  unfold rank, categoryOrder. unfold passes in E.
  destruct f, (ValidationResult.statusCategory r); try discriminate; try reflexivity;
    congruence.
Qed.

Lemma sort_groups (rs : list ValidationResult.t) :
  JsArray.sort byStatus rs
  = List.filter (passes ResultFilter.error) rs
    ++ List.filter (passes ResultFilter.redirect) rs
    ++ List.filter (passes ResultFilter.success) rs.
Proof.
  induction rs as [|r rs IH]; [reflexivity|].
  unfold JsArray.sort in *. cbn [foldr]. rewrite IH. clear IH.
  pose proof (filter_rank ResultFilter.error rs ltac:(discriminate)) as He.
  pose proof (filter_rank ResultFilter.redirect rs ltac:(discriminate)) as Hr.
  pose proof (filter_rank ResultFilter.success rs ltac:(discriminate)) as Hs.
  cbn beta iota in He, Hr, Hs.
  set (E := List.filter (passes ResultFilter.error) rs) in *.
  set (R := List.filter (passes ResultFilter.redirect) rs) in *.
  set (S' := List.filter (passes ResultFilter.success) rs) in *.
  cbn [List.filter passes].
  destruct (ValidationResult.statusCategory r) eqn:Ec; fold E R S'.
  - (* success *)
    assert (rank r = 2%Z) as Hx by (unfold rank; rewrite Ec; reflexivity).
    rewrite insertSorted_skip by (eapply Forall_impl; [exact He|]; cbn; intros; lia).
    rewrite insertSorted_skip by (eapply Forall_impl; [exact Hr|]; cbn; intros; lia).
    rewrite insertSorted_front by (eapply Forall_impl; [exact Hs|]; cbn; intros; lia).
    reflexivity.
  - (* redirect *)
    assert (rank r = 1%Z) as Hx by (unfold rank; rewrite Ec; reflexivity).
    rewrite insertSorted_skip by (eapply Forall_impl; [exact He|]; cbn; intros; lia).
    rewrite insertSorted_front; [reflexivity|].
    apply Forall_app. split; (eapply Forall_impl; [eassumption|]; cbn; intros; lia).
  - assert (rank r = 0%Z) as Hx by (unfold rank; rewrite Ec; reflexivity).
    rewrite insertSorted_front; [reflexivity|].
    rewrite !Forall_app. split_and!; (eapply Forall_impl; [eassumption|]; cbn; intros; lia).
  - assert (rank r = 0%Z) as Hx by (unfold rank; rewrite Ec; reflexivity).
    rewrite insertSorted_front; [reflexivity|].
    rewrite !Forall_app. split_and!; (eapply Forall_impl; [eassumption|]; cbn; intros; lia).
  - assert (rank r = 0%Z) as Hx by (unfold rank; rewrite Ec; reflexivity).
    rewrite insertSorted_front; [reflexivity|].
    rewrite !Forall_app. split_and!; (eapply Forall_impl; [eassumption|]; cbn; intros; lia).
  - assert (rank r = 0%Z) as Hx by (unfold rank; rewrite Ec; reflexivity).
    rewrite insertSorted_front; [reflexivity|].
    rewrite !Forall_app. split_and!; (eapply Forall_impl; [eassumption|]; cbn; intros; lia).
Qed.


Lemma sortResultsByStatus_length (rs : list ValidationResult.t) :
  length (sortResultsByStatus rs) = length rs.
Proof.
  unfold sortResultsByStatus. change (length (JsArray.sort byStatus rs) = length rs).
  rewrite sort_groups, !length_app. rewrite (filter_partition rs). lia.
Qed.

Lemma updateResults_length (state : PopupState) :
  length (updateResults state) = length (List.filter (passes (filter state)) (results state)).
Proof.
  unfold updateResults. rewrite length_map, sortResultsByStatus_length.
  rewrite getFilteredResults_filter. reflexivity.
Qed.

Lemma filter_all (rs : list ValidationResult.t) :
  List.filter (passes ResultFilter.all) rs = rs.
Proof. induction rs as [|r rs IH]; [reflexivity|]. cbn. rewrite IH. reflexivity. Qed.

Lemma counted_calculateSummary (f : ResultFilter.t) (rs : list ValidationResult.t) :
  counted f (calculateSummary rs) = length (List.filter (passes f) rs).
Proof.
  rewrite calculateSummary_eq. destruct f; cbn; [|reflexivity..].
  rewrite filter_all. reflexivity.
Qed.

(** X7.  The summary counts what the list shows.  For every list of
    results, the total of [calculateSummary] is the number of results and
    is the sum of its three counts, every result being counted once as a
    success, a redirect or an error; and under each filter, the list that
    [updateResults] renders has as many items as the summary counts for
    that filter. *)
Theorem calculateSummary_counts (rs : list ValidationResult.t) :
  let s := calculateSummary rs in
  ResultSummary.total s = length rs /\
  ResultSummary.total s
    = ResultSummary.success s + ResultSummary.redirect s + ResultSummary.error s /\
  forall f, length (updateResults (showing f rs)) = counted f s.
Proof.
  cbv zeta. split_and!.
  - rewrite calculateSummary_eq. reflexivity.
  - rewrite calculateSummary_eq. cbn. apply filter_partition.
  - intros f. rewrite updateResults_length, counted_calculateSummary. reflexivity.
Qed.

(** X8.  [sortResultsByStatus] shows the errors first (client and server
    errors, timeouts and network errors, in the order they have in the
    input), then the redirects, then the successes, each group in the
    order of the input: the sorted list is the concatenation of what the
    three filters select.  Nothing is lost or repeated. *)
Theorem sortResultsByStatus_groups (rs : list ValidationResult.t) :
  sortResultsByStatus rs
  = getFilteredResults (showing ResultFilter.error rs)
    ++ getFilteredResults (showing ResultFilter.redirect rs)
    ++ getFilteredResults (showing ResultFilter.success rs).
Proof.
  rewrite !getFilteredResults_filter. cbn [showing setFilter setResults filter results].
  exact (sort_groups rs).
Qed.

Lemma step_summary (state : PopupState) (e : Event) :
  summary state = calculateSummary (results state) ->
  summary (step state e) = calculateSummary (results (step state e)).
Proof.
  intros H. destruct e as [stored| | | |f|m]; cbn; try exact H.
  - unfold restoreState. destruct stored as [stored|]; [|exact H].
    destruct (currentSession stored) as [session|].
    + destruct (Orchestrator.Session.status session); cbn; try exact H; try reflexivity.
      destruct (validationResults stored) as [rs|]; [|exact H].
      destruct (length rs); [exact H|reflexivity].
    + destruct (validationResults stored) as [rs|]; [|exact H].
      destruct (length rs); [exact H|reflexivity].
  - destruct m as [p|rs|]; cbn; try exact H; try reflexivity.
    destruct (phase state); exact H.
Qed.

Lemma after_summary (events : list Event) (state : PopupState) :
  summary state = calculateSummary (results state) ->
  summary (fold_left step events state)
  = calculateSummary (results (fold_left step events state)).
Proof.
  revert state. induction events as [|e events IH]; intros state H; [exact H|].
  cbn. apply IH. apply step_summary. exact H.
Qed.

(** X9.  Whatever happens to a popup (it is opened on any stored state,
    buttons and filters are clicked, messages arrive on the port in any
    order), the summary it holds is the summary of the results it holds:
    the numbers shown always count the current results, and the list
    rendered under the current filter has as many items as the summary
    counts for that filter. *)
Theorem popup_summary_invariant (events : list Event) :
  let state := after events in
  summary state = calculateSummary (results state) /\
  length (updateResults state) = counted (filter state) (summary state).
Proof.
  cbv zeta.
  assert (H : summary (after events) = calculateSummary (results (after events))).
  { apply after_summary. reflexivity. }
  split; [exact H|].
  rewrite updateResults_length, H, counted_calculateSummary. reflexivity.
Qed.

End PopupFacts.

(** ** Link extractor *)

Section ExtractorFacts.
Import JsString LinkExtractor.
Local Open Scope nat_scope.
Local Open Scope list_scope.

Variable trim : string -> string.
Variable toLowerCase : string -> string.
Variable newURL : string -> option string.
Variable getElementText : Element -> LinkTagName -> option string.
Variable dateNow : nat -> Z.

#[local] Abbreviation extractFrom := (extractFrom trim toLowerCase newURL getElementText dateNow).
#[local] Abbreviation visitAs := (visitAs trim toLowerCase newURL getElementText dateNow).
#[local] Abbreviation extractLinks := (extractLinks trim toLowerCase newURL getElementText dateNow).
#[local] Abbreviation accepted := (accepted trim toLowerCase newURL).
#[local] Abbreviation candidates := (candidates trim toLowerCase newURL).
#[local] Abbreviation infoAt := (infoAt getElementText).
#[local] Abbreviation getOrAssignElementId := (getOrAssignElementId dateNow).

(** *** Identifiers *)

Lemma settled_refl (p : Page) : settled p p.
Proof. intros n id H _. exact H. Qed.

Lemma settled_trans (p1 p2 p3 : Page) : settled p1 p2 -> settled p2 p3 -> settled p1 p3.
Proof.
  intros H12 H23 n id H Ht. apply H23; [|exact Ht]. apply H12; assumption.
Qed.

Lemma getOrAssignElementId_spec (e : Element) (p : Page) :
  exists id p',
    getOrAssignElementId e p = (id, p') /\
    truthy id = true /\
    dataLcId p' !! node e = Some id /\
    settled p p'.
Proof.
  unfold LinkExtractor.getOrAssignElementId, generateElementId.
  set (newId := ("lc-" ++ _)%string).
  assert (Hnew : truthy newId = true) by reflexivity.
  assert (Hassign : forall old, dataLcId p !! node e = old ->
            (forall id, old = Some id -> truthy id = false) ->
            settled p {| dataLcId := <[node e := newId]> (dataLcId p);
                         elementIdCounter := S (elementIdCounter p) |}).
  { intros old Hold Hfalsy n id Hn Ht. cbn.
    destruct (decide (n = node e)) as [->|Hne].
    - rewrite Hold in Hn. rewrite (Hfalsy id Hn) in Ht. discriminate.
    - rewrite lookup_insert_ne by congruence. exact Hn. }
  destruct (dataLcId p !! node e) as [existingId|] eqn:Hid.
  - destruct (truthy existingId) eqn:Ht.
    + exists existingId, p. split_and!; auto using settled_refl.
    + eexists _, _. split; [reflexivity|]. cbn. split_and!.
      * exact Hnew.
      * apply lookup_insert_eq.
      * apply (Hassign _ eq_refl). intros id [= <-]. exact Ht.
  - eexists _, _. split; [reflexivity|]. cbn. split_and!.
    + exact Hnew.
    + apply lookup_insert_eq.
    + apply (Hassign _ eq_refl). discriminate.
Qed.

Lemma getOrAssignElementId_identified (e : Element) (p : Page) (id : string) :
  dataLcId p !! node e = Some id -> truthy id = true ->
  getOrAssignElementId e p = (id, p).
Proof.
  intros H Ht. unfold LinkExtractor.getOrAssignElementId. rewrite H, Ht. reflexivity.
Qed.

(** *** One element *)

Lemma extractFrom_accepted (t : LinkTagName) (attribute : option string)
    (e : Element) (p : Page) :
  extractFrom t attribute e p =
    match accepted attribute with
    | Some u =>
        let (id, p') := getOrAssignElementId e p in
        (Some {| LinkInfo.url := u; LinkInfo.tagName := t;
                 LinkInfo.text := getElementText e t;
                 LinkInfo.elementId := id |}, p')
    | None => (None, p)
    end.
Proof.
  unfold LinkExtractor.extractFrom, LinkExtractor.accepted.
  destruct attribute as [value|]; [|reflexivity].
  destruct (truthy value), (isValidUrl trim toLowerCase newURL value); cbn;
    try reflexivity.
Qed.


(** *** First occurrences *)

Lemma firsts_unseen (seen : gset string) (infos : list LinkInfo.t) (x : LinkInfo.t) :
  x ∈ firsts seen infos -> LinkInfo.url x ∉ seen.
Proof.
  revert seen. induction infos as [|i infos IH]; intros seen; cbn.
  - intros H. inversion H.
  - case_bool_decide as Hi.
    + apply IH.
    + rewrite elem_of_cons. intros [->|H]; [exact Hi|].
      apply IH in H. set_solver.
Qed.

Lemma firsts_NoDup (seen : gset string) (infos : list LinkInfo.t) :
  NoDup (map LinkInfo.url (firsts seen infos)).
Proof.
  revert seen. induction infos as [|i infos IH]; intros seen; cbn.
  - constructor.
  - case_bool_decide as Hi; [apply IH|].
    cbn. constructor; [|apply IH].
    intros Hin. apply (list_elem_of_fmap_1 LinkInfo.url) in Hin as (y & Hy & Hin).
    apply firsts_unseen in Hin. set_solver.
Qed.

Lemma firsts_sublist (seen : gset string) (infos : list LinkInfo.t) :
  firsts seen infos `sublist_of` infos.
Proof.
  revert seen. induction infos as [|i infos IH]; intros seen; cbn.
  - constructor.
  - case_bool_decide; [apply sublist_cons|apply sublist_skip]; apply IH.
Qed.

Lemma firsts_complete (seen : gset string) (infos : list LinkInfo.t) (x : LinkInfo.t) :
  x ∈ infos ->
  LinkInfo.url x ∈ seen \/ LinkInfo.url x ∈ map LinkInfo.url (firsts seen infos).
Proof.
  revert seen. induction infos as [|i infos IH]; intros seen; cbn.
  - intros H. inversion H.
  - rewrite elem_of_cons. intros [->|H].
    + case_bool_decide as Hi; [left; exact Hi|right; cbn; left].
    + case_bool_decide as Hi.
      * apply (IH seen H).
      * destruct (IH ({[LinkInfo.url i]} ∪ seen) H) as [Hs|Hf].
        -- apply elem_of_union in Hs as [Hs|Hs]; [|left; exact Hs].
           apply elem_of_singleton in Hs. right. cbn. rewrite Hs. left.
        -- right. cbn. right. exact Hf.
Qed.

(** The first link of a URL is the one kept. *)
Lemma firsts_first (seen : gset string) (infos : list LinkInfo.t) (i : nat)
    (x : LinkInfo.t) :
  infos !! i = Some x ->
  LinkInfo.url x ∉ seen ->
  (forall j y, j < i -> infos !! j = Some y -> LinkInfo.url y <> LinkInfo.url x) ->
  x ∈ firsts seen infos.
Proof.
  revert seen i. induction infos as [|a infos IH]; intros seen i Hi Hs Hfirst.
  - discriminate.
  - cbn. destruct i as [|i]; cbn in Hi.
    + injection Hi as ->. rewrite bool_decide_eq_false_2 by exact Hs. left.
    + assert (Ha : LinkInfo.url a <> LinkInfo.url x).
      { apply (Hfirst 0 a); [lia|reflexivity]. }
      assert (Hrest : forall j y, j < i -> infos !! j = Some y ->
                        LinkInfo.url y <> LinkInfo.url x).
      { intros j y Hj Hy. apply (Hfirst (S j) y); [lia|exact Hy]. }
      case_bool_decide.
      * apply (IH seen i Hi Hs Hrest).
      * right. apply (IH _ i Hi); [|exact Hrest].
        rewrite elem_of_union, elem_of_singleton. intros [Heq|Hin]; congruence.
Qed.

(** *** The loops *)

#[local] Abbreviation candidate := (candidate trim toLowerCase newURL).

(** The loops from any state of the locals. *)
Lemma visitAs_spec (te : LinkTagName * Element) (acc : Acc) :
  match candidate te with
  | None => visitAs acc te = acc
  | Some c =>
      exists id,
        truthy id = true /\
        dataLcId (page (visitAs acc te)) !! node (snd te) = Some id /\
        settled (page acc) (page (visitAs acc te)) /\
        (forall id', dataLcId (page acc) !! node (snd te) = Some id' ->
           truthy id' = true -> page (visitAs acc te) = page acc) /\
        let info := {| LinkInfo.url := snd c; LinkInfo.tagName := fst te;
                       LinkInfo.text := getElementText (snd te) (fst te);
                       LinkInfo.elementId := id |} in
        links (visitAs acc te) = links acc ++ firsts (seenUrls acc) [info] /\
        seenUrls (visitAs acc te)
          = (if bool_decide (snd c ∈ seenUrls acc) then seenUrls acc
             else {[ snd c ]} ∪ seenUrls acc)
  end.
Proof.
  unfold LinkExtractor.visitAs, LinkExtractor.candidate, visit.
  rewrite extractFrom_accepted.
  destruct (accepted (attributeOf te.1 te.2)) as [u|]; [|destruct acc; reflexivity].
  destruct (getOrAssignElementId_spec (snd te) (page acc)) as (id & p' & Hg & Ht & Hid & Hs).
  rewrite Hg. exists id. cbn [snd fst firsts LinkInfo.url].
  destruct (bool_decide (u ∈ seenUrls acc)) eqn:Hu; cbn [negb page links seenUrls].
  all: split_and!; auto.
  all: try (intros id' Hid' Ht';
            rewrite (getOrAssignElementId_identified _ _ _ Hid' Ht') in Hg;
            injection Hg as _ <-; reflexivity).
  rewrite app_nil_r. reflexivity.
Qed.

Lemma fold_visitAs (tagged : list (LinkTagName * Element)) (acc : Acc) :
  let acc' := fold_left visitAs tagged acc in
  links acc' = links acc ++ firsts (seenUrls acc) (map (infoAt (page acc')) (omap candidate tagged)) /\
  settled (page acc) (page acc') /\
  Forall (identified (page acc')) (omap candidate tagged) /\
  (Forall (identified (page acc)) (omap candidate tagged) -> page acc' = page acc).
Proof.
  cbv zeta. revert acc. induction tagged as [|te tagged IH]; intros acc.
  - cbn. rewrite app_nil_r. split_and!; auto using settled_refl.
  - cbn [fold_left].
    replace (omap candidate (te :: tagged))
      with (match candidate te with
            | Some c => c :: omap candidate tagged
            | None => omap candidate tagged
            end) by reflexivity.
    destruct (IH (visitAs acc te)) as (Hl & Hs & Hi & Hp).
    pose proof (visitAs_spec te acc) as Hv.
    destruct (candidate te) as [c|] eqn:Hc.
    + destruct Hv as (id & Ht & Hid & Hs1 & Hsame & Hl1 & Hseen). cbv zeta in Hl1.
      destruct te as [t e]. destruct c as [[t' e'] u]. cbn [fst snd] in *.
      assert (t' = t /\ e' = e) as [-> ->].
      { unfold LinkExtractor.candidate in Hc. cbn [fst snd] in Hc.
        destruct (accepted _); [|discriminate]. injection Hc as <- <- _. split; reflexivity. }
      assert (Hfinal : dataLcId (page (fold_left visitAs tagged (visitAs acc (t, e))))
                         !! node e = Some id).
      { apply Hs; assumption. }
      assert (Hinfo : infoAt (page (fold_left visitAs tagged (visitAs acc (t, e)))) (t, e, u)
                = {| LinkInfo.url := u; LinkInfo.tagName := t;
                     LinkInfo.text := getElementText e t;
                     LinkInfo.elementId := id |}).
      { unfold LinkExtractor.infoAt. cbn [fst snd]. rewrite Hfinal. reflexivity. }
      split_and!.
      * rewrite Hl, Hl1, Hseen. cbn [map firsts]. rewrite Hinfo. cbn [LinkInfo.url].
        destruct (bool_decide (u ∈ seenUrls acc)).
        -- rewrite app_nil_r. reflexivity.
        -- rewrite <- app_assoc. reflexivity.
      * exact (settled_trans _ _ _ Hs1 Hs).
      * constructor; [|exact Hi].
        exists id. cbn [fst snd]. split; assumption.
      * intros Hall. apply Forall_cons in Hall as [(id' & Hid' & Ht') Hall].
        cbn [fst snd] in Hid'.
        pose proof (Hsame id' Hid' Ht') as Hpage.
        rewrite Hp; [exact Hpage|]. rewrite Hpage. exact Hall.
    + rewrite Hv in *. split_and!; assumption.
Qed.

Lemma fold_left_map {X Y Z'} (f : X -> Y -> X) (g : Z' -> Y) (l : list Z') (x : X) :
  fold_left f (map g l) x = fold_left (fun a z => f a (g z)) l x.
Proof. revert x. induction l as [|z l IH]; intros x; [reflexivity|]. cbn. apply IH. Qed.

Lemma extractLinks_fold (anchors images linkElements scripts : list Element) (p : Page) :
  extractLinks anchors images linkElements scripts p
  = let acc := fold_left visitAs (visited anchors images linkElements scripts)
                 {| links := []; seenUrls := ∅; page := p |} in
    (links acc, page acc).
Proof.
  unfold LinkExtractor.extractLinks, visited.
  rewrite !fold_left_app, !fold_left_map. reflexivity.
Qed.


(** X10.  [extractLinks] returns each URL once, and keeps the first element
    that stands for it.  The candidates are the elements whose attribute
    is accepted ([isValidUrl], then [toAbsoluteUrl]), in the order anchors,
    images, link elements, scripts.  The links returned have pairwise
    different URLs; they are candidates in that order, each with the tag
    name it was visited under, the text of its element and, as its
    identifier, the [data-lc-id] attribute its element carries after the
    call; the URL of every candidate is returned; the first candidate of
    each URL is the one returned.  After the call every candidate element
    carries a non-empty identifier, and no identifier that was on the page
    has changed. *)
Theorem extractLinks_spec (anchors images linkElements scripts : list Element)
    (p : Page) :
  let cs := candidates anchors images linkElements scripts in
  let found := fst (extractLinks anchors images linkElements scripts p) in
  let p' := snd (extractLinks anchors images linkElements scripts p) in
  NoDup (map LinkInfo.url found) /\
  found `sublist_of` map (infoAt p') cs /\
  (forall c, c ∈ cs -> snd c ∈ map LinkInfo.url found) /\
  (forall i c, cs !! i = Some c ->
     (forall j c', j < i -> cs !! j = Some c' -> snd c' <> snd c) ->
     infoAt p' c ∈ found) /\
  Forall (identified p') cs /\
  settled p p'.
Proof.
  cbv zeta. rewrite extractLinks_fold. cbv zeta. cbn [fst snd].
  unfold LinkExtractor.candidates.
  set (tagged := visited anchors images linkElements scripts).
  destruct (fold_visitAs tagged {| links := []; seenUrls := ∅; page := p |})
    as (Hl & Hs & Hi & _).
  cbn [links seenUrls page] in Hl, Hs. rewrite Hl.
  set (p' := page (fold_left visitAs tagged _)) in *.
  set (cs := omap candidate tagged) in *.
  split_and!.
  - apply firsts_NoDup.
  - apply firsts_sublist.
  - intros c Hc.
    destruct (firsts_complete ∅ (map (infoAt p') cs) (infoAt p' c)) as [H|H].
    + apply (list_elem_of_fmap_2 (infoAt p')). exact Hc.
    + apply not_elem_of_empty in H. destruct H.
    + exact H.
  - intros i c Hi' Hfirst.
    apply (firsts_first ∅ _ i).
    + change (map (infoAt p') cs) with (infoAt p' <$> cs).
      rewrite list_lookup_fmap, Hi'. reflexivity.
    + apply not_elem_of_empty.
    + intros j y Hj Hy.
      change (map (infoAt p') cs) with (infoAt p' <$> cs) in Hy.
      rewrite list_lookup_fmap in Hy.
      destruct (cs !! j) as [c'|] eqn:Hc'; [|discriminate].
      injection Hy as <-. cbn. exact (Hfirst j c' Hj Hc').
  - exact Hi.
  - exact Hs.
Qed.

(** X11.  Extraction is repeatable: on the page a call of [extractLinks]
    has left, the next call over the same elements returns the same links,
    with the same identifiers, generates no identifier and changes nothing. *)
Theorem extractLinks_stable (anchors images linkElements scripts : list Element)
    (p : Page) :
  let first := extractLinks anchors images linkElements scripts p in
  extractLinks anchors images linkElements scripts (snd first) = first.
Proof.
  cbv zeta. rewrite !extractLinks_fold. cbv zeta. cbn [fst snd].
  set (tagged := visited anchors images linkElements scripts).
  destruct (fold_visitAs tagged {| links := []; seenUrls := ∅; page := p |})
    as (Hl & _ & Hi & _).
  set (acc1 := fold_left visitAs tagged {| links := []; seenUrls := ∅; page := p |}) in *.
  destruct (fold_visitAs tagged {| links := []; seenUrls := ∅; page := page acc1 |})
    as (Hl2 & _ & _ & Hp2).
  cbn [links seenUrls page] in *.
  specialize (Hp2 Hi). rewrite Hp2 in Hl2.
  rewrite Hl2, Hp2, <- Hl. reflexivity.
Qed.

End ExtractorFacts.

(** ** Batch orchestrator: the stored record, and what follows a run *)

Section StoredRecordFacts.
Import LinkValidator Limiter Orchestrator.
Local Open Scope nat_scope.
Local Open Scope list_scope.

Variable o : Oracle.
Variable config : Config.









Lemma onError_never_returns {T} (e : Thrown) st out st' :
  @onError o T e st = (out, st') -> forall v, out <> Returns v.
Proof.
  unfold onError. unfold andThen at 1. cbn [get].
  destruct (aborted st); [|intros [= <- <-]; discriminate].
  unfold andThen at 1.
  destruct (currentSession st) as [r|]; [|intros [= <- <-]; discriminate].
  match goal with |- context [andThen ?a ?k st] => destruct (andThen a k st) as [[v| |] st1] end.
  all: intros [= <- <-]; discriminate.
Qed.





Lemma start_locked pageUrl links st :
  isRunning st = true ->
  start o config pageUrl links st
  = (Throws (error "Batch processor is already running"), st).
Proof.
  intros H. unfold start. unfold andThen at 1. cbn [get]. rewrite H. reflexivity.
Qed.

Lemma resume_locked st :
  isRunning st = true ->
  resume o config st = (Throws (error "Batch processor is already running"), st).
Proof.
  intros H. unfold resume. unfold andThen at 1. cbn [get]. rewrite H. reflexivity.
Qed.

Lemma start_first_save st :
  forall pageUrl links,
  isRunning st = false ->
  saveFails o (clock st) = true ->
  exists st',
    start o config pageUrl links st = (Throws (error "storage failure"), st') /\
    persisted st' = persisted st /\ probed st' = probed st /\
    storage st' = storage st /\ isRunning st' = true.
Proof.
  intros pageUrl links Hidle Hf.
  unfold start. unfold andThen at 1. cbn [get]. rewrite Hidle.
  unfold andThen at 1. unfold alloc at 1.
  set (s0 := createSession _ _ pageUrl links).
  set (r := length (heap st)).
  do 3 (unfold andThen at 1; unfold modify at 1).
  match goal with |- context [andThen (saveSession o r) _ ?x] => set (st2 := x) end.
  unfold andThen at 1.
  rewrite (saveSession_eq o r s0 st2).
  2:{ subst st2 r. cbn. rewrite lookup_app_r by lia. rewrite Nat.sub_diag. reflexivity. }
  change (clock st2) with (clock st). rewrite Hf.
  eexists. split; [reflexivity|].
  destruct (tick_frame o st2) as (_ & Hp & Hpr & Hs & _ & Hr).
  cbn [snd]. rewrite Hp, Hpr, Hs, Hr. split_and!; reflexivity.
Qed.

End StoredRecordFacts.

Section StoredRecordSpec.
Import LinkValidator Limiter Orchestrator Scenarios.
Local Open Scope nat_scope.
Local Open Scope list_scope.





(** X14.  A processor whose first write fails stays locked.  [start]
    writes the new session before its [try] block: when that write is
    rejected, [start] throws the storage failure having probed nothing and
    persisted nothing, and the running flag, set before the write, is not
    cleared.  Every later [start] or [resume] on that processor throws
    'Batch processor is already running' and changes nothing. *)
Theorem start_first_write_fails (o o' : Oracle) (config config' : Config)
    (pageUrl pageUrl' : string) (links links' : list LinkInfo.t) (st : State) :
  isRunning st = false ->
  saveFails o (clock st) = true ->
  exists st',
    start o config pageUrl links st = (Throws (error "storage failure"), st') /\
    persisted st' = persisted st /\ probed st' = probed st /\
    storage st' = storage st /\ isRunning st' = true /\
    start o' config' pageUrl' links' st'
      = (Throws (error "Batch processor is already running"), st') /\
    resume o' config' st'
      = (Throws (error "Batch processor is already running"), st').
Proof.
  intros Hidle Hf.
  destruct (start_first_save o config st pageUrl links Hidle Hf)
    as (st' & Hrun & Hp & Hpr & Hs & Hr).
  exists st'. split_and!; auto.
  - apply start_locked. exact Hr.
  - apply resume_locked. exact Hr.
Qed.

Lemma start_first_write_fails_witness :
  exists st',
    start brokenStorage defaultConfig "https://example.test/" (page 3) (initialState None)
      = (Throws (error "storage failure"), st') /\
    persisted st' = [] /\ probed st' = [] /\ storage st' = None /\
    isRunning st' = true /\
    start brokenStorage defaultConfig "https://example.test/" (page 3) st'
      = (Throws (error "Batch processor is already running"), st') /\
    resume brokenStorage defaultConfig st'
      = (Throws (error "Batch processor is already running"), st').
Proof.
  exact (start_first_write_fails brokenStorage brokenStorage defaultConfig defaultConfig
           "https://example.test/" "https://example.test/" (page 3) (page 3)
           (initialState None) eq_refl eq_refl).
Defined.

End StoredRecordSpec.

(** ** Progress notifier *)

Section NotifierFacts.
Import Messaging Notifier.
Local Open Scope nat_scope.
Local Open Scope list_scope.

(** *** Broadcasting *)

Lemma received_app (port : Port) (pm : PortManager) (more : list (Port * ExtensionMessage))
    (ps : list Port) :
  received port {| ports := ps; posted := posted pm ++ more |}
  = received port pm ++ map snd (List.filter (fun pm => Nat.eqb (fst pm) port) more).
Proof. unfold received. cbn. rewrite List.filter_app, map_app. reflexivity. Qed.

Lemma filter_filter {T} (f g : T -> bool) (l : list T) :
  List.filter f (List.filter g l) = List.filter (fun x => g x && f x) l.
Proof.
  induction l as [|x l IH]; [reflexivity|]. cbn.
  destruct (g x); cbn; [destruct (f x)|]; rewrite IH; reflexivity.
Qed.

Lemma filter_ext_elem {T} (f g : T -> bool) (l : list T) :
  (forall x, x ∈ l -> f x = g x) -> List.filter f l = List.filter g l.
Proof.
  induction l as [|x l IH]; intros H; [reflexivity|]. cbn.
  rewrite (H x) by left. rewrite IH; [reflexivity|].
  intros y Hy. apply H. right. exact Hy.
Qed.

Lemma elem_of_filter {T} (f : T -> bool) (l : list T) (x : T) :
  x ∈ List.filter f l <-> x ∈ l /\ f x = true.
Proof.
  rewrite !list_elem_of_In. apply List.filter_In.
Qed.

Lemma NoDup_filter {T} (f : T -> bool) (l : list T) :
  NoDup l -> NoDup (List.filter f l).
Proof.
  induction 1 as [|x l Hx Hl IH]; cbn; [constructor|].
  destruct (f x); [|exact IH]. constructor; [|exact IH].
  rewrite elem_of_filter. tauto.
Qed.

(** The loop of [broadcast], over any snapshot of the ports. *)
Lemma broadcast_loop (throws : Port -> bool) (m : ExtensionMessage) (l : list Port)
    (pm : PortManager) :
  let pm' :=
    fold_left
      (fun pm port =>
         if throws port then delete port pm
         else {| ports := ports pm; posted := posted pm ++ [(port, m)] |})
      l pm in
  ports pm' = List.filter (fun p => negb (bool_decide (p ∈ l) && throws p)) (ports pm) /\
  posted pm' = posted pm ++ map (fun p => (p, m)) (List.filter (fun p => negb (throws p)) l).
Proof.
  cbv zeta. revert pm. induction l as [|a l IH]; intros pm.
  - cbn. rewrite app_nil_r. split; [|reflexivity].
    rewrite <- (filter_ext_elem (fun _ => true)).
    + induction (ports pm) as [|x xs IHx]; [reflexivity|]. cbn. rewrite <- IHx. reflexivity.
    + intros x _. rewrite bool_decide_eq_false_2; [reflexivity|]. apply not_elem_of_nil.
  - cbn [fold_left]. destruct (throws a) eqn:Ha.
    + destruct (IH (delete a pm)) as [Hp Hs]. rewrite Hp, Hs. cbn [List.filter].
      rewrite Ha. cbn [negb]. split; [|reflexivity].
      unfold delete. cbn [ports]. rewrite filter_filter. apply filter_ext_elem.
      intros x _. destruct (Nat.eqb_spec x a) as [->|Hne]; cbn.
      * rewrite bool_decide_eq_true_2 by left. rewrite Ha. reflexivity.
      * f_equal. f_equal. apply bool_decide_ext. rewrite elem_of_cons. tauto.
    + match goal with |- context [fold_left _ l ?x] => destruct (IH x) as [Hp Hs] end.
      rewrite Hp, Hs. cbn [ports posted List.filter]. rewrite Ha. cbn [negb map].
      rewrite <- app_assoc. split; [|reflexivity].
      apply filter_ext_elem. intros x _.
      destruct (decide (x = a)) as [->|Hne].
      * rewrite Ha, !andb_false_r. reflexivity.
      * f_equal. f_equal. apply bool_decide_ext. rewrite elem_of_cons. tauto.
Qed.

Lemma broadcast_ports (throws : Port -> bool) (m : ExtensionMessage) (pm : PortManager) :
  ports (broadcast throws m pm) = List.filter (fun p => negb (throws p)) (ports pm).
Proof.
  unfold broadcast. destruct (broadcast_loop throws m (ports pm) pm) as [Hp _].
  cbv zeta in Hp. rewrite Hp. apply filter_ext_elem.
  intros x Hx. rewrite bool_decide_eq_true_2 by exact Hx. reflexivity.
Qed.

Lemma received_one (port : Port) (m : ExtensionMessage) (l : list Port) :
  NoDup l ->
  map snd (List.filter (fun pm => Nat.eqb (fst pm) port) (map (fun p => (p, m)) l))
  = if bool_decide (port ∈ l) then [m] else [].
Proof.
  induction 1 as [|x l Hx Hl IH]; [reflexivity|]. cbn [map List.filter fst].
  destruct (Nat.eqb_spec x port) as [->|Hne].
  - cbn [map snd]. rewrite IH.
    rewrite (bool_decide_eq_true_2 (port ∈ port :: l)) by left.
    rewrite (bool_decide_eq_false_2 (port ∈ l)) by exact Hx. reflexivity.
  - rewrite IH. apply (f_equal (fun b : bool => if b then [m] else [])).
    apply bool_decide_ext. rewrite elem_of_cons. split; [tauto|].
    intros [Heq|H]; [congruence|exact H].
Qed.

Lemma broadcast_received (throws : Port -> bool) (m : ExtensionMessage)
    (pm : PortManager) (port : Port) :
  NoDup (ports pm) ->
  received port (broadcast throws m pm)
  = received port pm
    ++ (if bool_decide (port ∈ ports (broadcast throws m pm)) then [m] else []).
Proof.
  intros Hnd. rewrite broadcast_ports.
  unfold broadcast. destruct (broadcast_loop throws m (ports pm) pm) as [_ Hs].
  cbv zeta in Hs. unfold received at 1. rewrite Hs.
  rewrite List.filter_app, map_app. fold (received port pm). f_equal.
  apply received_one. apply NoDup_filter. exact Hnd.
Qed.


(** *** The calls of a run *)

Lemma portManager_saveProgressState w n x st :
  portManager (saveProgressState w n x st) = portManager st.
Proof. unfold saveProgressState. destruct (storageFails w n); reflexivity. Qed.

Lemma portManager_saveResults w n x st :
  portManager (saveResults w n x st) = portManager st.
Proof. unfold saveResults. destruct (storageFails w n); reflexivity. Qed.

Lemma reportProgress_portManager w p st :
  portManager (reportProgress w p st)
  = broadcast (postThrows w) (VALIDATION_PROGRESS p) (portManager st).
Proof. unfold reportProgress. rewrite portManager_saveProgressState. reflexivity. Qed.

Lemma reportComplete_portManager w rs st :
  portManager (reportComplete w rs st)
  = broadcast (postThrows w) (VALIDATION_COMPLETE rs) (portManager st).
Proof.
  unfold reportComplete. rewrite portManager_saveResults, portManager_saveProgressState.
  reflexivity.
Qed.

(** One broadcast, seen from a port. *)
Lemma broadcast_step (throws : Port -> bool) (m : ExtensionMessage) (pm : PortManager) :
  NoDup (ports pm) ->
  NoDup (ports (broadcast throws m pm)) /\
  ports (broadcast throws m pm) = List.filter (fun p => negb (throws p)) (ports pm) /\
  forall port,
    received port (broadcast throws m pm)
    = received port pm
      ++ (if bool_decide (port ∈ ports (broadcast throws m pm)) then [m] else []).
Proof.
  intros Hnd. split_and!.
  - rewrite broadcast_ports. apply NoDup_filter. exact Hnd.
  - apply broadcast_ports.
  - intros port. apply broadcast_received. exact Hnd.
Qed.

Lemma filter_true {T} (l : list T) : List.filter (fun _ => true) l = l.
Proof. induction l as [|x l IH]; [reflexivity|]. cbn. rewrite IH. reflexivity. Qed.

Lemma reportAll_spec (run : list (World * ValidationProgress.t)) (st : State) :
  NoDup (ports (portManager st)) ->
  let st' := reportAll run st in
  let msgs := map (fun wp => VALIDATION_PROGRESS (snd wp)) run in
  NoDup (ports (portManager st')) /\
  ports (portManager st')
    = List.filter (fun port => forallb (fun wp => negb (postThrows (fst wp) port)) run)
        (ports (portManager st)) /\
  forall port,
    (port ∈ ports (portManager st') -> inbox port st' = inbox port st ++ msgs) /\
    (port ∉ ports (portManager st) -> inbox port st' = inbox port st) /\
    exists k, inbox port st' = inbox port st ++ take k msgs.
Proof.
  cbv zeta. revert st. induction run as [|[w p] run IH]; intros st Hnd.
  - cbn. split_and!; [exact Hnd| |].
    + rewrite filter_true. reflexivity.
    + intros port. rewrite app_nil_r. split_and!; try reflexivity.
      exists 0. rewrite app_nil_r. reflexivity.
  - cbn [reportAll fold_left fst snd map forallb].
    change (fold_left _ run ?x) with (reportAll run x).
    destruct (broadcast_step (postThrows w) (VALIDATION_PROGRESS p) (portManager st) Hnd)
      as (Hnd1 & Hports1 & Hrecv1).
    rewrite <- reportProgress_portManager in Hnd1, Hports1, Hrecv1.
    destruct (IH (reportProgress w p st) Hnd1) as (Hnd' & Hports' & Hrecv').
    split_and!; [exact Hnd'| |].
    + rewrite Hports', Hports1, filter_filter. reflexivity.
    + intros port. destruct (Hrecv' port) as (Hall & Hnone & k & Hk).
      unfold inbox in *. specialize (Hrecv1 port).
      destruct (bool_decide (port ∈ ports (portManager (reportProgress w p st)))) eqn:Hin1.
      * apply bool_decide_eq_true_1 in Hin1. split_and!.
        -- intros Hin. rewrite (Hall Hin), Hrecv1, <- app_assoc. reflexivity.
        -- intros Hout. exfalso. apply Hout.
           rewrite Hports1 in Hin1. apply elem_of_filter in Hin1 as [Hin1 _]. exact Hin1.
        -- exists (S k). rewrite Hk, Hrecv1, <- app_assoc. reflexivity.
      * apply bool_decide_eq_false_1 in Hin1. rewrite app_nil_r in Hrecv1.
        split_and!.
        -- intros Hin. exfalso. apply Hin1.
           rewrite Hports' in Hin. apply elem_of_filter in Hin as [Hin _]. exact Hin.
        -- intros _. rewrite (Hnone Hin1). exact Hrecv1.
        -- exists 0. rewrite (Hnone Hin1), Hrecv1. cbn. rewrite app_nil_r. reflexivity.
Qed.

Lemma healthy_split (run : list (World * ValidationProgress.t)) (w : World) (port : Port) :
  healthy run w port = true <->
  (forall wp, wp ∈ run -> postThrows (fst wp) port = false) /\ postThrows w port = false.
Proof.
  unfold healthy. rewrite andb_true_iff, forallb_forall, negb_true_iff.
  split; intros [H1 H2]; (split; [|exact H2]).
  - intros wp Hwp. apply negb_true_iff. apply H1. apply list_elem_of_In. exact Hwp.
  - intros wp Hwp. apply negb_true_iff. apply H1. apply list_elem_of_In. exact Hwp.
Qed.

(** X15.  What a run streams to the ports.  Over a validation run (one
    [reportProgress] per report, then [reportComplete]), whatever storage
    calls fail: a port is still connected at the end exactly when it was
    connected at the start and its [postMessage] threw in none of the
    calls; every port still connected has received every progress report,
    in order, and then the completion with the results; a port that was
    dropped has received a prefix of that stream; a port that was not
    connected has received nothing. *)
Theorem notifier_stream (run : list (World * ValidationProgress.t)) (w : World)
    (results : list ValidationResult.t) (st : State) :
  NoDup (ports (portManager st)) ->
  let st' := reportComplete w results (reportAll run st) in
  ports (portManager st') = List.filter (healthy run w) (ports (portManager st)) /\
  forall port,
    (port ∈ ports (portManager st') ->
       inbox port st' = inbox port st ++ stream run results) /\
    (port ∉ ports (portManager st) -> inbox port st' = inbox port st) /\
    exists k, inbox port st' = inbox port st ++ take k (stream run results).
Proof.
  intros Hnd. cbv zeta.
  destruct (reportAll_spec run st Hnd) as (Hnd1 & Hports1 & Hrecv1). cbv zeta in Hrecv1.
  set (st1 := reportAll run st) in *.
  destruct (broadcast_step (postThrows w) (VALIDATION_COMPLETE results) (portManager st1) Hnd1)
    as (_ & Hports2 & Hrecv2).
  rewrite <- reportComplete_portManager in Hports2, Hrecv2.
  split.
  - rewrite Hports2, Hports1, filter_filter. reflexivity.
  - intros port. destruct (Hrecv1 port) as (Hall & Hnone & k & Hk).
    unfold inbox, stream in *. specialize (Hrecv2 port).
    set (msgs := map (fun wp => VALIDATION_PROGRESS (snd wp)) run) in *.
    destruct (bool_decide (port ∈ ports (portManager (reportComplete w results st1)))) eqn:Hin2.
    + apply bool_decide_eq_true_1 in Hin2.
      assert (Hin1 : port ∈ ports (portManager st1)).
      { rewrite Hports2 in Hin2. apply elem_of_filter in Hin2 as [Hin2 _]. exact Hin2. }
      assert (Hin0 : port ∈ ports (portManager st)).
      { rewrite Hports1 in Hin1. apply elem_of_filter in Hin1 as [Hin1 _]. exact Hin1. }
      split_and!.
      * intros _. rewrite Hrecv2, (Hall Hin1), <- app_assoc. reflexivity.
      * intros Hout. destruct (Hout Hin0).
      * exists (length msgs + 1). rewrite Hrecv2, (Hall Hin1), <- app_assoc.
        rewrite take_ge by (rewrite length_app; cbn; lia). reflexivity.
    + apply bool_decide_eq_false_1 in Hin2. rewrite app_nil_r in Hrecv2.
      split_and!.
      * intros Hin. destruct (Hin2 Hin).
      * intros Hout. rewrite Hrecv2. exact (Hnone Hout).
      * exists (k `min` length msgs). rewrite Hrecv2, Hk. f_equal.
        rewrite take_app_le by lia.
        destruct (Nat.le_ge_cases k (length msgs)).
        -- rewrite Nat.min_l by lia. reflexivity.
        -- rewrite Nat.min_r by lia. rewrite !take_ge by lia. reflexivity.
Qed.


Lemma two_ports : NoDup [1; 2].
Proof.
  apply NoDup_cons. split; [|apply NoDup_singleton].
  rewrite list_elem_of_singleton. discriminate.
Qed.

Lemma notifier_stream_witness :
  let w := {| postThrows := fun port => Nat.eqb port 2;
              storageFails := fun _ => false;
              now := "2026-01-01T00:00:00.000Z" |} in
  let p := {| ValidationProgress.total := 1; ValidationProgress.completed := 1;
              ValidationProgress.current := None |} in
  ports (portManager (reportComplete w [] (reportAll [(w, p)] attended))) = [1] /\
  inbox 1 (reportComplete w [] (reportAll [(w, p)] attended))
    = [VALIDATION_PROGRESS p; VALIDATION_COMPLETE []].
Proof.
  cbv zeta.
  pose proof (notifier_stream
                [({| postThrows := fun port => Nat.eqb port 2;
                     storageFails := fun _ => false;
                     now := "2026-01-01T00:00:00.000Z" |},
                  {| ValidationProgress.total := 1; ValidationProgress.completed := 1;
                     ValidationProgress.current := None |})]
                {| postThrows := fun port => Nat.eqb port 2;
                   storageFails := fun _ => false;
                   now := "2026-01-01T00:00:00.000Z" |}
                [] attended two_ports) as [Hports Hin].
  split; [exact Hports|].
  destruct (Hin 1) as [Hall _]. apply Hall. rewrite Hports. cbn. left.
Defined.

(** *** Late subscribers *)

Lemma popupReads_completion (before : list ExtensionMessage)
    (results : list ValidationResult.t) (state : Popup.PopupState) :
  let popup := popupReads (before ++ [VALIDATION_COMPLETE results]) state in
  Popup.phase popup = Popup.completed /\
  Popup.results popup = results /\
  Popup.summary popup = Popup.calculateSummary results.
Proof.
  cbv zeta. unfold popupReads. rewrite fold_left_app. cbn. repeat split.
Qed.

Lemma inbox_postMessage w port q m st st' :
  postMessage w q m st = Some st' ->
  inbox port st' = inbox port st ++ (if Nat.eqb q port then [m] else []) /\
  currentProgress st' = currentProgress st /\
  isValidationComplete st' = isValidationComplete st /\
  completedResults st' = completedResults st /\
  storage st' = storage st.
Proof.
  unfold postMessage. destruct (postThrows w q); [discriminate|].
  intros [= <-]. unfold inbox. cbn [portManager withPortManager].
  rewrite (received_app port (portManager st) [(q, m)]). cbn.
  destruct (Nat.eqb q port); repeat split.
Qed.

Lemma postMessage_ok w q m st :
  postThrows w q = false -> exists st', postMessage w q m st = Some st'.
Proof. intros H. unfold postMessage. rewrite H. eauto. Qed.

Lemma inbox_add port q st :
  inbox port (withPortManager (add q (portManager st)) st) = inbox port st.
Proof. reflexivity. Qed.

(** X16.  A port that connects after the completion is brought up to
    date by the same service worker.  After [reportComplete(results)]
    with at least one result, whatever storage calls fail, a port that
    connects (and whose [postMessage] does not throw) receives the last
    progress, every link counted as completed, when a progress had been
    reported, and then the completion with exactly the results; a popup
    that reads them shows the completed phase, the results and their
    summary, whatever it showed before. *)
Theorem replay_after_completion (w w' : World) (results : list ValidationResult.t)
    (st : State) (q : Port) (popup : Popup.PopupState) :
  results <> [] ->
  postThrows w' q = false ->
  let st1 := reportComplete w results st in
  let st2 := connect w' q st1 in
  let replay :=
    match currentProgress st with
    | Some p => [VALIDATION_PROGRESS (finished p)]
    | None => []
    end ++ [VALIDATION_COMPLETE results] in
  inbox q st2 = inbox q st1 ++ replay /\
  Popup.phase (popupReads replay popup) = Popup.completed /\
  Popup.results (popupReads replay popup) = results /\
  Popup.summary (popupReads replay popup) = Popup.calculateSummary results.
Proof.
  intros Hne Hq. cbv zeta. split; [|apply popupReads_completion].
  unfold connect, sendCurrentStateToPort.
  set (st1 := reportComplete w results st).
  set (st1' := withPortManager (add q (portManager st1)) st1).
  assert (Hcur : currentProgress st1' = option_map finished (currentProgress st)).
  { subst st1' st1. unfold reportComplete, saveResults, saveProgressState.
    destruct (storageFails w 1), (storageFails w 0), (currentProgress st); reflexivity. }
  assert (Hcomplete : isValidationComplete st1' = true).
  { subst st1' st1. unfold reportComplete, saveResults, saveProgressState.
    destruct (storageFails w 1), (storageFails w 0); reflexivity. }
  assert (Hres : completedResults st1' = results).
  { subst st1' st1. unfold reportComplete, saveResults, saveProgressState.
    destruct (storageFails w 1), (storageFails w 0); reflexivity. }
  assert (Hpos : (0 <? length results) = true).
  { destruct results; [congruence|reflexivity]. }
  rewrite Hcur.
  destruct (currentProgress st) as [p|]; cbn [option_map].
  - destruct (postMessage_ok w' q (VALIDATION_PROGRESS (finished p)) st1' Hq) as [sta Ha].
    rewrite Ha. destruct (inbox_postMessage w' q q _ _ _ Ha) as (Hi & _ & Hc & Hr & _).
    rewrite Hc, Hr, Hcomplete, Hres, Hpos. cbn [andb].
    destruct (postMessage_ok w' q (VALIDATION_COMPLETE results) sta Hq) as [stb Hb].
    rewrite Hb. destruct (inbox_postMessage w' q q _ _ _ Hb) as (Hi' & _).
    rewrite Hi', Hi, Nat.eqb_refl, <- app_assoc. reflexivity.
  - rewrite Hcomplete, Hres, Hpos. cbn [andb].
    destruct (postMessage_ok w' q (VALIDATION_COMPLETE results) st1' Hq) as [stb Hb].
    rewrite Hb. destruct (inbox_postMessage w' q q _ _ _ Hb) as (Hi' & _).
    rewrite Hi', Nat.eqb_refl. reflexivity.
Qed.


Lemma reportComplete_storage w results st :
  storageFails w 0 = false -> storageFails w 1 = false ->
  storage (reportComplete w results st)
  = {| lastProgress :=
         Some {| progress := match currentProgress st with
                             | Some p => finished p
                             | None => wholeRun results
                             end;
                 isComplete := true;
                 updatedAt := now w |};
       validationResults := Some results |}.
Proof.
  intros H0 H1. unfold reportComplete, saveResults, saveProgressState.
  rewrite H0, H1. cbn. destruct (currentProgress st); reflexivity.
Qed.

(** X17.  A port that connects after the service worker restarted is
    brought up to date from the storage.  When the two storage writes of
    [reportComplete(results)] succeeded, a notifier constructed afresh over
    that storage sends a connecting port (whose [postMessage] does not
    throw, and with the storage readable) the stored progress, whose
    completed count is its total, and then the completion with exactly the
    results, also when there are no results; a popup that reads them shows
    the completed phase, the results and their summary. *)
Theorem replay_after_restart (w w' : World) (results : list ValidationResult.t)
    (st : State) (q : Port) (popup : Popup.PopupState) :
  storageFails w 0 = false -> storageFails w 1 = false ->
  storageFails w' 0 = false -> storageFails w' 1 = false ->
  postThrows w' q = false ->
  let restarted := fresh (storage (reportComplete w results st)) in
  let p := match currentProgress st with
           | Some p => finished p
           | None => wholeRun results
           end in
  let replay := [VALIDATION_PROGRESS p; VALIDATION_COMPLETE results] in
  inbox q (connect w' q restarted) = replay /\
  ValidationProgress.completed p = ValidationProgress.total p /\
  Popup.phase (popupReads replay popup) = Popup.completed /\
  Popup.results (popupReads replay popup) = results /\
  Popup.summary (popupReads replay popup) = Popup.calculateSummary results.
Proof.
  intros H0 H1 H0' H1' Hq. cbv zeta.
  split_and!.
  - rewrite (reportComplete_storage w results st H0 H1).
    unfold connect, sendCurrentStateToPort, fresh, loadProgressState, loadResults, postMessage.
    cbn. rewrite H0', H1', Hq. cbn. rewrite ?Hq. cbn. unfold inbox, received. cbn.
    rewrite !Nat.eqb_refl. reflexivity.
  - destruct (currentProgress st); reflexivity.
  - apply (popupReads_completion [_]).
  - apply (popupReads_completion [_]).
  - apply (popupReads_completion [_]).
Qed.

(** X18.  What [reset()] and [reportCancelled()] leave.  Where the
    removal from the storage succeeds, both leave nothing stored, so a
    service worker that restarts sends nothing to a port that connects;
    after [reset()] the same service worker sends nothing either; and
    [reportCancelled()] sends every connected port the last progress with
    no current link, and never a completion. *)
Theorem nothing_left_to_replay (w w' : World) (st : State) (q : Port) :
  storageFails w 0 = false ->
  storage (reset w st) = {| lastProgress := None; validationResults := None |} /\
  storage (reportCancelled w st) = {| lastProgress := None; validationResults := None |} /\
  inbox q (connect w' q (reset w st)) = inbox q st /\
  (forall stored, stored = storage (reset w st) \/ stored = storage (reportCancelled w st) ->
     inbox q (connect w' q (fresh stored)) = []) /\
  (NoDup (ports (portManager st)) ->
   forall port,
     inbox port (reportCancelled w st)
     = inbox port st
       ++ match currentProgress st with
          | Some p =>
              if bool_decide (port ∈ ports (portManager (reportCancelled w st))) then
                [VALIDATION_PROGRESS
                   {| ValidationProgress.total := ValidationProgress.total p;
                      ValidationProgress.completed := ValidationProgress.completed p;
                      ValidationProgress.current := None |}]
              else []
          | None => []
          end).
Proof.
  intros H0.
  assert (Hreset : storage (reset w st) = {| lastProgress := None; validationResults := None |}).
  { unfold reset, clearState. rewrite H0. reflexivity. }
  assert (Hcancel : storage (reportCancelled w st)
                    = {| lastProgress := None; validationResults := None |}).
  { unfold reportCancelled, clearState. rewrite H0. reflexivity. }
  split_and!; [exact Hreset|exact Hcancel| | |].
  - unfold connect, sendCurrentStateToPort, reset, clearState, loadProgressState.
    rewrite H0. cbn. destruct (storageFails w' 0); reflexivity.
  - intros stored [->| ->]; [rewrite Hreset|rewrite Hcancel].
    all: unfold connect, sendCurrentStateToPort, fresh, loadProgressState; cbn.
    all: destruct (storageFails w' 0); reflexivity.
  - intros Hnd port. unfold reportCancelled, clearState. rewrite H0.
    destruct (currentProgress st) as [p|]; cbn [portManager withStorage withPortManager].
    + unfold inbox. cbn [portManager withStorage withPortManager].
      apply broadcast_received. exact Hnd.
    + unfold inbox. cbn. rewrite app_nil_r. reflexivity.
Qed.


Lemma replay_after_completion_witness :
  let r := Scenarios.ok 0 1 in
  inbox 3 (connect calm 3 (reportComplete calm [r] attended))
    = inbox 3 (reportComplete calm [r] attended) ++ [VALIDATION_COMPLETE [r]] /\
  Popup.phase (popupReads [VALIDATION_COMPLETE [r]] Popup.initialState) = Popup.completed /\
  Popup.results (popupReads [VALIDATION_COMPLETE [r]] Popup.initialState) = [r] /\
  Popup.summary (popupReads [VALIDATION_COMPLETE [r]] Popup.initialState)
    = Popup.calculateSummary [r].
Proof.
  exact (replay_after_completion calm calm [Scenarios.ok 0 1] attended 3
           Popup.initialState ltac:(discriminate) eq_refl).
Defined.

Lemma replay_after_restart_witness :
  let replay := [VALIDATION_PROGRESS (wholeRun []); VALIDATION_COMPLETE []] in
  inbox 3 (connect calm 3 (fresh (storage (reportComplete calm [] attended)))) = replay /\
  ValidationProgress.completed (wholeRun []) = ValidationProgress.total (wholeRun []) /\
  Popup.phase (popupReads replay Popup.initialState) = Popup.completed /\
  Popup.results (popupReads replay Popup.initialState) = [] /\
  Popup.summary (popupReads replay Popup.initialState) = Popup.calculateSummary [].
Proof.
  exact (replay_after_restart calm calm [] attended 3 Popup.initialState
           eq_refl eq_refl eq_refl eq_refl eq_refl).
Defined.

Lemma nothing_left_to_replay_witness :
  let p := {| ValidationProgress.total := 3; ValidationProgress.completed := 1;
              ValidationProgress.current := Some (Scenarios.ok 0 1) |} in
  let busy := reportProgress calm p attended in
  storage busy
  = {| lastProgress := Some {| progress := p; isComplete := false; updatedAt := now calm |};
       validationResults := None |} /\
  storage (reset calm busy) = {| lastProgress := None; validationResults := None |} /\
  storage (reportCancelled calm busy)
  = {| lastProgress := None; validationResults := None |} /\
  inbox 3 (connect calm 3 (reset calm busy)) = [] /\
  inbox 3 (connect calm 3 (fresh (storage (reportCancelled calm busy)))) = [] /\
  inbox 1 (reportCancelled calm busy)
  = [ VALIDATION_PROGRESS p;
      VALIDATION_PROGRESS
        {| ValidationProgress.total := 3; ValidationProgress.completed := 1;
           ValidationProgress.current := None |} ].
Proof.
  cbv zeta.
  destruct (nothing_left_to_replay calm calm
              (reportProgress calm
                 {| ValidationProgress.total := 3; ValidationProgress.completed := 1;
                    ValidationProgress.current := Some (Scenarios.ok 0 1) |} attended)
              3 eq_refl) as (H1 & H2 & H3 & H4 & H5).
  split; [reflexivity|]. split; [exact H1|]. split; [exact H2|].
  split; [rewrite H3; reflexivity|].
  split; [apply H4; right; reflexivity|].
  rewrite (H5 two_ports 1). reflexivity.
Defined.

End NotifierFacts.

(** ** Link extractor: identifiers *)

Section NumeralFacts.
Import JsString.

#[local] Arguments String.append !_ _ : simpl nomatch.

Lemma to_int_normal (z : Z) : Z.to_int z <> Decimal.Pos Decimal.Nil /\ Z.to_int z <> Decimal.Neg Decimal.Nil.
Proof.
  pose proof (DecimalZ.to_of (Z.to_int z)) as H. rewrite DecimalZ.of_to in H.
  split; intros E; rewrite E in H; discriminate.
Qed.

Lemma ofZ_inj (a b : Z) : ofZ a = ofZ b -> a = b.
Proof.
  unfold ofZ. intros H.
  apply DecimalZ.to_int_inj.
  destruct (to_int_normal a) as [Ha1 Ha2]. destruct (to_int_normal b) as [Hb1 Hb2].
  pose proof (NilZero.isi _ Ha1 Ha2) as Ea. pose proof (NilZero.isi _ Hb1 Hb2) as Eb.
  rewrite H in Ea. congruence.
Qed.

Lemma string_of_uint_digits (d : Decimal.uint) :
  mem "-" (NilEmpty.string_of_uint d) = false.
Proof. induction d; cbn; auto. Qed.

Lemma ofZ_digits (z : Z) : 0 <= z -> mem "-" (ofZ z) = false.
Proof.
  intros Hz. unfold ofZ.
  assert (exists d, Z.to_int z = Decimal.Pos d) as [d ->].
  { destruct z; [eexists; reflexivity|eexists; reflexivity|lia]. }
  cbn. destruct d; try reflexivity; apply (string_of_uint_digits (_ d)).
Qed.

(** Two texts without a dash, each followed by a dash, are read back. *)
Lemma dash_split (a b r1 r2 : string) :
  mem "-" a = false -> mem "-" b = false ->
  (a ++ String "-" r1 = b ++ String "-" r2)%string -> a = b /\ r1 = r2.
Proof.
  revert b. induction a as [|c a IH]; intros [|d b] Ha Hb H; cbn in *.
  - injection H as ->. split; reflexivity.
  - injection H as <- _. cbn in Hb. discriminate.
  - injection H as -> _. cbn in Ha. discriminate.
  - injection H as -> H.
    apply orb_false_elim in Ha as [_ Ha]. apply orb_false_elim in Hb as [_ Hb].
    destruct (IH b Ha Hb H) as [-> ->]. split; reflexivity.
Qed.

End NumeralFacts.

Section IdentifierFacts.
Import JsString LinkExtractor.
Local Open Scope nat_scope.
Local Open Scope list_scope.

Variable trim : string -> string.
Variable toLowerCase : string -> string.
Variable newURL : string -> option string.
Variable getElementText : Element -> LinkTagName -> option string.
Variable dateNow : nat -> Z.
Hypothesis dateNow_nonneg : forall n, (0 <= dateNow n)%Z.

#[local] Abbreviation visitAs := (visitAs trim toLowerCase newURL getElementText dateNow).
#[local] Abbreviation extractLinks := (extractLinks trim toLowerCase newURL getElementText dateNow).
#[local] Abbreviation candidates := (candidates trim toLowerCase newURL).
#[local] Abbreviation infoAt := (infoAt getElementText).
#[local] Abbreviation getOrAssignElementId := (getOrAssignElementId dateNow).
#[local] Abbreviation generated := (generated dateNow).

Lemma generated_inj (j k : nat) : generated j = generated k -> j = k.
Proof.
  unfold LinkExtractor.generated. intros H.
  apply String.app_inj in H.
  apply dash_split in H as [_ H]; try (apply ofZ_digits; apply dateNow_nonneg).
  apply ofZ_inj in H. lia.
Qed.

Lemma generated_truthy (k : nat) : truthy (generated k) = true.
Proof. reflexivity. Qed.

Lemma getOrAssignElementId_minted (e : Element) (p : Page) (from : nat) :
  minted dateNow from p -> minted dateNow from (snd (getOrAssignElementId e p)).
Proof.
  intros (Hle & Hgen & Huniq).
  unfold LinkExtractor.getOrAssignElementId, generateElementId.
  fold (generated (S (elementIdCounter p))).
  destruct (dataLcId p !! node e) as [existingId|] eqn:Hid.
  - destruct (Hgen _ _ Hid) as (k & Hk & ->). rewrite generated_truthy.
    cbn. split_and!; assumption.
  - cbn [snd]. split_and!; cbn [dataLcId elementIdCounter].
    + lia.
    + intros n id. destruct (decide (n = node e)) as [->|Hne].
      * rewrite lookup_insert_eq. intros [= <-]. exists (S (elementIdCounter p)).
        split; [lia|reflexivity].
      * rewrite lookup_insert_ne by congruence. intros Hn.
        destruct (Hgen _ _ Hn) as (k & Hk & ->). exists k. split; [lia|reflexivity].
    + intros n n' id.
      destruct (decide (n = node e)) as [->|Hne], (decide (n' = node e)) as [->|Hne'].
      * reflexivity.
      * rewrite lookup_insert_eq, lookup_insert_ne by congruence.
        intros [= <-] Hn'. destruct (Hgen _ _ Hn') as (k & Hk & Heq).
        apply generated_inj in Heq. lia.
      * rewrite lookup_insert_eq, lookup_insert_ne by congruence.
        intros Hn [= <-]. destruct (Hgen _ _ Hn) as (k & Hk & Heq).
        apply generated_inj in Heq. lia.
      * rewrite !lookup_insert_ne by congruence. apply Huniq.
Qed.


Lemma visitAs_page (acc : Acc) (te : LinkTagName * Element) :
  page (visitAs acc te) = page acc \/
  page (visitAs acc te) = snd (getOrAssignElementId (snd te) (page acc)).
Proof.
  unfold LinkExtractor.visitAs, visit. rewrite extractFrom_accepted.
  destruct (accepted _ _ _ _) as [u|]; [|left; reflexivity].
  destruct (getOrAssignElementId (snd te) (page acc)) as [id p'].
  cbn [LinkInfo.url]. destruct (negb _); right; reflexivity.
Qed.

Lemma fold_minted (from : nat) (tagged : list (LinkTagName * Element)) (acc : Acc) :
  minted dateNow from (page acc) ->
  minted dateNow from (page (fold_left visitAs tagged acc)).
Proof.
  revert acc. induction tagged as [|te tagged IH]; intros acc H; [exact H|].
  cbn [fold_left]. apply IH.
  destruct (visitAs_page acc te) as [-> | ->]; [exact H|].
  apply getOrAssignElementId_minted. exact H.
Qed.

Lemma minted_fresh (counter : nat) :
  minted dateNow counter {| dataLcId := ∅; elementIdCounter := counter |}.
Proof.
  split_and!; cbn.
  - lia.
  - intros n id H. rewrite lookup_empty in H. discriminate.
  - intros n n' id H. rewrite lookup_empty in H. discriminate.
Qed.

(** X19.  The identifiers of the extracted links identify their elements.
    On a page whose identifiers were all made by [generateElementId] (a
    page that carries none, or one left by earlier calls), and with a clock
    that is not negative, after [extractLinks] no two nodes carry the same
    [data-lc-id]: the identifier recorded for a candidate is carried by the
    element it was extracted from and by no other, so that looking an
    element up by the identifier of a link finds the element of that
    link. *)
Theorem extractLinks_identifiers (from : nat)
    (anchors images linkElements scripts : list Element) (p : Page) :
  minted dateNow from p ->
  let cs := candidates anchors images linkElements scripts in
  let p' := snd (extractLinks anchors images linkElements scripts p) in
  minted dateNow from p' /\
  (forall n n' id, dataLcId p' !! n = Some id -> dataLcId p' !! n' = Some id -> n = n') /\
  forall c, c ∈ cs ->
    dataLcId p' !! node (snd (fst c)) = Some (LinkInfo.elementId (infoAt p' c)) /\
    forall n, dataLcId p' !! n = Some (LinkInfo.elementId (infoAt p' c)) ->
      n = node (snd (fst c)).
Proof.
  intros Hm. cbv zeta.
  rewrite extractLinks_fold. cbv zeta. cbn [snd].
  unfold LinkExtractor.candidates.
  destruct (fold_visitAs trim toLowerCase newURL getElementText dateNow
              (visited anchors images linkElements scripts)
              {| links := []; seenUrls := ∅; page := p |}) as (_ & _ & Hid & _).
  set (acc := fold_left _ _ _) in *.
  assert (Hm' : minted dateNow from (page acc)).
  { apply fold_minted. exact Hm. }
  split; [exact Hm'|]. destruct Hm' as (_ & _ & Huniq). split; [exact Huniq|].
  intros c Hc.
  rewrite Forall_forall in Hid. destruct (Hid c Hc) as (id & Hidc & _).
  assert (Heq : LinkInfo.elementId (infoAt (page acc) c) = id).
  { unfold LinkExtractor.infoAt. cbn. rewrite Hidc. reflexivity. }
  rewrite Heq. split; [exact Hidc|].
  intros n Hn. exact (Huniq _ _ _ Hn Hidc).
Qed.

End IdentifierFacts.

Section IdentifierWitness.
Import JsString LinkExtractor.
Local Open Scope nat_scope.
Local Open Scope list_scope.

(** Two anchors and an image on a page that carries no identifier: the
    three identifiers minted are pairwise different. *)
Lemma extractLinks_identifiers_witness :
  let anchors := [ {| node := 7; href := Some "https://example.test/a"; src := None |};
                   {| node := 9; href := Some "https://example.test/b"; src := None |} ] in
  let images := [ {| node := 4; href := None; src := Some "https://example.test/c.png" |} ] in
  let blank := {| dataLcId := ∅; elementIdCounter := 0 |} in
  let p' := snd (extractLinks (fun s => s) (fun s => s) (fun url => Some url)
                   (fun _ _ => None) (fun _ => 0%Z) anchors images [] [] blank) in
  minted (fun _ => 0%Z) 0 p' /\
  (forall n n' id, dataLcId p' !! n = Some id -> dataLcId p' !! n' = Some id -> n = n') /\
  dataLcId p' !! 7 = Some "lc-0-1" /\
  dataLcId p' !! 9 = Some "lc-0-2" /\
  dataLcId p' !! 4 = Some "lc-0-3".
Proof.
  cbv zeta.
  pose proof (extractLinks_identifiers (fun s => s) (fun s => s) (fun url => Some url)
                (fun _ _ => None) (fun _ => 0%Z) (fun _ => Z.le_refl 0) 0
                [ {| node := 7; href := Some "https://example.test/a"; src := None |};
                  {| node := 9; href := Some "https://example.test/b"; src := None |} ]
                [ {| node := 4; href := None; src := Some "https://example.test/c.png" |} ]
                [] [] {| dataLcId := ∅; elementIdCounter := 0 |}
                (minted_fresh (fun _ => 0%Z) 0)) as (H1 & H2 & _).
  split; [exact H1|]. split; [exact H2|].
  split_and!; vm_compute; reflexivity.
Defined.

End IdentifierWitness.

(** ** Element highlighter *)

Section HighlighterFacts.
Import Highlighter.
Local Open Scope nat_scope.
Local Open Scope list_scope.

Lemma clearHighlight_tidy (st : State) :
  tidy st ->
  let st' := clearHighlight st in
  tidy st' /\ classList st' = ∅ /\ timers st' = ∅ /\
  currentHighlightedElement st' = None /\ highlightTimeout st' = None /\
  nextTimer st' = nextTimer st.
Proof.
  intros (Hc & Ht & Hiff & Hlt & Hn). cbv zeta. unfold clearHighlight.
  destruct (highlightTimeout st) as [t|] eqn:Eto.
  - destruct (Hlt t eq_refl) as [Hpos _].
    apply Nat.ltb_lt in Hpos. rewrite Hpos. cbn.
    destruct (currentHighlightedElement st) as [e|] eqn:Ecur; cbn.
    + cbn in Hc, Ht. rewrite Hc, Ht, !difference_diag_L.
      unfold tidy. cbn. split_and!; try reflexivity; try lia.
      intros t' [=].
    + exfalso. destruct Hiff as [_ Hiff]. specialize (Hiff eq_refl). discriminate.
  - rewrite Eto. destruct (currentHighlightedElement st) as [e|] eqn:Ecur; cbn.
    + exfalso. destruct Hiff as [Hiff _]. specialize (Hiff eq_refl). discriminate.
    + rewrite Eto. cbn in Hc, Ht. unfold tidy. rewrite Hc, Ht, Eto, Ecur. cbn.
      split_and!; try reflexivity; try lia. intros t' [=].
Qed.

Lemma step_tidy (st : State) (e : Event) : tidy st -> tidy (step st e).
Proof.
  intros H. destruct e as [found| |t]; cbn [step].
  - unfold highlightElement.
    destruct (clearHighlight_tidy st H) as (H' & Hc & Ht & Hcur & Hto & Hn).
    cbv zeta in *. destruct found as [e|]; cbn [snd]; [|exact H'].
    destruct H' as (_ & _ & _ & _ & Hpos).
    unfold tidy. cbn. rewrite Hc, Ht, !union_empty_r_L.
    split_and!; try reflexivity; try lia.
    + split; discriminate.
    + intros t [= <-]. lia.
  - apply (clearHighlight_tidy st H).
  - case_bool_decide as Hin; [|exact H].
    destruct H as (Hc & Ht & Hiff & Hlt & Hn).
    destruct (highlightTimeout st) as [t'|] eqn:Eto; cbn in Ht.
    + assert (t = t') as ->.
      { rewrite Ht in Hin. apply elem_of_singleton in Hin. exact Hin. }
      destruct (Hlt t' eq_refl) as [Hpos Hlt'].
      destruct (currentHighlightedElement st) as [e|] eqn:Ecur.
      * destruct t' as [|t'']; [lia|].
        unfold clearHighlight. cbn. rewrite ?Eto. cbn. rewrite ?Ecur.
        unfold tidy. cbn. cbn in Hc. rewrite Hc, Ht, !difference_diag_L.
        rewrite difference_disjoint_L by (apply disjoint_empty_l).
        split_and!; try reflexivity; try lia. intros t [=].
      * exfalso. destruct Hiff as [_ Hiff]. specialize (Hiff eq_refl). discriminate.
    + rewrite Ht in Hin. apply not_elem_of_empty in Hin. destruct Hin.
Qed.

Lemma after_tidy (events : list Event) (st : State) :
  tidy st -> tidy (fold_left step events st).
Proof.
  revert st. induction events as [|e events IH]; intros st H; [exact H|].
  cbn. apply IH, step_tidy, H.
Qed.

Lemma initial_tidy : tidy initialState.
Proof.
  unfold tidy, initialState. cbn. split_and!; try reflexivity; try lia.
  intros t [=].
Qed.


(** X20.  One highlight at a time, and its own timer.  Whatever messages
    arrive and whichever pending timers fire, in any order: the class
    [lc-highlight] is on the current element only, the only pending timer is
    the one the current highlight set, and there is a timer exactly when
    there is a highlight.  So a highlight moves the class to the new
    element, leaves a single pending timer, its own, and is removed when
    that timer fires: the timer of an earlier highlight never removes a
    later one. *)
Theorem highlights_are_tidy (events : list Event) :
  let st := after events in
  classList st = only (currentHighlightedElement st) /\
  timers st = only (highlightTimeout st) /\
  (highlightTimeout st = None <-> currentHighlightedElement st = None) /\
  forall element,
    let st' := step st (HIGHLIGHT_ELEMENT (Some element)) in
    classList st' = {[ element ]} /\
    timers st' = {[ nextTimer st ]} /\
    forall t, t ∈ timers st' -> classList (step st' (TimerFires t)) = ∅.
Proof.
  cbv zeta.
  pose proof (after_tidy events initialState initial_tidy) as H.
  fold (after events) in H. set (st := after events) in *.
  pose proof H as (Hc & Ht & Hiff & _).
  split_and!; [exact Hc|exact Ht|exact Hiff|].
  intros element.
  pose proof (step_tidy st (HIGHLIGHT_ELEMENT (Some element)) H) as H'.
  destruct (clearHighlight_tidy st H) as (_ & Hc0 & Ht0 & _ & _ & Hn0).
  cbv zeta in *.
  assert (Hcl : classList (step st (HIGHLIGHT_ELEMENT (Some element))) = {[ element ]}).
  { cbn. rewrite Hc0, union_empty_r_L. reflexivity. }
  assert (Htm : timers (step st (HIGHLIGHT_ELEMENT (Some element))) = {[ nextTimer st ]}).
  { cbn. rewrite Ht0, Hn0, union_empty_r_L. reflexivity. }
  split_and!; [exact Hcl|exact Htm|].
  intros t Hin.
  set (st' := step st (HIGHLIGHT_ELEMENT (Some element))) in *.
  cbn [step]. rewrite bool_decide_eq_true_2 by exact Hin.
  match goal with |- classList (clearHighlight ?x) = _ => set (fired := x) end.
  assert (Hfired : tidy (step st' (TimerFires t))) by (apply step_tidy; exact H').
  cbn [step] in Hfired. rewrite bool_decide_eq_true_2 in Hfired by exact Hin.
  fold fired in Hfired.
  destruct Hfired as (Hcf & _). rewrite Hcf.
  unfold clearHighlight.
  assert (Hto : highlightTimeout fired = Some (nextTimer st)).
  { subst fired st'. cbn. rewrite Hn0. reflexivity. }
  assert (Hcur : currentHighlightedElement fired = Some element) by reflexivity.
  rewrite Hto.
  destruct H as (_ & _ & _ & _ & Hpos).
  destruct (nextTimer st) as [|n] eqn:En; [lia|]. cbn. reflexivity.
Qed.

End HighlighterFacts.

(** ** Content script injector *)

Section InjectorFacts.
Import JsString Injector.
Local Open Scope nat_scope.
Local Open Scope list_scope.

Lemma injectContentScript_grows (scriptFails : bool) (t : nat) (st : State) (x : nat) :
  x ∈ injectedTabs st -> x ∈ injectedTabs (snd (injectContentScript scriptFails t st)).
Proof.
  intros H. unfold injectContentScript.
  case_bool_decide; [exact H|]. destruct scriptFails; cbn; [exact H|].
  apply elem_of_union_r. exact H.
Qed.

Lemma injectIntoActiveTab_grows (tab : option Tab) (scriptFails : bool) (st : State)
    (x : nat) :
  x ∈ injectedTabs st -> x ∈ injectedTabs (snd (injectIntoActiveTab tab scriptFails st)).
Proof.
  intros H. unfold injectIntoActiveTab.
  destruct tab as [tb|]; [|exact H].
  destruct (id tb) as [[|t]|]; try exact H.
  destruct (negb (isInjectableUrl (url tb))); [exact H|].
  pose proof (injectContentScript_grows scriptFails (S t) st x H) as H'.
  destruct (injectContentScript scriptFails (S t) st) as [[] st']; exact H'.
Qed.

Lemma run_keeps (t : nat) (between : list Event) (st : State) :
  t ∈ injectedTabs st ->
  forallb (fun e => negb (forgets t e)) between = true ->
  t ∈ injectedTabs (run between st).
Proof.
  revert st. induction between as [|e between IH]; intros st Hin Hall; [exact Hin|].
  cbn in Hall. apply andb_true_iff in Hall as [He Hall].
  cbn [run fold_left]. apply IH; [|exact Hall].
  destruct e as [tab fails|t'|t'|]; cbn in He |- *.
  - apply injectIntoActiveTab_grows. exact Hin.
  - apply negb_true_iff, Nat.eqb_neq in He.
    apply elem_of_difference. split; [exact Hin|].
    rewrite elem_of_singleton. congruence.
  - apply negb_true_iff, Nat.eqb_neq in He.
    apply elem_of_difference. split; [exact Hin|].
    rewrite elem_of_singleton. congruence.
  - discriminate.
Qed.

Lemma injectIntoActiveTab_injected (tab : Tab) (t : nat) (scriptFails : bool) (st : State) :
  id tab = Some t -> (0 < t)%nat ->
  isInjectableUrl (url tab) = true ->
  t ∈ injectedTabs st ->
  injectIntoActiveTab (Some tab) scriptFails st
  = ({| success := true; tabId := Some t; resultUrl := url tab; error := None |}, st).
Proof.
  intros Hid Hpos Hurl Hin. unfold injectIntoActiveTab. rewrite Hid.
  destruct t as [|t]; [lia|]. rewrite Hurl. cbn [negb].
  unfold injectContentScript. rewrite bool_decide_eq_true_2 by exact Hin. reflexivity.
Qed.

Lemma injectIntoActiveTab_executed (tab : option Tab) (scriptFails : bool) (st : State) :
  let r := injectIntoActiveTab tab scriptFails st in
  executed (snd r) = executed st \/
  exists tb t,
    tab = Some tb /\ id tb = Some t /\ (0 < t)%nat /\
    isInjectableUrl (url tb) = true /\ (t ∉ injectedTabs st) /\
    executed (snd r) = executed st ++ [t].
Proof.
  cbv zeta. unfold injectIntoActiveTab.
  destruct tab as [tb|]; [|left; reflexivity].
  destruct (id tb) as [[|t]|] eqn:Hid; try (left; reflexivity).
  destruct (isInjectableUrl (url tb)) eqn:Hurl; cbn [negb]; [|left; reflexivity].
  unfold injectContentScript.
  destruct (bool_decide (S t ∈ injectedTabs st)) eqn:Hin; [left; reflexivity|].
  apply bool_decide_eq_false_1 in Hin.
  right. exists tb, (S t). destruct scriptFails; cbn; split_and!; auto; lia.
Qed.

Lemma injectIntoActiveTab_success (tab : option Tab) (scriptFails : bool) (st : State) :
  let r := injectIntoActiveTab tab scriptFails st in
  success (fst r) = true ->
  exists tb t,
    tab = Some tb /\ id tb = Some t /\ (0 < t)%nat /\
    isInjectableUrl (url tb) = true /\ t ∈ injectedTabs (snd r).
Proof.
  cbv zeta. unfold injectIntoActiveTab.
  destruct tab as [tb|]; [|discriminate].
  destruct (id tb) as [[|t]|] eqn:Hid; try discriminate.
  destruct (isInjectableUrl (url tb)) eqn:Hurl; cbn [negb]; [|discriminate].
  unfold injectContentScript.
  destruct (bool_decide (S t ∈ injectedTabs st)) eqn:Hin.
  - apply bool_decide_eq_true_1 in Hin. cbn. intros _.
    exists tb, (S t). split_and!; auto. lia.
  - destruct scriptFails; cbn; [discriminate|]. intros _.
    exists tb, (S t). split_and!; auto; [lia|].
    apply elem_of_union_l, elem_of_singleton. reflexivity.
Qed.

(** X21.  A tab is injected once per page load.  [injectIntoActiveTab]
    calls [executeScript] only for an active tab with a non-zero
    identifier, an [http://] or [https://] URL, and no recorded injection.
    When it reports success, the tab is such a tab and its injection is
    recorded; from then on, until the tab starts loading, is removed or the
    injector is initialised, every request for that tab succeeds without
    calling [executeScript] again, whatever happens to other tabs. *)
Theorem injection_is_kept (tab : option Tab) (scriptFails : bool) (st : State) :
  let r := injectIntoActiveTab tab scriptFails st in
  (executed (snd r) = executed st \/
   exists tb t,
     tab = Some tb /\ id tb = Some t /\ (0 < t)%nat /\
     isInjectableUrl (url tb) = true /\ (t ∉ injectedTabs st) /\
     executed (snd r) = executed st ++ [t]) /\
  (success (fst r) = true ->
   exists tb t,
     tab = Some tb /\ id tb = Some t /\ (0 < t)%nat /\
     isInjectableUrl (url tb) = true /\ t ∈ injectedTabs (snd r) /\
     forall between tab' scriptFails',
       id tab' = Some t ->
       isInjectableUrl (url tab') = true ->
       forallb (fun e => negb (forgets t e)) between = true ->
       injectIntoActiveTab (Some tab') scriptFails' (run between (snd r))
       = ({| success := true; tabId := Some t; resultUrl := url tab'; error := None |},
          run between (snd r))).
Proof.
  cbv zeta. split; [apply injectIntoActiveTab_executed|].
  intros Hok.
  destruct (injectIntoActiveTab_success tab scriptFails st Hok)
    as (tb & t & -> & Hid & Hpos & Hurl & Hin).
  exists tb, t. split_and!; auto.
  intros between tab' fails' Hid' Hurl' Hall.
  apply injectIntoActiveTab_injected; auto.
  apply run_keeps; assumption.
Qed.

End InjectorFacts.

(** ** Orchestrator: progress reports *)

Section ProgressFacts.
Import LinkValidator Limiter Orchestrator.
Local Open Scope nat_scope.
Local Open Scope list_scope.

Variable o : Oracle.
Variable config : Config.

(** *** Slots *)

Lemma defined_insert (sl : list (option ValidationResult.t)) (i : nat)
    (v : ValidationResult.t) :
  sl !! i = Some None ->
  defined (<[i := Some v]> sl) ≡ₚ defined sl ++ [v].
Proof.
  revert i. induction sl as [|x sl IH]; intros i Hi; [discriminate|].
  destruct i as [|i]; cbn in Hi.
  - injection Hi as ->. cbn. unfold defined. cbn.
    change (omap id sl) with (defined sl).
    apply Permutation_cons_append.
  - cbn [insert list_insert]. unfold defined in *.
    destruct x as [r|]; cbn.
    + change (omap id ?l) with (defined l). unfold defined. rewrite (IH i Hi). reflexivity.
    + apply (IH i Hi).
Qed.

Lemma RInv_mono (next next' : nat) (b : Batch) :
  next <= next' -> RInv next b -> RInv next' b.
Proof.
  intros Hle (Hnd & Hall & Hfilled & Hc). split_and!; auto.
  - eapply Forall_impl; [exact Hall|]. cbn. intros i [? ?]. split; [lia|assumption].
  - intros i r Hi. specialize (Hfilled i r Hi). lia.
Qed.

(** *** Tasks up to their suspension *)

Lemma enter_reported fuel batch index b st :
  reported (snd (enter fuel batch index b st)) = reported st.
Proof.
  revert index b. induction fuel as [|fuel IH]; intros index b; cbn.
  - destruct (aborted st); [destruct (release (semaphore b)) as [[j|] s']; reflexivity|].
    destruct (batch !! index); reflexivity.
  - destruct (aborted st).
    + destruct (release (semaphore b)) as [[j|] s']; [apply IH|reflexivity].
    + destruct (batch !! index); reflexivity.
Qed.

Lemma enter_rinv fuel batch next index b st :
  RInv next b ->
  index ∉ listed b -> index < next -> slots b !! index = Some None ->
  index < length batch ->
  length (waiting (semaphore b)) <= fuel ->
  RInv next (fst (enter fuel batch index b st)).
Proof.
  intros (Hnd & Hall & Hfilled & Hc) Hnew Hlt Hslot Hidx Hfuel.
  destruct (aborted st) eqn:Ha.
  - rewrite enter_aborted by assumption. unfold RInv, listed in *. cbn.
    rewrite app_nil_r. apply NoDup_app in Hnd as (Hnd & _ & _).
    apply Forall_app in Hall as [Hall _]. split_and!; auto.
  - destruct (lookup_lt_is_Some_2 batch index Hidx) as [link Hl].
    rewrite (enter_live _ _ _ link) by assumption. unfold RInv, listed in *. cbn.
    rewrite map_app. cbn. rewrite <- app_assoc. cbn.
    split_and!; auto.
    + apply NoDup_app in Hnd as (Hnd1 & Hdisj & Hnd2).
      apply NoDup_app. split_and!; [exact Hnd1| |].
      * intros x Hx. rewrite elem_of_cons. intros [->|Hx'].
        -- apply Hnew. apply elem_of_app. left. exact Hx.
        -- exact (Hdisj x Hx Hx').
      * apply NoDup_cons. split; [|exact Hnd2].
        intros Hin. apply Hnew. apply elem_of_app. right. exact Hin.
    + apply Forall_app in Hall as [Hall1 Hall2].
      apply Forall_app. split; [exact Hall1|]. constructor; [split; assumption|exact Hall2].
Qed.

Lemma spawn_reported batch b st index :
  reported (snd (spawn batch (b, st) index)) = reported st.
Proof.
  unfold spawn. destruct (aborted st); [reflexivity|].
  destruct (acquire index (semaphore b)) as [[] s']; [apply enter_reported|reflexivity].
Qed.

Lemma spawn_rinv batch n index b st :
  BInv batch n 0 b ->
  RInv index b ->
  index < length batch ->
  RInv (S index) (fst (spawn batch (b, st) index)).
Proof.
  intros HB HR Hidx. pose proof HB as (Hlen & Hslots & Hin & Hw & Hsum & Hq).
  pose proof HR as (Hnd & Hall & Hfilled & Hc).
  assert (Hslot : slots b !! index = Some None).
  { destruct (lookup_lt_is_Some_2 (slots b) index ltac:(lia)) as [[r|] Hx]; [|exact Hx].
    specialize (Hfilled index r Hx). lia. }
  assert (Hnew : index ∉ listed b).
  { intros Hx. rewrite Forall_forall in Hall. destruct (Hall index Hx). lia. }
  unfold spawn. destruct (aborted st) eqn:Ha.
  - cbn. apply (RInv_mono index); [lia|exact HR].
  - destruct (Nat.eq_dec (permits (semaphore b)) 0) as [Hp|Hp].
    + rewrite acquire_busy by exact Hp. cbn. unfold RInv, listed in *. cbn.
      rewrite app_assoc. split_and!; auto.
      * apply NoDup_app. split_and!; [exact Hnd| |apply NoDup_singleton].
        intros x Hx. rewrite list_elem_of_singleton. intros ->. exact (Hnew Hx).
      * apply Forall_app. split.
        -- eapply Forall_impl; [exact Hall|]. cbn. intros i [? ?]. split; [lia|assumption].
        -- constructor; [|constructor]. split; [lia|exact Hslot].
      * intros i r Hi. specialize (Hfilled i r Hi). lia.
    + rewrite acquire_free by lia.
      apply enter_rinv; cbn; auto; try lia;
        try (apply (RInv_mono index); [lia|exact HR]).
Qed.

Lemma spawn_fold_rinv batch n (k m : nat) b st :
  BInv batch n 0 b ->
  RInv k b ->
  k + m <= length batch ->
  let r := fold_left (spawn batch) (seq k m) (b, st) in
  RInv (k + m) (fst r) /\ reported (snd r) = reported st /\ slots (fst r) = slots b.
Proof.
  revert k b st. induction m as [|m IH]; intros k b st HB HR Hle.
  - cbn. rewrite Nat.add_0_r. split_and!; [exact HR|reflexivity|reflexivity].
  - cbn [seq fold_left].
    destruct (spawn_inv batch n k b st HB ltac:(lia)) as (HB' & _ & _ & _ & Hsl & _).
    pose proof (spawn_rinv batch n k b st HB HR ltac:(lia)) as HR'.
    pose proof (spawn_reported batch b st k) as Hrep.
    destruct (spawn batch (b, st) k) as [b' st']. cbn [fst snd] in *.
    destruct (IH (S k) b' st' HB' HR' ltac:(lia)) as (H1 & H2 & H3).
    replace (k + S m) with (S k + m) by lia.
    split_and!; [exact H1|rewrite H2; exact Hrep|rewrite H3; exact Hsl].
Qed.

(** *** Tasks that finish *)

Lemma leave_frame batch n b st :
  BInv batch n 1 b ->
  let r := leave batch b st in
  slots (fst r) = slots b /\ completedInBatch (fst r) = completedInBatch b /\
  reported (snd r) = reported st.
Proof.
  intros (Hlen & Hslots & Hin & Hw & Hsum & Hq). cbv zeta.
  unfold leave, release.
  destruct (waiting (semaphore b)) as [|j rest] eqn:E; [split_and!; reflexivity|].
  apply Forall_cons in Hw as [Hj Hrest].
  pose proof (enter_inv (length rest) batch n j
                (withSemaphore {| permits := permits (semaphore b); waiting := rest |} b) st)
    as H.
  destruct H as (_ & _ & _ & _ & H5 & H6).
  - unfold BInv; cbn; split_and!; auto; try (intros _; apply Hq; congruence).
  - exact Hj.
  - cbn. lia.
  - cbn in *. split_and!; [exact H5|exact H6|apply enter_reported].
Qed.

Lemma leave_rinv batch n next b st :
  BInv batch n 1 b ->
  RInv next b ->
  RInv next (fst (leave batch b st)).
Proof.
  intros (Hlen & Hslots & Hin & Hw & Hsum & Hq) (Hnd & Hall & Hfilled & Hc).
  unfold leave, release.
  destruct (waiting (semaphore b)) as [|j rest] eqn:E.
  - unfold RInv, listed in *. cbn. rewrite E in *. split_and!; auto.
  - apply Forall_cons in Hw as [Hj Hrest].
    unfold listed in *. rewrite E in *.
    apply NoDup_app in Hnd as (Hnd1 & Hdisj & Hnd2).
    apply NoDup_cons in Hnd2 as [Hj2 Hnd2].
    apply Forall_app in Hall as [Hall1 Hall2].
    apply Forall_cons in Hall2 as [[Hjn Hjs] Hall2].
    apply enter_rinv; cbn; auto.
    + unfold RInv, listed. cbn. split_and!; auto.
      * apply NoDup_app. split_and!; auto.
        intros x Hx Hx'. apply (Hdisj x Hx). right. exact Hx'.
      * apply Forall_app. split; assumption.
    + unfold listed. cbn. rewrite elem_of_app. intros [Hx|Hx].
      * apply (Hdisj j Hx). left.
      * exact (Hj2 Hx).
Qed.

Lemma tick_reported st : reported (snd (tick o st)) = reported st.
Proof.
  unfold tick. cbn. destruct (cancelAt o (clock st)); [|reflexivity].
  unfold cancel. destruct (abortController st); reflexivity.
Qed.

Lemma CountsUp_snoc (from totalLinks : nat) (rep : list ValidationProgress.t)
    (rs rs' : list ValidationResult.t) (v : ValidationResult.t) :
  CountsUp from totalLinks rep rs ->
  rs' ≡ₚ rs ++ [v] ->
  CountsUp from totalLinks
    (rep ++ [{| ValidationProgress.total := totalLinks;
                ValidationProgress.completed := from + S (length rs);
                ValidationProgress.current := Some v |}]) rs'.
Proof.
  intros (Hc & Ht & Hp) Hrs. unfold CountsUp.
  rewrite (Permutation_length Hrs), length_app. cbn [length].
  replace (length rs + 1) with (S (length rs)) by lia.
  rewrite seq_S, map_app, Hc. cbn [map ValidationProgress.completed].
  split_and!.
  - f_equal. f_equal. lia.
  - apply Forall_app. split; [exact Ht|]. constructor; [reflexivity|constructor].
  - rewrite omap_app. cbn. rewrite Hp. symmetry. exact Hrs.
Qed.

Lemma settle_reports batch n next hasSignal startIndex totalLinks reported0 b st b' st' :
  BInv batch n 0 b ->
  RInv next b ->
  Rep (progressCallback st) startIndex totalLinks reported0 b st ->
  inflight b <> [] ->
  settle o config batch hasSignal startIndex totalLinks b st = (Returns b', st') ->
  RInv next b' /\ Rep (progressCallback st) startIndex totalLinks reported0 b' st'.
Proof.
  intros (Hlen & Hslots & Hin & Hw & Hsum & Hq) HR (rep & Hrep & Hcount) Hne.
  pose proof HR as (Hnd & Hall & Hfilled & Hc).
  unfold settle, andThen, get, modify.
  pose proof (quiet_tick o batch st) as Hqt.
  pose proof (tick_reported st) as Htr.
  destruct (tick o st) as [ot st1] eqn:Et.
  assert (ot = Returns tt) as -> by (unfold tick in Et; congruence).
  cbn in Hqt, Htr.
  assert (Hcb : progressCallback st1 = progressCallback st) by apply Hqt.
  set (k := (settles o (clock st1) mod length (inflight b))%nat).
  assert (Hk : (k < length (inflight b))%nat).
  { apply Nat.mod_upper_bound. destruct (inflight b); cbn; congruence. }
  destruct (lookup_lt_is_Some_2 _ _ Hk) as [[index called] Hlk].
  rewrite Hlk.
  assert (Hidx : (index < length batch)%nat).
  { exact (Forall_lookup_1 _ _ _ _ Hin Hlk). }
  destruct (lookup_lt_is_Some_2 batch index Hidx) as [link Hl].
  rewrite Hl.
  set (w := {| fetch := net o (clock st1); now := date o called |}).
  set (vc := validatorConfig config hasSignal (aborted st1)).
  destruct (validateLink_returns w link vc) as (v & fr & Hrun).
  pose proof (validateLink_descriptor w link vc v) as Hdesc.
  rewrite Hrun in *. cbn [fst]. specialize (Hdesc eq_refl).
  set (st2 := if progressCallback st1 then _ else st1).
  match goal with |- context [leave batch ?x st2] => set (b2 := x) end.
  (* the settled link was listed: its slot was empty *)
  assert (Hlisted : index ∈ listed b).
  { unfold listed. apply elem_of_app. left.
    apply (list_elem_of_fmap_2' fst _ (index, called)); [|reflexivity].
    eapply list_elem_of_lookup_2. exact Hlk. }
  assert (Hslot : slots b !! index = Some None /\ index < next).
  { rewrite Forall_forall in Hall. destruct (Hall index Hlisted). split; assumption. }
  destruct Hslot as [Hslot Hnext].
  assert (Hperm : defined (slots b2) ≡ₚ defined (slots b) ++ [v]).
  { subst b2. cbn. apply defined_insert. exact Hslot. }
  assert (HB2 : BInv batch n 1 b2).
  { subst b2. repeat split; cbn.
    - rewrite length_insert. exact Hlen.
    - intros i r Hi. destruct (decide (i = index)) as [->|Hne'].
      + rewrite list_lookup_insert_eq in Hi by lia.
        injection Hi as <-. rewrite Hdesc. exact Hl.
      + rewrite list_lookup_insert_ne in Hi by congruence. eauto.
    - apply Forall_delete. exact Hin.
    - exact Hw.
    - rewrite length_delete by eauto. lia.
    - exact Hq. }
  assert (Hcnt : completedInBatch b2 = length (defined (slots b2))).
  { rewrite (Permutation_length Hperm), length_app. subst b2. cbn. lia. }
  assert (HR2 : RInv next b2).
  { subst b2. unfold RInv, listed in *. cbn.
    assert (Hsplit : inflight b = take k (inflight b) ++ (index, called) :: drop (S k) (inflight b)).
    { symmetry. apply take_drop_middle. exact Hlk. }
    assert (Hdel : delete k (inflight b) = take k (inflight b) ++ drop (S k) (inflight b)).
    { apply delete_take_drop. }
    rewrite Hdel. rewrite Hsplit in Hnd, Hall.
    rewrite !map_app in *. cbn [map fst] in *.
    rewrite <- !app_assoc in *. cbn [app] in *.
    apply NoDup_app in Hnd as (Hnd1 & Hdisj & Hnd2).
    apply NoDup_cons in Hnd2 as [Hnot Hnd2].
    apply Forall_app in Hall as [Hall1 Hall2].
    apply Forall_cons in Hall2 as [_ Hall2].
    assert (Hother : forall i, i ∈ map fst (take k (inflight b))
                                   ++ map fst (drop (S k) (inflight b)) ++ waiting (semaphore b) ->
                               i <> index).
    { intros i Hi ->. apply elem_of_app in Hi as [Hi|Hi].
      - apply (Hdisj index Hi). left.
      - exact (Hnot Hi). }
    split_and!.
    - apply NoDup_app. split_and!; auto.
      intros x Hx Hx'. apply (Hdisj x Hx). right. exact Hx'.
    - apply Forall_forall. intros i Hi.
      assert (Hi' : i ∈ map fst (take k (inflight b))
                        ++ map fst (drop (S k) (inflight b)) ++ waiting (semaphore b)) by exact Hi.
      pose proof (Hother i Hi') as Hneq.
      apply elem_of_app in Hi as [Hi|Hi].
      + rewrite Forall_forall in Hall1. destruct (Hall1 i Hi) as [? ?].
        split; [assumption|]. rewrite list_lookup_insert_ne by congruence. assumption.
      + rewrite Forall_forall in Hall2. destruct (Hall2 i Hi) as [? ?].
        split; [assumption|]. rewrite list_lookup_insert_ne by congruence. assumption.
    - intros i r Hi. destruct (decide (i = index)) as [->|Hne']; [exact Hnext|].
      rewrite list_lookup_insert_ne in Hi by congruence. eauto.
    - exact Hcnt. }
  intros [= <- <-].
  destruct (leave_frame batch n b2 st2 HB2) as (Hs3 & Hc3 & Hr3).
  split; [apply (leave_rinv batch n); assumption|].
  unfold Rep. rewrite Hs3, Hr3.
  subst st2. rewrite Hcb. destruct (progressCallback st) eqn:Ecb.
  - eexists. split; [cbn; rewrite Htr, Hrep, <- app_assoc; reflexivity|].
    subst b2. cbn [completedInBatch].
    replace (startIndex + S (completedInBatch b))
      with (startIndex + S (length (defined (slots b)))) by (rewrite Hc; reflexivity).
    apply CountsUp_snoc; [exact Hcount|exact Hperm].
  - exists rep. split; [rewrite Htr; exact Hrep|exact Hcount].
Qed.


(** *** A batch *)

Lemma settleAll_reports batch n next hasSignal startIndex totalLinks reported0 fuel b st :
  (0 < n)%nat ->
  BInv batch n 0 b ->
  RInv next b ->
  Rep (progressCallback st) startIndex totalLinks reported0 b st ->
  (pending b <= fuel)%nat ->
  exists b' st',
    settleAll o config fuel batch hasSignal startIndex totalLinks b st = (Returns b', st') /\
    BInv batch n 0 b' /\ quiet batch st st' /\
    Rep (progressCallback st) startIndex totalLinks reported0 b' st'.
Proof.
  intros Hn. revert b st. induction fuel as [|fuel IH]; intros b st HB HR HRep Hp.
  - assert (inflight b = [] /\ waiting (semaphore b) = []) as [E1 E2].
    { unfold pending in Hp.
      destruct (inflight b), (waiting (semaphore b)); cbn in Hp; try lia. split; reflexivity. }
    cbn. rewrite E1, E2. eexists _, _. split; [reflexivity|].
    split_and!; [exact HB|apply quiet_refl|exact HRep].
  - cbn. destruct (inflight b) as [|x fl] eqn:E1.
    + assert (E2 : waiting (semaphore b) = []).
      { destruct HB as (_ & _ & _ & _ & Hsum & Hq). rewrite E1 in Hsum. cbn in Hsum.
        destruct (waiting (semaphore b)); [reflexivity|].
        specialize (Hq ltac:(congruence)). lia. }
      rewrite E2. eexists _, _. split; [reflexivity|].
      split_and!; [exact HB|apply quiet_refl|exact HRep].
    + destruct (settle_spec o config batch n hasSignal startIndex totalLinks b st HB)
        as (b' & st' & Hs & HB' & Hq' & Hp'); [congruence|].
      destruct (settle_reports batch n next hasSignal startIndex totalLinks reported0
                  b st b' st' HB HR HRep ltac:(congruence) Hs) as [HR' HRep'].
      unfold andThen. rewrite Hs.
      assert (Hcb : progressCallback st' = progressCallback st) by apply Hq'.
      rewrite <- Hcb in HRep'.
      destruct (IH b' st' HB' HR' HRep' ltac:(lia)) as (b'' & st'' & Hs' & HB'' & Hq'' & HRep'').
      rewrite Hs'. eexists _, _. split; [reflexivity|].
      split_and!; [exact HB''|eapply quiet_trans; eassumption|].
      rewrite <- Hcb. exact HRep''.
Qed.

Lemma defined_replicate (n : nat) : defined (replicate n None) = [].
Proof. induction n as [|n IH]; [reflexivity|exact IH]. Qed.

Lemma processBatch_reports batch startIndex totalLinks st :
  (0 < concurrency config)%nat ->
  exists rs st' rep,
    processBatch o config batch startIndex totalLinks st = (Returns rs, st') /\
    quiet batch st st' /\
    length rs <= length batch /\
    reported st' = reported st ++ rep /\
    if progressCallback st then CountsUp startIndex totalLinks rep rs else rep = [].
Proof.
  intros Hn. unfold processBatch, andThen, get, modify, pure.
  set (b0 := emptyBatch config batch).
  pose proof (emptyBatch_inv config batch) as HB0. fold b0 in HB0.
  assert (HR0 : RInv 0 b0).
  { subst b0. unfold RInv, listed, emptyBatch. cbn. split_and!.
    - constructor.
    - constructor.
    - intros i r Hi. apply lookup_replicate in Hi as [Hi _]. discriminate.
    - rewrite defined_replicate. reflexivity. }
  destruct (spawn_fold batch (concurrency config) (seq 0 (length batch)) b0 st HB0)
    as (HB1 & Hq1 & Hp1).
  { apply Forall_forall. intros i Hi. apply list_elem_of_In, in_seq in Hi. lia. }
  destruct (spawn_fold_rinv batch (concurrency config) 0 (length batch) b0 st HB0 HR0
              ltac:(lia)) as (HR1 & Hrep1 & Hsl1).
  cbv zeta in HR1, Hrep1, Hsl1.
  destruct (fold_left (spawn batch) (seq 0 (length batch)) (b0, st)) as [b1 st1].
  cbn [fst snd] in *.
  assert (Hcb1 : progressCallback st1 = progressCallback st) by apply Hq1.
  assert (HRep1 : Rep (progressCallback st1) startIndex totalLinks (reported st) b1 st1).
  { exists []. rewrite app_nil_r. split; [exact Hrep1|].
    destruct (progressCallback st1); [|reflexivity].
    rewrite Hsl1. subst b0. cbn. rewrite defined_replicate.
    unfold CountsUp. cbn. split_and!; constructor. }
  destruct (settleAll_reports batch (concurrency config) (0 + length batch)
              (isSome (abortController st)) startIndex totalLinks (reported st)
              (length batch) b1 st1 Hn HB1 HR1 HRep1)
    as (b2 & st2 & Hs & HB2 & Hq2 & (rep & Hrep2 & Hcount2)).
  { rewrite length_seq in Hp1. unfold pending in *. subst b0. cbn in *. lia. }
  rewrite Hs. exists (defined (slots b2)), st2, rep.
  split; [reflexivity|]. split_and!.
  - eapply quiet_trans; eassumption.
  - destruct HB2 as (Hlen & Hslots & _).
    pose proof (sublist_length _ _ (defined_sublist batch (slots b2) Hlen Hslots)) as Hle.
    rewrite length_map in Hle. exact Hle.
  - exact Hrep2.
  - rewrite <- Hcb1. exact Hcount2.
Qed.

(** *** What reports nothing *)

Lemma tick_silent st :
  reported (snd (tick o st)) = reported st /\
  progressCallback (snd (tick o st)) = progressCallback st.
Proof.
  split; [apply tick_reported|].
  unfold tick. cbn. destruct (cancelAt o (clock st)); [|reflexivity].
  unfold cancel. destruct (abortController st); reflexivity.
Qed.

Lemma Silent_pure {T} (v : T) : Silent (pure v).
Proof. intros st out st' [= <- <-]. split_and!; [discriminate|reflexivity..]. Qed.

Lemma Silent_throw {T} (t : Thrown) : Silent (@throw T t).
Proof. intros st out st' [= <- <-]. split_and!; [discriminate|reflexivity..]. Qed.

Lemma Silent_get : Silent get.
Proof. intros st out st' [= <- <-]. split_and!; [discriminate|reflexivity..]. Qed.

Lemma Silent_modify (f : State -> State) :
  (forall st, reported (f st) = reported st /\
              progressCallback (f st) = progressCallback st) ->
  Silent (modify f).
Proof.
  intros Hf st out st' [= <- <-]. destruct (Hf st). split_and!; [discriminate|assumption..].
Qed.

Lemma Silent_andThen {T U} (c : P T) (k : T -> P U) :
  Silent c -> (forall v, Silent (k v)) -> Silent (andThen c k).
Proof.
  intros Hc Hk st out st'. unfold andThen.
  destruct (c st) as [[v|t|] st1] eqn:E; destruct (Hc _ _ _ E) as (H0 & H1 & H2).
  - intros H. destruct (Hk v _ _ _ H) as (H3 & H4 & H5). split_and!; congruence.
  - intros [= <- <-]. split_and!; [discriminate|assumption..].
  - destruct H0. reflexivity.
Qed.

Lemma Silent_tick : Silent (tick o).
Proof.
  intros st out st' [= <- <-]. destruct (tick_silent st).
  split_and!; [discriminate|assumption..].
Qed.

Lemma Silent_writeObj r (f : Session.t -> Session.t) : Silent (writeObj r f).
Proof.
  intros st out st'. unfold writeObj.
  destruct (heap st !! r); intros [= <- <-]; split_and!; (discriminate || reflexivity).
Qed.

Lemma Silent_readObj r : Silent (readObj r).
Proof.
  intros st out st'. unfold readObj.
  destruct (heap st !! r); intros [= <- <-]; split_and!; (discriminate || reflexivity).
Qed.

Lemma Silent_saveSession r : Silent (saveSession o r).
Proof.
  unfold saveSession. apply Silent_andThen; [apply Silent_readObj|]. intros s.
  apply Silent_andThen; [apply Silent_get|]. intros st.
  destruct (saveFails o (clock st)).
  - apply Silent_andThen; [apply Silent_tick|]. intros _. apply Silent_throw.
  - apply Silent_andThen; [|intros _; apply Silent_tick].
    apply Silent_modify. intros st0. split; reflexivity.
Qed.

Lemma Silent_onError {T} (e : Thrown) : Silent (@onError o T e).
Proof.
  unfold onError. apply Silent_andThen; [apply Silent_get|]. intros st.
  apply Silent_andThen; [|intros; apply Silent_throw].
  destruct (aborted st); [|apply Silent_pure].
  destruct (currentSession st) as [r|]; [|apply Silent_pure].
  apply Silent_andThen; [apply Silent_writeObj|]. intros _. apply Silent_saveSession.
Qed.

(** The last writes of a run. *)
Lemma Silent_finish {T} (writes : nat -> P unit) (v : T) :
  (forall r, Silent (writes r)) ->
  forall st : State,
    Silent (let! _ := match currentSession st with
                      | Some r => writes r
                      | None => pure tt
                      end in pure v).
Proof.
  intros Hw st. apply Silent_andThen; [|intros; apply Silent_pure].
  destruct (currentSession st); [apply Hw|apply Silent_pure].
Qed.

(** The checkpoint of [processLinks] after a batch. *)
Lemma Silent_checkpoint startIndex (results : list ValidationResult.t) :
  forall st : State,
    Silent (match currentSession st with
            | Some r =>
                let! _ :=
                  writeObj r (fun s =>
                    Session.withResults
                      (slice (Session.results s) 0 startIndex ++ results) s) in
                let! _ := writeObj r (Session.withCompletedCount (startIndex + length results)) in
                saveSession o r
            | None => pure tt
            end).
Proof.
  intros st. destruct (currentSession st) as [r|]; [|apply Silent_pure].
  apply Silent_andThen; [apply Silent_writeObj|]. intros _.
  apply Silent_andThen; [apply Silent_writeObj|]. intros _.
  apply Silent_saveSession.
Qed.

(** [try { c; k } catch { h } finally { fin }] reports what [c] reports
    when the rest reports nothing. *)
Lemma guarded_reports {T U} (c : P T) (k : T -> P U) (h : Thrown -> P U)
    (fin : State -> State) st out st' :
  (forall v, Silent (k v)) ->
  (forall t, Silent (h t)) ->
  (forall s, reported (fin s) = reported s /\ progressCallback (fin s) = progressCallback s) ->
  finally (catch (andThen c k) h) fin st = (out, st') ->
  exists out1 st1,
    c st = (out1, st1) /\
    reported st' = reported st1 /\ progressCallback st' = progressCallback st1 /\
    (out = Diverges -> out1 = Diverges) /\
    forall v, out = Returns v ->
      (exists v1 sa sb, out1 = Returns v1 /\ k v1 sa = (Returns v, sb)) \/
      (exists t sa sb, h t sa = (Returns v, sb)).
Proof.
  intros Hk Hh Hfin. unfold finally, catch, andThen.
  destruct (c st) as [out1 st1] eqn:Ec. intros H. exists out1, st1.
  split; [reflexivity|].
  destruct out1 as [v1|t|].
  - destruct (k v1 st1) as [[v|t|] st2] eqn:Ek; destruct (Hk _ _ _ _ Ek) as (H0 & H1 & H2).
    + injection H as <- <-. destruct (Hfin st2) as [H3 H4].
      split_and!; [congruence|congruence|discriminate|].
      intros v' [= <-]. left. exists v1, st1, st2. split; [reflexivity|exact Ek].
    + destruct (h t st2) as [[v| |] st3] eqn:Eh; destruct (Hh _ _ _ _ Eh) as (H7 & H3 & H4);
        [| |destruct H7; reflexivity];
        injection H as <- <-; destruct (Hfin st3) as [H5 H6];
        (split_and!; [congruence|congruence|discriminate|]); intros v' [= <-].
      right. exists t, st2, st3. exact Eh.
    + destruct H0. reflexivity.
  - destruct (h t st1) as [[v| |] st3] eqn:Eh; destruct (Hh _ _ _ _ Eh) as (H7 & H3 & H4);
      [| |destruct H7; reflexivity];
      injection H as <- <-; destruct (Hfin st3) as [H5 H6];
      (split_and!; [congruence|congruence|discriminate|]); intros v' [= <-].
    right. exists t, st1, st3. exact Eh.
  - injection H as <- <-. split_and!; [reflexivity|reflexivity|reflexivity|discriminate].
Qed.

Lemma cleanup_silent s :
  reported (cleanup s) = reported s /\ progressCallback (cleanup s) = progressCallback s.
Proof. split; reflexivity. Qed.

Lemma finish_returns {T} (writes : P unit) (v v' : T) sa sb :
  (let! _ := writes in pure v) sa = (Returns v', sb) -> v' = v.
Proof.
  unfold andThen. destruct (writes sa) as [[[]| |] sx]; [|discriminate..].
  intros [= <- _]. reflexivity.
Qed.

(** *** The loop over the batches *)

Lemma CountsUp_nil (from totalLinks : nat) : CountsUp from totalLinks [] [].
Proof. unfold CountsUp. cbn. split_and!; constructor. Qed.

Lemma CountsUp_app (from totalLinks : nat) (rep1 rep2 : list ValidationProgress.t)
    (rs1 rs2 : list ValidationResult.t) :
  CountsUp from totalLinks rep1 rs1 ->
  CountsUp (from + length rs1) totalLinks rep2 rs2 ->
  CountsUp from totalLinks (rep1 ++ rep2) (rs1 ++ rs2).
Proof.
  intros (Hc1 & Ht1 & Hp1) (Hc2 & Ht2 & Hp2). unfold CountsUp. split_and!.
  - rewrite map_app, length_app, seq_app, Hc1, Hc2. f_equal.
  - apply Forall_app. split; assumption.
  - rewrite omap_app, Hp1, Hp2. reflexivity.
Qed.

Lemma forBatches_reports batches startIndex totalLinks :
  0 < concurrency config ->
  forall res st out st',
    forBatches o config batches startIndex totalLinks res st = (out, st') ->
    out <> Diverges /\
    progressCallback st' = progressCallback st /\
    exists rep new,
      reported st' = reported st ++ rep /\
      length new <= length (concat batches) /\
      (forall rs, out = Returns rs -> rs = res ++ new) /\
      if progressCallback st
      then CountsUp (startIndex + length res) totalLinks rep new
      else rep = [].
Proof.
  intros Hc. induction batches as [|batch rest IH]; intros res st out st'.
  - cbn. intros [= <- <-]. split; [discriminate|]. split; [reflexivity|]. exists [], [].
    rewrite !app_nil_r. split_and!; [reflexivity|cbn; lia|congruence|].
    destruct (progressCallback st); [apply CountsUp_nil|reflexivity].
  - cbn [forBatches]. unfold andThen at 1. unfold get at 1.
    destruct (aborted st).
    { intros [= <- <-]. split; [discriminate|]. split; [reflexivity|]. exists [], [].
      rewrite !app_nil_r. split_and!; [reflexivity|cbn; lia|congruence|].
      destruct (progressCallback st); [apply CountsUp_nil|reflexivity]. }
    unfold andThen at 1.
    destruct (processBatch_reports batch (startIndex + length res) totalLinks st Hc)
      as (rs1 & st1 & rep1 & Hrun & Hq & Hle1 & Hrep1 & Hcount1).
    rewrite Hrun. unfold andThen at 1. unfold get at 1.
    unfold andThen at 1.
    assert (Hcb1 : progressCallback st1 = progressCallback st) by apply Hq.
    match goal with |- context [match ?c st1 with _ => _ end] =>
      destruct (c st1) as [out2 st2] eqn:Ecp;
      destruct (Silent_checkpoint startIndex (res ++ rs1) st1 st1 out2 st2 Ecp)
        as (Hd2 & Hr2 & Hp2)
    end.
    destruct out2 as [[]|t|]; [|intros [= <- <-]|destruct Hd2; reflexivity].
    + intros H.
      destruct (IH _ _ _ _ H) as (Hd & Hcb & rep2 & new2 & Hrep2 & Hle2 & Hret & Hcount2).
      split; [exact Hd|]. split; [congruence|].
      exists (rep1 ++ rep2), (rs1 ++ new2). split_and!.
      * rewrite Hrep2, Hr2, Hrep1, app_assoc. reflexivity.
      * cbn [concat]. rewrite !length_app. lia.
      * intros rs E. rewrite (Hret rs E), app_assoc. reflexivity.
      * rewrite Hp2, Hcb1 in Hcount2. destruct (progressCallback st).
        -- apply CountsUp_app; [exact Hcount1|].
           rewrite length_app, Nat.add_assoc in Hcount2. exact Hcount2.
        -- rewrite Hcount1, Hcount2. reflexivity.
    + split; [discriminate|]. split; [congruence|]. exists rep1, rs1. split_and!.
      * rewrite Hr2. exact Hrep1.
      * cbn [concat]. rewrite length_app. lia.
      * intros rs E. discriminate E.
      * exact Hcount1.
Qed.

(** [processLinks] *)
Lemma processLinks_reports links st out st' :
  0 < concurrency config ->
  processLinks o config links st = (out, st') ->
  (0 < batchSize config -> out <> Diverges) /\
  progressCallback st' = progressCallback st /\
  exists rep new,
    reported st' = reported st ++ rep /\
    length new <= length links /\
    (forall rs, out = Returns rs -> rs = new) /\
    if progressCallback st
    then CountsUp (startIndexOf st) (totalLinksOf (length links) st) rep new
    else rep = [].
Proof.
  intros Hc. unfold processLinks. unfold andThen at 1. unfold get at 1.
  unfold andThen at 1.
  assert (Hstop : forall t : Outcome (list ValidationResult.t),
            (forall rs, t <> Returns rs) ->
            progressCallback st = progressCallback st /\
            exists rep new,
              reported st = reported st ++ rep /\
              length new <= length links /\
              (forall rs, t = Returns rs -> rs = new) /\
              if progressCallback st
              then CountsUp (startIndexOf st) (totalLinksOf (length links) st) rep new
              else rep = []).
  { intros t Ht. split; [reflexivity|]. exists [], []. rewrite app_nil_r.
    split_and!; [reflexivity|cbn; lia|intros rs E; destruct (Ht rs E)|].
    destruct (progressCallback st); [apply CountsUp_nil|reflexivity]. }
  assert (Hloop : 0 < batchSize config ->
            chunkLoop (length links) links (batchSize config) 0 [] <> None).
  { intros Hb.
    destruct (chunkLoop_spec links (batchSize config) (length links) 0 [] Hb ltac:(lia))
      as (bs & E & _).
    rewrite E. discriminate. }
  assert (Hgo : forall batches startIndex totalLinks,
            startIndex = startIndexOf st ->
            totalLinks = totalLinksOf (length links) st ->
            chunkLoop (length links) links (batchSize config) 0 [] = Some batches ->
            forBatches o config batches startIndex totalLinks [] st = (out, st') ->
            (0 < batchSize config -> out <> Diverges) /\
            progressCallback st' = progressCallback st /\
            exists rep new,
              reported st' = reported st ++ rep /\
              length new <= length links /\
              (forall rs, out = Returns rs -> rs = new) /\
              if progressCallback st
              then CountsUp (startIndexOf st) (totalLinksOf (length links) st) rep new
              else rep = []).
  { intros batches startIndex totalLinks -> -> Ech H.
    destruct (forBatches_reports _ _ _ Hc _ _ _ _ H)
      as (Hd & Hcb & rep & new & Hrep & Hle & Hret & Hcount).
    split; [intros _; exact Hd|].
    split; [exact Hcb|]. exists rep, new. split_and!.
    - exact Hrep.
    - destruct (Nat.eq_dec (batchSize config) 0) as [Hz|Hnz].
      + destruct links as [|l links'].
        * cbn in Ech. injection Ech as <-. cbn in Hle. cbn. lia.
        * rewrite Hz, chunkLoop_zero in Ech by (cbn; lia). discriminate.
      + destruct (chunkLoop_spec links (batchSize config) (length links) 0 []
                    ltac:(lia) ltac:(lia)) as (bs & E & Hbs).
        rewrite Ech in E. injection E as ->. cbn [app] in Hle.
        rewrite Hbs, drop_0 in Hle. exact Hle.
    - intros rs E. exact (Hret rs E).
    - cbn [length] in Hcount. rewrite Nat.add_0_r in Hcount. exact Hcount. }
  destruct (currentSession st) as [r|] eqn:Hcur.
  - unfold andThen at 1. unfold readObj.
    destruct (heap st !! r) as [s|] eqn:Hs.
    2:{ intros [= <- <-]. split; [discriminate|]. apply Hstop. discriminate. }
    cbn [pure].
    destruct (chunkLoop _ _ _ _ _) as [batches|] eqn:Ech.
    2:{ intros [= <- <-]. split; [intros Hb; destruct (Hloop Hb); reflexivity|].
        apply Hstop. discriminate. }
    apply Hgo; [| |reflexivity].
    + unfold startIndexOf. rewrite Hcur, Hs. reflexivity.
    + unfold totalLinksOf. rewrite Hcur, Hs. reflexivity.
  - cbn [pure].
    destruct (chunkLoop _ _ _ _ _) as [batches|] eqn:Ech.
    2:{ intros [= <- <-]. split; [intros Hb; destruct (Hloop Hb); reflexivity|].
        apply Hstop. discriminate. }
    apply Hgo; [| |reflexivity].
    + unfold startIndexOf. rewrite Hcur. reflexivity.
    + unfold totalLinksOf. rewrite Hcur. reflexivity.
Qed.

(** *** [start] *)

Lemma start_reports pageUrl links st out st' :
  isRunning st = false ->
  0 < concurrency config ->
  start o config pageUrl links st = (out, st') ->
  (0 < batchSize config -> out <> Diverges) /\
  exists rep new,
    reported st' = reported st ++ rep /\
    length new <= length links /\
    (forall rs, out = Returns rs -> rs = new) /\
    if progressCallback st then CountsUp 0 (length links) rep new else rep = [].
Proof.
  intros Hidle Hc.
  unfold start. unfold andThen at 1. cbn [get]. rewrite Hidle.
  unfold andThen at 1. unfold alloc at 1.
  set (s0 := createSession _ _ pageUrl links).
  set (r := length (heap st)).
  do 3 (unfold andThen at 1; unfold modify at 1).
  match goal with |- context [andThen (saveSession o r) _ ?x] => set (st2 := x) end.
  assert (Hs2 : heap st2 !! r = Some s0).
  { subst st2 r. cbn. rewrite lookup_app_r by lia. rewrite Nat.sub_diag. reflexivity. }
  unfold andThen at 1. rewrite (saveSession_eq o r s0 st2 Hs2).
  destruct (saveFails o (clock st2)).
  { intros [= <- <-]. split; [discriminate|]. exists [], []. rewrite app_nil_r.
    split_and!; [exact (proj1 (tick_silent st2))|cbn; lia|discriminate|].
    destruct (progressCallback st); [apply CountsUp_nil|reflexivity]. }
  set (st3 := snd (tick o (withStored s0 st2))).
  change (tick o (withStored s0 st2)) with (Returns tt, st3).
  cbv iota.
  assert (Hr3 : reported st3 = reported st).
  { subst st3. rewrite (proj1 (tick_silent _)). reflexivity. }
  assert (Hp3 : progressCallback st3 = progressCallback st).
  { subst st3. rewrite (proj2 (tick_silent _)). reflexivity. }
  assert (Hcur3 : currentSession st3 = Some r).
  { subst st3. rewrite tick_currentSession. reflexivity. }
  assert (Hh3 : heap st3 !! r = Some s0).
  { subst st3. rewrite tick_heap. exact Hs2. }
  intros H.
  apply guarded_reports in H as (out1 & st1 & Epl & Hr1 & _ & Hdiv & Hret).
  2:{ intros v. apply Silent_andThen; [apply Silent_get|]. intros stx.
      apply Silent_finish. intros r'.
      apply Silent_andThen; [apply Silent_writeObj|]. intros _.
      apply Silent_andThen; [apply Silent_writeObj|]. intros _.
      apply Silent_saveSession. }
  2:{ intros t. apply Silent_onError. }
  2:{ apply cleanup_silent. }
  destruct (processLinks_reports links st3 out1 st1 Hc Epl)
    as (Hd & _ & rep & new & Hrep & Hle & Hnew & Hcount).
  split; [intros Hb E; exact (Hd Hb (Hdiv E))|].
  exists rep, new. split_and!.
  - rewrite Hr1, Hrep, Hr3. reflexivity.
  - exact Hle.
  - intros rs E. destruct (Hret rs E) as [(v1 & sa & sb & -> & Hk)|(t & sa & sb & Hh)].
    + unfold andThen at 1 in Hk. cbn [get] in Hk.
      apply finish_returns in Hk. subst rs. apply Hnew. reflexivity.
    + destruct (onError_never_returns o t sa _ sb Hh rs). reflexivity.
  - rewrite Hp3 in Hcount.
    replace (startIndexOf st3) with 0 in Hcount
      by (unfold startIndexOf; rewrite Hcur3, Hh3; reflexivity).
    replace (totalLinksOf (length links) st3) with (length links) in Hcount
      by (unfold totalLinksOf; rewrite Hcur3, Hh3; reflexivity).
    exact Hcount.
Qed.

(** *** [resume] *)

Lemma resume_reports s st out st' :
  isRunning st = false ->
  storage st = Some s ->
  Session.status s = checking ->
  0 < concurrency config ->
  resume o config st = (out, st') ->
  (0 < batchSize config -> out <> Diverges) /\
  exists rep new,
    reported st' = reported st ++ rep /\
    length new <= length (Session.links s) - Session.completedCount s /\
    (forall rs, out = Returns (Some rs) -> exists kept, rs = kept ++ new) /\
    if progressCallback st
    then CountsUp (Session.completedCount s) (length (Session.links s)) rep new
    else rep = [].
Proof.
  intros Hidle Hsto Hstatus Hc.
  unfold resume. unfold andThen at 1. cbn [get]. rewrite Hidle.
  unfold andThen at 1. unfold loadSession. unfold andThen at 1. cbn [get].
  unfold andThen at 1. rewrite tick_eq. rewrite Hsto.
  unfold andThen at 1. unfold alloc. cbn [pure].
  set (st1 := snd (tick o st)).
  set (r := length (heap st1)).
  unfold andThen at 1. unfold readObj at 1. cbn [heap withHeap].
  rewrite lookup_app_r by (subst r; lia). subst r. rewrite Nat.sub_diag.
  cbn [lookup list_lookup]. rewrite Hstatus.
  set (r := length (heap st1)).
  do 3 (unfold andThen at 1; unfold modify at 1).
  match goal with |- finally _ _ ?x = _ -> _ => set (st2 := x) end.
  assert (Hs2 : heap st2 !! r = Some s).
  { subst st2 r. cbn. rewrite lookup_app_r by lia. rewrite Nat.sub_diag. reflexivity. }
  assert (Hr2 : reported st2 = reported st).
  { subst st2 st1. cbn. apply tick_silent. }
  assert (Hp2 : progressCallback st2 = progressCallback st).
  { subst st2 st1. cbn. apply tick_silent. }
  assert (Hcur2 : currentSession st2 = Some r) by reflexivity.
  intros H.
  match type of H with
  | finally (catch (andThen _ ?body) ?h) ?fin _ = _ =>
      assert (H' : finally (catch (body s) h) fin st2 = (out, st'))
  end.
  { unfold finally, catch in H |- *. unfold andThen at 1 in H.
    rewrite (readObj_eq r s st2 Hs2) in H. exact H. }
  clear H. cbv beta in H'.
  apply guarded_reports in H' as (out1 & st3 & Epl & Hr3 & _ & Hdiv & Hret).
  2:{ intros v. apply Silent_andThen; [apply Silent_readObj|]. intros sx.
      apply Silent_andThen; [apply Silent_get|]. intros stx.
      apply Silent_finish. intros r'.
      apply Silent_andThen; [apply Silent_writeObj|]. intros _.
      apply Silent_andThen; [apply Silent_writeObj|]. intros _.
      apply Silent_andThen; [apply Silent_writeObj|]. intros _.
      apply Silent_saveSession. }
  2:{ intros t. apply Silent_onError. }
  2:{ apply cleanup_silent. }
  destruct (processLinks_reports _ st2 out1 st3 Hc Epl)
    as (Hd & _ & rep & new & Hrep & Hle & Hnew & Hcount).
  split; [intros Hb E; exact (Hd Hb (Hdiv E))|].
  exists rep, new. split_and!.
  - rewrite Hr3, Hrep, Hr2. reflexivity.
  - unfold sliceFrom in Hle. rewrite length_drop in Hle. exact Hle.
  - intros rs E. destruct (Hret _ E) as [(v1 & sa & sb & -> & Hk)|(t & sa & sb & Hh)].
    + unfold andThen at 1 in Hk.
      destruct (readObj r sa) as [[sx| |] sy]; [|discriminate..].
      unfold andThen at 1 in Hk. cbn [get] in Hk.
      apply finish_returns in Hk. injection Hk as ->.
      exists (Session.results sx). rewrite (Hnew v1 eq_refl). reflexivity.
    + destruct (onError_never_returns o t sa _ sb Hh (Some rs)). reflexivity.
  - rewrite Hp2 in Hcount.
    replace (startIndexOf st2) with (Session.completedCount s) in Hcount
      by (unfold startIndexOf; rewrite Hcur2, Hs2; reflexivity).
    replace (totalLinksOf _ st2) with (length (Session.links s)) in Hcount
      by (unfold totalLinksOf; rewrite Hcur2, Hs2; reflexivity).
    exact Hcount.
Qed.

End ProgressFacts.

Section ProgressSpec.
Import LinkValidator Limiter Orchestrator Scenarios.
Local Open Scope nat_scope.
Local Open Scope list_scope.

Lemma CountsUp_length (from totalLinks : nat) (rep : list ValidationProgress.t)
    (rs : list ValidationResult.t) :
  CountsUp from totalLinks rep rs -> length rep = length rs.
Proof.
  intros (Hc & _). apply (f_equal length) in Hc.
  rewrite length_map, length_seq in Hc. exact Hc.
Qed.

(** X22.  The progress reports of a run.  A run of [start] on an idle
    processor with at least one permit and a positive batch size ends,
    whatever the order in which probes settle, the moment of cancellation
    and the storage failures.  With a callback registered, the reports it
    makes count 1, 2, 3, ... without a gap or a repeat, across the
    batches; each carries the number of links of the run as its total;
    there are at most as many as links; and when the run returns there is
    one report per outcome returned, the outcomes reported being those
    returned, in the order in which the probes settled.  Without a
    callback nothing is reported. *)
Theorem start_progress (o : Oracle) (config : Config) (pageUrl : string)
    (links : list LinkInfo.t) (st : State) :
  isRunning st = false ->
  0 < concurrency config ->
  0 < batchSize config ->
  exists out st' rep,
    start o config pageUrl links st = (out, st') /\
    out <> Diverges /\
    reported st' = reported st ++ rep /\
    if progressCallback st then
      map ValidationProgress.completed rep = seq 1 (length rep) /\
      Forall (fun p => ValidationProgress.total p = length links) rep /\
      length rep <= length links /\
      (forall rs, out = Returns rs ->
         length rep = length rs /\ omap ValidationProgress.current rep ≡ₚ rs)
    else rep = [].
Proof.
  intros Hidle Hc Hb.
  destruct (start o config pageUrl links st) as [out st'] eqn:E.
  destruct (start_reports o config pageUrl links st out st' Hidle Hc E)
    as (Hd & rep & new & Hrep & Hle & Hret & Hcount).
  exists out, st', rep. split_and!; [reflexivity|exact (Hd Hb)|exact Hrep|].
  destruct (progressCallback st); [|exact Hcount].
  pose proof (CountsUp_length _ _ _ _ Hcount) as Hlen.
  destruct Hcount as (Hc1 & Ht & Hp). rewrite Hlen. split_and!.
  - exact Hc1.
  - exact Ht.
  - exact Hle.
  - intros rs Hrs. rewrite (Hret rs Hrs). split; [reflexivity|exact Hp].
Qed.

Lemma start_progress_witness :
  exists out st' rep,
    start (world (fun _ => 2) []) defaultConfig "https://example.test/" (page 3)
      (onProgress (initialState None)) = (out, st') /\
    out <> Diverges /\
    reported st' = [] ++ rep /\
    map ValidationProgress.completed rep = seq 1 (length rep) /\
    Forall (fun p => ValidationProgress.total p = length (page 3)) rep /\
    length rep <= length (page 3) /\
    (forall rs, out = Returns rs ->
       length rep = length rs /\ omap ValidationProgress.current rep ≡ₚ rs).
Proof.
  exact (start_progress (world (fun _ => 2) []) defaultConfig "https://example.test/"
           (page 3) (onProgress (initialState None)) eq_refl
           (Nat.lt_0_succ 4) (Nat.lt_0_succ 19)).
Defined.

(** X23.  The progress reports of a resumed run.  A [resume()] on an idle
    processor whose storage holds a session in status 'checking' ends,
    with at least one permit and a positive batch size.  With a callback
    registered, its reports continue the count of the stored session:
    they count completedCount + 1, completedCount + 2, ... without a gap
    or a repeat; each carries the number of links of the stored session
    as its total; there are at most as many as links left after the
    stored count; the outcomes they carry are the outcomes of this run in
    the order in which the probes settled, and what [resume] returns ends
    with these outcomes.  Without a callback nothing is reported. *)
Theorem resume_progress (o : Oracle) (config : Config) (s : Session.t) (st : State) :
  isRunning st = false ->
  storage st = Some s ->
  Session.status s = checking ->
  0 < concurrency config ->
  0 < batchSize config ->
  exists out st' rep,
    resume o config st = (out, st') /\
    out <> Diverges /\
    reported st' = reported st ++ rep /\
    if progressCallback st then
      map ValidationProgress.completed rep
        = seq (S (Session.completedCount s)) (length rep) /\
      Forall (fun p => ValidationProgress.total p = length (Session.links s)) rep /\
      length rep <= length (Session.links s) - Session.completedCount s /\
      exists new,
        omap ValidationProgress.current rep ≡ₚ new /\ length rep = length new /\
        forall rs, out = Returns (Some rs) -> exists kept, rs = kept ++ new
    else rep = [].
Proof.
  intros Hidle Hsto Hstatus Hc Hb.
  destruct (resume o config st) as [out st'] eqn:E.
  destruct (resume_reports o config s st out st' Hidle Hsto Hstatus Hc E)
    as (Hd & rep & new & Hrep & Hle & Hret & Hcount).
  exists out, st', rep. split_and!; [reflexivity|exact (Hd Hb)|exact Hrep|].
  destruct (progressCallback st); [|exact Hcount].
  pose proof (CountsUp_length _ _ _ _ Hcount) as Hlen.
  destruct Hcount as (Hc1 & Ht & Hp). rewrite Hlen. split_and!.
  - exact Hc1.
  - exact Ht.
  - exact Hle.
  - exists new. split_and!; [exact Hp|reflexivity|exact Hret].
Qed.

Lemma resume_progress_witness :
  exists out st' rep,
    resume (world (fun _ => 0) []) defaultConfig
      (onProgress (initialState (Some interrupted))) = (out, st') /\
    out <> Diverges /\
    reported st' = [] ++ rep /\
    map ValidationProgress.completed rep = seq 21 (length rep) /\
    Forall (fun p => ValidationProgress.total p = length (page 25)) rep /\
    length rep <= length (page 25) - 20 /\
    exists new,
      omap ValidationProgress.current rep ≡ₚ new /\ length rep = length new /\
      forall rs, out = Returns (Some rs) -> exists kept, rs = kept ++ new.
Proof.
  exact (resume_progress (world (fun _ => 0) []) defaultConfig interrupted
           (onProgress (initialState (Some interrupted))) eq_refl eq_refl eq_refl
           (Nat.lt_0_succ 4) (Nat.lt_0_succ 19)).
Defined.

End ProgressSpec.

(** ** Orchestrator: a run that is not cancelled *)

Section UncancelledFacts.
Import LinkValidator Limiter Orchestrator.
Local Open Scope nat_scope.
Local Open Scope list_scope.

Variable o : Oracle.
Variable config : Config.
Hypothesis never_cancelled : forall t, cancelAt o t = false.

(** *** The signal stays as it is *)

Lemma tick_abortController st : abortController (snd (tick o st)) = abortController st.
Proof. unfold tick. rewrite never_cancelled. reflexivity. Qed.

Lemma enter_abortController fuel batch index b st :
  abortController (snd (enter fuel batch index b st)) = abortController st.
Proof.
  revert index b. induction fuel as [|fuel IH]; intros index b; cbn.
  - destruct (aborted st); [destruct (release (semaphore b)) as [[j|] s']; reflexivity|].
    destruct (batch !! index); reflexivity.
  - destruct (aborted st).
    + destruct (release (semaphore b)) as [[j|] s']; [apply IH|reflexivity].
    + destruct (batch !! index); reflexivity.
Qed.

Lemma leave_abortController batch b st :
  abortController (snd (leave batch b st)) = abortController st.
Proof.
  unfold leave. destruct (release (semaphore b)) as [[j|] s'];
    [apply enter_abortController|reflexivity].
Qed.

Lemma aborted_eq st st' : abortController st' = abortController st -> aborted st' = aborted st.
Proof. unfold aborted. intros ->. reflexivity. Qed.

(** *** Tasks up to their suspension *)

Lemma Covered_mono (next : nat) (b b' : Batch) :
  (forall i, i ∈ listed b -> i ∈ listed b') ->
  slots b' = slots b ->
  Covered next b -> Covered next b'.
Proof.
  intros Hl Hs H i Hi. destruct (H i Hi) as [Hin|Hf]; [left; auto|right].
  rewrite Hs. exact Hf.
Qed.

Lemma spawn_covered batch index b st :
  aborted st = false ->
  index < length batch ->
  Covered index b ->
  Covered (S index) (fst (spawn batch (b, st) index)).
Proof.
  intros Ha Hidx HC. unfold spawn. rewrite Ha.
  destruct (lookup_lt_is_Some_2 batch index Hidx) as [link Hl].
  assert (Hgo : forall b', slots b' = slots b ->
            (forall i, i ∈ listed b -> i ∈ listed b') -> index ∈ listed b' ->
            Covered (S index) b').
  { intros b' Hs Hsub Hin i Hi.
    destruct (decide (i = index)) as [->|Hne]; [left; exact Hin|].
    destruct (HC i ltac:(lia)) as [H|H]; [left; auto|right; rewrite Hs; exact H]. }
  destruct (Nat.eq_dec (permits (semaphore b)) 0) as [Hp|Hp].
  - rewrite acquire_busy by exact Hp. cbn. apply Hgo; [reflexivity| |].
    + intros i. unfold listed. cbn. rewrite !elem_of_app. tauto.
    + unfold listed. cbn. rewrite !elem_of_app, list_elem_of_singleton. tauto.
  - rewrite acquire_free by lia. rewrite (enter_live _ _ _ link) by assumption.
    cbn. apply Hgo; [reflexivity| |].
    + intros i. unfold listed. cbn. rewrite map_app, !elem_of_app. tauto.
    + unfold listed. cbn. rewrite map_app, !elem_of_app. cbn.
      rewrite list_elem_of_singleton. tauto.
Qed.

Lemma spawn_fold_covered batch n (k m : nat) b st :
  BInv batch n 0 b ->
  aborted st = false ->
  k + m <= length batch ->
  Covered k b ->
  let r := fold_left (spawn batch) (seq k m) (b, st) in
  Covered (k + m) (fst r) /\ aborted (snd r) = false.
Proof.
  revert k b st. induction m as [|m IH]; intros k b st HB Ha Hle HC.
  - cbn. rewrite Nat.add_0_r. split; assumption.
  - cbn [seq fold_left].
    destruct (spawn_inv batch n k b st HB ltac:(lia)) as (HB' & _ & Ha' & _).
    pose proof (spawn_covered batch k b st Ha ltac:(lia) HC) as HC'.
    destruct (spawn batch (b, st) k) as [b' st']. cbn [fst snd] in *.
    replace (k + S m) with (S k + m) by lia.
    apply IH; auto; [congruence|lia].
Qed.

(** *** Tasks that finish *)

Lemma leave_covered batch n next b st :
  BInv batch n 1 b ->
  aborted st = false ->
  Covered next b ->
  Covered next (fst (leave batch b st)).
Proof.
  intros (Hlen & Hslots & Hin & Hw & Hsum & Hq) Ha HC.
  unfold leave, release.
  destruct (waiting (semaphore b)) as [|j rest] eqn:E.
  - cbn. eapply Covered_mono; [| |exact HC]; [|reflexivity].
    intros i. unfold listed. cbn. rewrite E. tauto.
  - apply Forall_cons in Hw as [Hj Hrest].
    destruct (lookup_lt_is_Some_2 batch j Hj) as [link Hl].
    rewrite (enter_live _ _ _ link) by assumption. cbn.
    eapply Covered_mono; [| |exact HC]; [|reflexivity].
    intros i. unfold listed. cbn. rewrite E, map_app, !elem_of_app. cbn.
    rewrite list_elem_of_singleton, elem_of_cons. tauto.
Qed.

Lemma settle_covered batch n next hasSignal startIndex totalLinks b st b' st' :
  BInv batch n 0 b ->
  aborted st = false ->
  Covered next b ->
  inflight b <> [] ->
  settle o config batch hasSignal startIndex totalLinks b st = (Returns b', st') ->
  Covered next b' /\ aborted st' = false.
Proof.
  intros (Hlen & Hslots & Hin & Hw & Hsum & Hq) Ha HC Hne.
  unfold settle, andThen, get, modify.
  pose proof (tick_abortController st) as Hta.
  destruct (tick o st) as [ot st1] eqn:Et.
  assert (ot = Returns tt) as -> by (unfold tick in Et; congruence).
  cbn in Hta.
  assert (Ha1 : aborted st1 = false) by (rewrite (aborted_eq _ _ Hta); exact Ha).
  set (k := (settles o (clock st1) mod length (inflight b))%nat).
  assert (Hk : (k < length (inflight b))%nat).
  { apply Nat.mod_upper_bound. destruct (inflight b); cbn; congruence. }
  destruct (lookup_lt_is_Some_2 _ _ Hk) as [[index called] Hlk].
  rewrite Hlk.
  assert (Hidx : (index < length batch)%nat).
  { exact (Forall_lookup_1 _ _ _ _ Hin Hlk). }
  destruct (lookup_lt_is_Some_2 batch index Hidx) as [link Hl].
  rewrite Hl.
  set (w := {| fetch := net o (clock st1); now := date o called |}).
  set (vc := validatorConfig config hasSignal (aborted st1)).
  destruct (validateLink_returns w link vc) as (v & fr & Hrun).
  pose proof (validateLink_descriptor w link vc v) as Hdesc.
  rewrite Hrun in *. cbn [fst]. specialize (Hdesc eq_refl).
  set (st2 := if progressCallback st1 then _ else st1).
  match goal with |- context [leave batch ?x st2] => set (b2 := x) end.
  assert (Ha2 : aborted st2 = false).
  { subst st2. destruct (progressCallback st1); exact Ha1. }
  assert (HB2 : BInv batch n 1 b2).
  { subst b2. repeat split; cbn.
    - rewrite length_insert. exact Hlen.
    - intros i r Hi. destruct (decide (i = index)) as [->|Hne'].
      + rewrite list_lookup_insert_eq in Hi by lia.
        injection Hi as <-. rewrite Hdesc. exact Hl.
      + rewrite list_lookup_insert_ne in Hi by congruence. eauto.
    - apply Forall_delete. exact Hin.
    - exact Hw.
    - rewrite length_delete by eauto. lia.
    - exact Hq. }
  assert (HC2 : Covered next b2).
  { intros i Hi. destruct (decide (i = index)) as [->|Hne'].
    - right. exists v. subst b2. cbn. apply list_lookup_insert_eq. lia.
    - destruct (HC i Hi) as [Hl'|[r Hr]].
      + left. subst b2. unfold listed in *. cbn.
        rewrite elem_of_app in *. destruct Hl' as [Hl'|Hl']; [left|right; exact Hl'].
        apply list_elem_of_fmap in Hl' as ([i' c'] & -> & Hic).
        apply list_elem_of_lookup in Hic as (pos & Hpos).
        apply (list_elem_of_fmap_2' fst _ (i', c')); [|reflexivity].
        destruct (decide (pos = k)) as [->|Hpk].
        { rewrite Hlk in Hpos. injection Hpos as -> ->. cbn in Hne'. congruence. }
        rewrite delete_take_drop. apply elem_of_app.
        destruct (decide (pos < k)) as [Hlt|Hge].
        * left. apply (list_elem_of_lookup_2 _ pos). rewrite lookup_take_lt by lia. exact Hpos.
        * right. apply (list_elem_of_lookup_2 _ (pos - S k)).
          rewrite lookup_drop. replace (S k + (pos - S k)) with pos by lia. exact Hpos.
      + right. exists r. subst b2. cbn. rewrite list_lookup_insert_ne by congruence. exact Hr. }
  intros [= <- <-]. split.
  - apply (leave_covered batch n); assumption.
  - rewrite (aborted_eq _ _ (leave_abortController batch b2 st2)). exact Ha2.
Qed.

(** *** A batch *)

Lemma settleAll_covered batch n next hasSignal startIndex totalLinks fuel b st b' st' :
  BInv batch n 0 b ->
  aborted st = false ->
  Covered next b ->
  settleAll o config fuel batch hasSignal startIndex totalLinks b st = (Returns b', st') ->
  Covered next b' /\ aborted st' = false /\ listed b' = [].
Proof.
  revert b st. induction fuel as [|fuel IH]; intros b st HB Ha HC.
  - cbn. destruct (inflight b) as [|x fl] eqn:E1; [|discriminate].
    destruct (waiting (semaphore b)) as [|j rest] eqn:E2; [|discriminate].
    intros [= <- <-]. split_and!; [exact HC|exact Ha|].
    unfold listed. rewrite E1, E2. reflexivity.
  - cbn. destruct (inflight b) as [|x fl] eqn:E1.
    + destruct (waiting (semaphore b)) as [|j rest] eqn:E2; [|discriminate].
      intros [= <- <-]. split_and!; [exact HC|exact Ha|].
      unfold listed. rewrite E1, E2. reflexivity.
    + destruct (settle_spec o config batch n hasSignal startIndex totalLinks b st HB)
        as (b1 & st1 & Hs & HB1 & _); [congruence|].
      destruct (settle_covered batch n next hasSignal startIndex totalLinks b st b1 st1
                  HB Ha HC ltac:(congruence) Hs) as [HC1 Ha1].
      unfold andThen. rewrite Hs. exact (IH b1 st1 HB1 Ha1 HC1).
Qed.

Lemma defined_full (sl : list (option ValidationResult.t)) :
  (forall i, i < length sl -> exists r, sl !! i = Some (Some r)) ->
  length (defined sl) = length sl.
Proof.
  induction sl as [|x sl IH]; intros H; [reflexivity|].
  destruct (H 0 ltac:(cbn; lia)) as [r Hr]. cbn in Hr. injection Hr as ->.
  unfold defined in *. cbn. f_equal. apply IH.
  intros i Hi. exact (H (S i) ltac:(cbn; lia)).
Qed.

Lemma sublist_full {T} (l k : list T) : l `sublist_of` k -> length l = length k -> l = k.
Proof.
  induction 1 as [|x l k H IH|x l k H IH]; intros Hlen.
  - reflexivity.
  - cbn in Hlen. f_equal. apply IH. lia.
  - apply sublist_length in H. cbn in Hlen. lia.
Qed.

(** Without a cancellation a batch gives one outcome per link. *)
Lemma processBatch_complete batch startIndex totalLinks st rs st' :
  0 < concurrency config ->
  aborted st = false ->
  processBatch o config batch startIndex totalLinks st = (Returns rs, st') ->
  map descriptor rs = batch /\ aborted st' = false.
Proof.
  intros Hn Ha Hrun.
  destruct (processBatch_sound o config batch startIndex totalLinks st Hn)
    as (rs' & st'' & Hrun' & _ & Hsub).
  rewrite Hrun in Hrun'. injection Hrun' as <- <-.
  revert Hrun. unfold processBatch, andThen, get, modify, pure.
  set (b0 := emptyBatch config batch).
  pose proof (emptyBatch_inv config batch) as HB0. fold b0 in HB0.
  assert (HC0 : Covered 0 b0) by (intros i Hi; lia).
  destruct (spawn_fold batch (concurrency config) (seq 0 (length batch)) b0 st HB0)
    as (HB1 & _ & Hp1).
  { apply Forall_forall. intros i Hi. apply list_elem_of_In, in_seq in Hi. lia. }
  destruct (spawn_fold_covered batch (concurrency config) 0 (length batch) b0 st HB0 Ha
              ltac:(lia) HC0) as (HC1 & Ha1).
  destruct (fold_left (spawn batch) (seq 0 (length batch)) (b0, st)) as [b1 st1].
  cbn [fst snd] in *.
  destruct (settleAll_spec o config batch (concurrency config) (isSome (abortController st))
              startIndex totalLinks (length batch) b1 st1 Hn HB1) as (b2 & st2 & Es & HB2 & _).
  { rewrite length_seq in Hp1. unfold pending in *. subst b0. cbn in *. lia. }
  rewrite Es. intros [= Hrs <-].
  destruct (settleAll_covered batch (concurrency config) (length batch)
              (isSome (abortController st)) startIndex totalLinks (length batch)
              b1 st1 b2 st2 HB1 Ha1 HC1 Es) as (HC2 & Ha2 & Hl2).
  split; [|exact Ha2].
  apply sublist_full; [exact Hsub|].
  rewrite length_map, <- Hrs. destruct HB2 as (Hlen & _).
  rewrite <- Hlen. apply defined_full. intros i Hi.
  destruct (HC2 i ltac:(lia)) as [Hin|Hf]; [|exact Hf].
  rewrite Hl2 in Hin. apply elem_of_nil in Hin. destruct Hin.
Qed.

(** *** The run *)

Lemma writeObj_abortController r (f : Session.t -> Session.t) st out st' :
  writeObj r f st = (out, st') -> abortController st' = abortController st.
Proof.
  unfold writeObj. destruct (heap st !! r); intros [= <- <-]; reflexivity.
Qed.

Lemma saveSession_abortController r st out st' :
  saveSession o r st = (out, st') -> abortController st' = abortController st.
Proof.
  destruct (heap st !! r) as [s|] eqn:Hs.
  - rewrite (saveSession_eq o r s st Hs).
    destruct (saveFails o (clock st)); intros [= <- <-].
    + apply tick_abortController.
    + apply (tick_abortController (withStored s st)).
  - unfold saveSession, andThen, readObj. rewrite Hs. intros [= <- <-]. reflexivity.
Qed.

Lemma forBatches_complete batches startIndex totalLinks :
  0 < concurrency config ->
  forall res st rs st',
    aborted st = false ->
    forBatches o config batches startIndex totalLinks res st = (Returns rs, st') ->
    map descriptor rs = map descriptor res ++ concat batches.
Proof.
  intros Hc. induction batches as [|batch rest IH]; intros res st rs st' Ha.
  - cbn. intros [= <- <-]. rewrite app_nil_r. reflexivity.
  - cbn [forBatches]. unfold andThen at 1. unfold get at 1. rewrite Ha.
    unfold andThen at 1.
    destruct (processBatch_sound o config batch (startIndex + length res) totalLinks st Hc)
      as (rs1 & st1 & Hrun & _).
    destruct (processBatch_complete batch _ totalLinks st rs1 st1 Hc Ha Hrun) as [Hd1 Ha1].
    rewrite Hrun. unfold andThen at 1. unfold get at 1. unfold andThen at 1.
    assert (Hgo : forall stx, abortController stx = abortController st1 ->
              forBatches o config rest startIndex totalLinks (res ++ rs1) stx = (Returns rs, st') ->
              map descriptor rs = map descriptor res ++ concat (batch :: rest)).
    { intros stx Hx H. rewrite (IH _ _ _ _ (eq_trans (aborted_eq _ _ Hx) Ha1) H).
      rewrite map_app, Hd1, <- app_assoc. reflexivity. }
    intros H. destruct (currentSession st1) as [r|].
    + unfold andThen at 1 in H.
      destruct (writeObj r _ st1) as [out1 st2] eqn:Hw1.
      pose proof (writeObj_abortController _ _ _ _ _ Hw1) as H2.
      destruct out1 as [[]| |]; try discriminate.
      unfold andThen at 1 in H.
      destruct (writeObj r _ st2) as [out2 st3] eqn:Hw2.
      pose proof (writeObj_abortController _ _ _ _ _ Hw2) as H3.
      destruct out2 as [[]| |]; try discriminate.
      destruct (saveSession o r st3) as [out3 st4] eqn:Hsv.
      pose proof (saveSession_abortController _ _ _ _ Hsv) as H4.
      destruct out3 as [[]| |]; try discriminate.
      apply (Hgo st4); [congruence|exact H].
    + cbn in H. exact (Hgo st1 eq_refl H).
Qed.

Lemma processLinks_complete links st rs st' :
  0 < concurrency config ->
  aborted st = false ->
  processLinks o config links st = (Returns rs, st') ->
  map descriptor rs = links.
Proof.
  intros Hc Ha. unfold processLinks. unfold andThen at 1. unfold get at 1.
  unfold andThen at 1.
  assert (Hgo : forall batches startIndex totalLinks,
            chunkLoop (length links) links (batchSize config) 0 [] = Some batches ->
            forBatches o config batches startIndex totalLinks [] st = (Returns rs, st') ->
            map descriptor rs = links).
  { intros batches startIndex totalLinks Ech H.
    rewrite (forBatches_complete _ _ _ Hc _ _ _ _ Ha H). cbn [map app].
    destruct (Nat.eq_dec (batchSize config) 0) as [Hz|Hnz].
    - destruct links as [|l links'].
      + cbn in Ech. injection Ech as <-. reflexivity.
      + rewrite Hz, chunkLoop_zero in Ech by (cbn; lia). discriminate.
    - destruct (chunkLoop_spec links (batchSize config) (length links) 0 []
                  ltac:(lia) ltac:(lia)) as (bs & E & Hbs).
      rewrite Ech in E. injection E as ->. cbn [app].
      rewrite Hbs, drop_0. reflexivity. }
  destruct (currentSession st) as [r|].
  - unfold andThen at 1. unfold readObj.
    destruct (heap st !! r) as [s|]; [|discriminate].
    cbn [pure].
    destruct (chunkLoop _ _ _ _ _) as [batches|] eqn:Ech; [|discriminate].
    apply Hgo. reflexivity.
  - cbn [pure].
    destruct (chunkLoop _ _ _ _ _) as [batches|] eqn:Ech; [|discriminate].
    apply Hgo. reflexivity.
Qed.

(** Without a cancellation, a run of [start] that returns gives the
    outcome of every link, in the order of the links. *)
Lemma start_complete pageUrl links st rs st' :
  isRunning st = false ->
  0 < concurrency config ->
  start o config pageUrl links st = (Returns rs, st') ->
  map descriptor rs = links.
Proof.
  intros Hidle Hc.
  unfold start. unfold andThen at 1. cbn [get]. rewrite Hidle.
  unfold andThen at 1. unfold alloc at 1.
  set (s0 := createSession _ _ pageUrl links).
  set (r := length (heap st)).
  do 3 (unfold andThen at 1; unfold modify at 1).
  match goal with |- context [andThen (saveSession o r) _ ?x] => set (st2 := x) end.
  unfold andThen at 1.
  destruct (saveSession o r st2) as [out3 st3] eqn:Es.
  pose proof (saveSession_abortController _ _ _ _ Es) as H3.
  destruct out3 as [[]| |]; try discriminate.
  assert (Ha3 : aborted st3 = false) by (rewrite (aborted_eq _ _ H3); reflexivity).
  intros H.
  apply guarded_reports in H as (out1 & st1 & Epl & _ & _ & _ & Hret).
  2:{ intros v. apply Silent_andThen; [apply Silent_get|]. intros stx.
      apply Silent_finish. intros r'.
      apply Silent_andThen; [apply Silent_writeObj|]. intros _.
      apply Silent_andThen; [apply Silent_writeObj|]. intros _.
      apply Silent_saveSession. }
  2:{ intros t. apply Silent_onError. }
  2:{ apply cleanup_silent. }
  destruct (Hret rs eq_refl) as [(v1 & sa & sb & -> & Hk)|(t & sa & sb & Hh)].
  - unfold andThen at 1 in Hk. cbn [get] in Hk.
    apply finish_returns in Hk. subst rs.
    exact (processLinks_complete links st3 v1 st1 Hc Ha3 Epl).
  - destruct (onError_never_returns o t sa _ sb Hh rs). reflexivity.
Qed.

End UncancelledFacts.

(** ** Service worker: what a popup receives over a run *)

Section BackgroundFacts.
Import LinkValidator Messaging Orchestrator Background.
Local Open Scope nat_scope.
Local Open Scope list_scope.

Lemma calls_reports (w : World) (reports : list ValidationProgress.t) :
  map snd (calls w reports) = reports.
Proof.
  unfold calls. generalize (call w). intros f. revert f.
  induction reports as [|p reports IH]; intros f; [reflexivity|].
  cbn. f_equal. apply IH.
Qed.

Lemma calls_messages (w : World) (reports : list ValidationProgress.t) :
  map (fun wp => VALIDATION_PROGRESS (snd wp)) (calls w reports)
  = map VALIDATION_PROGRESS reports.
Proof.
  rewrite <- (calls_reports w reports) at 2. rewrite map_map. reflexivity.
Qed.

Lemma reportCancelled_received (w : Notifier.World) (st : Notifier.State) (port : Port) :
  NoDup (ports (Notifier.portManager st)) ->
  exists tail,
    Notifier.inbox port (Notifier.reportCancelled w st) = Notifier.inbox port st ++ tail /\
    Forall (fun m => forall rs, m <> VALIDATION_COMPLETE rs) tail.
Proof.
  intros Hnd. unfold Notifier.reportCancelled, Notifier.clearState, Notifier.inbox.
  assert (Hgo : forall st1,
            Notifier.portManager
              (if Notifier.storageFails w 0 then st1
               else Notifier.withStorage
                      {| Notifier.lastProgress := None; Notifier.validationResults := None |}
                      st1)
            = Notifier.portManager st1).
  { intros st1. destruct (Notifier.storageFails w 0); reflexivity. }
  rewrite Hgo.
  destruct (Notifier.currentProgress st) as [p|].
  - cbn [Notifier.portManager Notifier.withPortManager].
    rewrite (broadcast_received _ _ _ port Hnd).
    eexists. split; [reflexivity|].
    destruct (bool_decide _); [|constructor].
    constructor; [discriminate|constructor].
  - exists []. rewrite app_nil_r. split; [reflexivity|constructor].
Qed.

Lemma reportCancelled_ports (w : Notifier.World) (st : Notifier.State) (port : Port) :
  port ∈ ports (Notifier.portManager (Notifier.reportCancelled w st)) ->
  port ∈ ports (Notifier.portManager st).
Proof.
  unfold Notifier.reportCancelled, Notifier.clearState.
  destruct (Notifier.storageFails w 0), (Notifier.currentProgress st) as [p|];
    cbn [Notifier.portManager Notifier.withPortManager Notifier.withStorage];
    try exact id.
  all: rewrite broadcast_ports; intros H; apply elem_of_filter in H as [H _]; exact H.
Qed.

(** X24.  What a popup receives over a validation run during which no
    CANCEL_CHECK arrives and no port connects or disconnects.  For a
    [startValidation] on an idle processor with at least one permit and
    a positive batch size, whatever the
    order in which probes settle, the storage failures and the ports that
    break: the run of [start] ends; its reports count 1, 2, 3, ... with
    the number of links as total; when [start] returns, it returns the
    outcome of every link, in the order of the links, and there were as
    many reports as links; and a port that is still connected at the end
    has received, after what it had, one VALIDATION_PROGRESS per report
    in that order, followed, when [start] returned, by one
    VALIDATION_COMPLETE carrying exactly the outcomes returned, so that a
    popup reading them ends in phase 'completed' with these results and
    their summary; when [start] threw, no VALIDATION_COMPLETE follows. *)
Theorem startValidation_stream (w : World) (config : Config)
    (links : list LinkInfo.t) (pageUrl : string) (st : State) :
  isRunning (processor st) = false ->
  NoDup (ports (Notifier.portManager (notifier st))) ->
  0 < concurrency config ->
  0 < batchSize config ->
  let st' := startValidation w config links pageUrl st in
  exists out reports,
    start (oracle w) config pageUrl links (onProgress (processor st)) = (out, processor st') /\
    out <> Diverges /\
    reported (processor st') = reported (processor st) ++ reports /\
    map ValidationProgress.completed reports = seq 1 (length reports) /\
    Forall (fun p => ValidationProgress.total p = length links) reports /\
    (forall rs, out = Returns rs ->
       map descriptor rs = links /\ length reports = length links) /\
    forall port,
      port ∈ ports (Notifier.portManager (notifier st')) ->
      (forall rs, out = Returns rs ->
         length reports = length rs /\
         omap ValidationProgress.current reports ≡ₚ rs /\
         Notifier.inbox port (notifier st')
         = Notifier.inbox port (notifier st)
           ++ map VALIDATION_PROGRESS reports ++ [VALIDATION_COMPLETE rs] /\
         forall popup,
           let popup' :=
             Notifier.popupReads
               (map VALIDATION_PROGRESS reports ++ [VALIDATION_COMPLETE rs]) popup in
           Popup.phase popup' = Popup.completed /\
           Popup.results popup' = rs /\
           Popup.summary popup' = Popup.calculateSummary rs) /\
      (forall t, out = Throws t ->
         exists tail,
           Notifier.inbox port (notifier st')
           = Notifier.inbox port (notifier st) ++ map VALIDATION_PROGRESS reports ++ tail /\
           Forall (fun m => forall rs, m <> VALIDATION_COMPLETE rs) tail).
Proof.
  intros Hidle Hnd Hc Hb. cbv zeta. unfold startValidation.
  destruct (start (oracle w) config pageUrl links (onProgress (processor st)))
    as [out p1] eqn:E.
  destruct (start_reports (oracle w) config pageUrl links (onProgress (processor st))
              out p1 Hidle Hc E)
    as (Hd & rep & new & Hrep & Hle & Hret & Hcount).
  cbn [progressCallback onProgress] in Hcount.
  change (reported (onProgress (processor st))) with (reported (processor st)) in *.
  rewrite Hrep, drop_app_length.
  pose proof (CountsUp_length _ _ _ _ Hcount) as Hlen.
  destruct Hcount as (Hc1 & Ht & Hp).
  exists out, rep. cbn [processor notifier].
  split_and!; [reflexivity|exact (Hd Hb)|exact Hrep|rewrite Hlen; exact Hc1|exact Ht| |].
  { intros rs ->.
    pose proof (start_complete (oracle w) config (fun _ => eq_refl) pageUrl links
                  (onProgress (processor st)) rs p1 Hidle Hc E) as Hall.
    split; [exact Hall|].
    rewrite Hlen, <- (Hret rs eq_refl). rewrite <- Hall. rewrite length_map. reflexivity. }
  destruct (reportAll_spec (calls w rep) (notifier st) Hnd) as (Hnd1 & Hports1 & Hrecv1).
  cbv zeta in Hrecv1. rewrite calls_messages in Hrecv1.
  set (n1 := Notifier.reportAll (calls w rep) (notifier st)) in *.
  intros port Hin. destruct (Hrecv1 port) as (Hall & _ & _). split.
  - intros rs ->. cbv iota in Hin |- *.
    pose proof (Hret rs eq_refl) as Hrs. subst rs.
    split_and!; [exact Hlen|exact Hp| |].
    + destruct (broadcast_step (Notifier.postThrows (call w (length rep)))
                  (VALIDATION_COMPLETE new) (Notifier.portManager n1) Hnd1)
        as (_ & Hports2 & Hrecv2).
      rewrite <- reportComplete_portManager in Hports2, Hrecv2.
      unfold Notifier.inbox in *. rewrite (Hrecv2 port).
      rewrite bool_decide_eq_true_2 by exact Hin.
      rewrite Hall, <- app_assoc; [reflexivity|].
      rewrite Hports2 in Hin. apply elem_of_filter in Hin as [Hin _]. exact Hin.
    + intros popup. apply popupReads_completion.
  - intros t ->. cbv iota in Hin |- *. destruct (sessionCancelled p1).
    + destruct (reportCancelled_received (call w (length rep)) n1 port Hnd1)
        as (tail & Htail & Hno).
      exists tail. split; [|exact Hno].
      rewrite Htail, Hall, <- app_assoc; [reflexivity|].
      apply reportCancelled_ports in Hin. exact Hin.
    + exists []. split; [|constructor]. rewrite app_nil_r. apply Hall. exact Hin.
Qed.

End BackgroundFacts.

Section BackgroundWitness.
Import LinkValidator Messaging Orchestrator Scenarios Background.
Local Open Scope nat_scope.
Local Open Scope list_scope.

Lemma startValidation_stream_witness :
  let w := quietWorld (fun _ => 2) in
  let st' := startValidation w defaultConfig (page 3) "https://example.test/" watched in
  exists out reports,
    start (oracle w) defaultConfig "https://example.test/" (page 3)
      (onProgress (processor watched)) = (out, processor st') /\
    out <> Diverges /\
    reported (processor st') = reported (processor watched) ++ reports /\
    map ValidationProgress.completed reports = seq 1 (length reports) /\
    Forall (fun p => ValidationProgress.total p = length (page 3)) reports /\
    (forall rs, out = Returns rs ->
       map descriptor rs = page 3 /\ length reports = length (page 3)) /\
    forall port,
      port ∈ ports (Notifier.portManager (notifier st')) ->
      (forall rs, out = Returns rs ->
         length reports = length rs /\
         omap ValidationProgress.current reports ≡ₚ rs /\
         Notifier.inbox port (notifier st')
         = Notifier.inbox port (notifier watched)
           ++ map VALIDATION_PROGRESS reports ++ [VALIDATION_COMPLETE rs] /\
         forall popup,
           let popup' :=
             Notifier.popupReads
               (map VALIDATION_PROGRESS reports ++ [VALIDATION_COMPLETE rs]) popup in
           Popup.phase popup' = Popup.completed /\
           Popup.results popup' = rs /\
           Popup.summary popup' = Popup.calculateSummary rs) /\
      (forall t, out = Throws t ->
         exists tail,
           Notifier.inbox port (notifier st')
           = Notifier.inbox port (notifier watched)
             ++ map VALIDATION_PROGRESS reports ++ tail /\
           Forall (fun m => forall rs, m <> VALIDATION_COMPLETE rs) tail).
Proof.
  exact (startValidation_stream (quietWorld (fun _ => 2)) defaultConfig
           (page 3) "https://example.test/" watched eq_refl two_ports
           (Nat.lt_0_succ 4) (Nat.lt_0_succ 19)).
Defined.

End BackgroundWitness.

(** ** CSV export: the report *)

Section CsvReportFacts.
Import JsString CsvExporter CsvReport.
Local Open Scope nat_scope.
Local Open Scope list_scope.

#[local] Arguments String.append !_ _ : simpl nomatch.

Variable formatDateTime : string -> string.

Lemma special_none (s : string) :
  special s = false -> mem "," s = false /\ mem dquote s = false /\ mem cr s = false.
Proof.
  unfold special. intros H.
  destruct (mem "," s), (mem dquote s), (mem cr s); try discriminate.
  split_and!; reflexivity.
Qed.

Lemma fieldEnd_lineEnd (r : string) : lineEnd r -> fieldEnd r.
Proof.
  intros [->|[r' ->]]; [left; reflexivity|]. right. right. eexists. reflexivity.
Qed.

Lemma fieldEnd_unquoted (r : string) : fieldEnd r -> forall x, r <> String dquote x.
Proof. intros [->|[[r' ->]|[r' ->]]] x; discriminate. Qed.

Lemma field_plain_split (a b r1 r2 : string) :
  special a = false -> special b = false ->
  fieldEnd r1 -> fieldEnd r2 ->
  (a ++ r1 = b ++ r2)%string -> a = b /\ r1 = r2.
Proof.
  revert b. induction a as [|c a IH]; intros [|d b] Ha Hb H1 H2 H; cbn in H.
  - split; [reflexivity|exact H].
  - exfalso. apply special_none in Hb as (Hb1 & _ & Hb3). cbn in Hb1, Hb3.
    destruct H1 as [->|[[r' ->]|[r' ->]]]; [discriminate| |].
    + injection H as <- _. cbn in Hb1. discriminate.
    + injection H as <- _. rewrite Ascii.eqb_refl in Hb3. discriminate.
  - exfalso. apply special_none in Ha as (Ha1 & _ & Ha3). cbn in Ha1, Ha3.
    destruct H2 as [->|[[r' ->]|[r' ->]]]; [discriminate| |].
    + injection H as -> _. cbn in Ha1. discriminate.
    + injection H as -> _. rewrite Ascii.eqb_refl in Ha3. discriminate.
  - injection H as -> H.
    assert (Ha' : special a = false).
    { unfold special in *. cbn [mem] in Ha.
      repeat (apply orb_false_elim in Ha as [Ha ?]).
      repeat match goal with H : (_ || _)%bool = false |- _ =>
        apply orb_false_elim in H as [_ H] end.
      repeat (apply orb_false_intro); assumption. }
    assert (Hb' : special b = false).
    { unfold special in *. cbn [mem] in Hb.
      repeat (apply orb_false_elim in Hb as [Hb ?]).
      repeat match goal with H : (_ || _)%bool = false |- _ =>
        apply orb_false_elim in H as [_ H] end.
      repeat (apply orb_false_intro); assumption. }
    destruct (IH b Ha' Hb' H1 H2 H) as [-> ->]. split; reflexivity.
Qed.

Lemma field_quoted_split (a b r1 r2 : string) :
  (forall x, r1 <> String dquote x) -> (forall x, r2 <> String dquote x) ->
  (doubleQuotes a ++ String dquote r1 = doubleQuotes b ++ String dquote r2)%string ->
  a = b /\ r1 = r2.
Proof.
  intros H1 H2. revert b.
  induction a as [|c a IH]; intros [|d b] H; cbn [doubleQuotes] in H.
  - cbn in H. injection H as ->. split; reflexivity.
  - exfalso. destruct (Ascii.eqb d dquote) eqn:E; cbn in H.
    + injection H as H. exact (H1 _ H).
    + injection H as H _. apply Ascii.eqb_neq in E. congruence.
  - exfalso. destruct (Ascii.eqb c dquote) eqn:E; cbn in H.
    + injection H as H. exact (H2 _ (eq_sym H)).
    + injection H as H _. apply Ascii.eqb_neq in E. congruence.
  - destruct (Ascii.eqb c dquote) eqn:Ec, (Ascii.eqb d dquote) eqn:Ed; cbn in H.
    + injection H as H. apply Ascii.eqb_eq in Ec, Ed. subst.
      destruct (IH b H) as [-> ->]. split; reflexivity.
    + exfalso. injection H as H _. apply Ascii.eqb_neq in Ed. congruence.
    + exfalso. injection H as H _. apply Ascii.eqb_neq in Ec. congruence.
    + injection H as -> H. destruct (IH b H) as [-> ->]. split; reflexivity.
Qed.

(** A cell can be read back from the front of the rest of the report. *)
Lemma field_split (v w : Cell) (r1 r2 : string) :
  fieldEnd r1 -> fieldEnd r2 ->
  (escapeCSVValue v ++ r1 = escapeCSVValue w ++ r2)%string ->
  shown v = shown w /\ r1 = r2.
Proof.
  intros H1 H2. rewrite !escapeCSVValue_shown.
  generalize (shown v) (shown w). intros a b.
  assert (Hmix : forall a b r1 r2, fieldEnd r1 -> special a = false ->
            (a ++ r1)%string <> (str1 dquote ++ doubleQuotes b ++ str1 dquote ++ r2)%string).
  { intros a' b' r1' r2' Hr Ha H. apply special_none in Ha as (_ & Ha & _).
    destruct a' as [|c a']; cbn in H.
    - exact (fieldEnd_unquoted r1' Hr _ H).
    - injection H as -> _. cbn in Ha. rewrite Ascii.eqb_refl in Ha. discriminate. }
  destruct (special a) eqn:Ea, (special b) eqn:Eb; intros H.
  - rewrite !append_assoc in H. cbn in H. injection H as H.
    exact (field_quoted_split a b r1 r2 (fieldEnd_unquoted r1 H1) (fieldEnd_unquoted r2 H2) H).
  - exfalso. rewrite !append_assoc in H. symmetry in H.
    exact (Hmix b a r2 r1 H2 Eb H).
  - exfalso. rewrite !append_assoc in H.
    exact (Hmix a b r1 r2 H1 Ea H).
  - exact (field_plain_split a b r1 r2 Ea Eb H1 H2 H).
Qed.

Lemma createCSVRow_cons (v : Cell) (vs : list Cell) :
  createCSVRow (v :: vs)
  = (escapeCSVValue v ++ match vs with
                         | [] => EmptyString
                         | _ => String ","%char (createCSVRow vs)
                         end)%string.
Proof.
  unfold createCSVRow. destruct vs as [|v' vs]; cbn [map String.concat].
  - rewrite append_empty_r. reflexivity.
  - reflexivity.
Qed.

(** A line can be read back from the front of the rest of the report. *)
Lemma row_split (vs ws : list Cell) (R1 R2 : string) :
  length vs = length ws ->
  lineEnd R1 -> lineEnd R2 ->
  (createCSVRow vs ++ R1 = createCSVRow ws ++ R2)%string ->
  map shown vs = map shown ws /\ R1 = R2.
Proof.
  intros Hlen H1 H2. revert ws Hlen.
  induction vs as [|v vs IH]; intros [|w ws] Hlen H; try discriminate.
  - cbn in H. split; [reflexivity|exact H].
  - injection Hlen as Hlen. rewrite !createCSVRow_cons, !append_assoc in H.
    apply field_split in H as [Hs Hr].
    + destruct vs as [|v' vs], ws as [|w' ws]; try discriminate.
      * cbn in Hr. cbn [map]. rewrite Hs. split; [reflexivity|exact Hr].
      * cbn [String.append] in Hr. injection Hr as Hr.
        destruct (IH (w' :: ws) Hlen Hr) as [Hm HR].
        cbn [map] in *. rewrite Hs, Hm. split; [reflexivity|exact HR].
    + destruct vs; [apply fieldEnd_lineEnd; exact H1|].
      right. left. eexists. reflexivity.
    + destruct ws; [apply fieldEnd_lineEnd; exact H2|].
      right. left. eexists. reflexivity.
Qed.

Lemma lineEnd_moreLines (rows : list (list Cell)) : lineEnd (moreLines rows).
Proof.
  destruct rows as [|row rows]; [left; reflexivity|]. right. eexists. reflexivity.
Qed.

Lemma concat_lines (row : list Cell) (rows : list (list Cell)) :
  String.concat LINE_TERMINATOR (map createCSVRow (row :: rows))
  = (createCSVRow row ++ moreLines rows)%string.
Proof.
  revert row. induction rows as [|row' rows IH]; intros row.
  - cbn [map String.concat moreLines]. rewrite append_empty_r. reflexivity.
  - change (String.concat LINE_TERMINATOR (map createCSVRow (row :: row' :: rows)))
      with (createCSVRow row ++ LINE_TERMINATOR
            ++ String.concat LINE_TERMINATOR (map createCSVRow (row' :: rows)))%string.
    rewrite IH. reflexivity.
Qed.

(** The lines of a report can be read back, when the two reports have
    lines of the same numbers of cells. *)
Lemma lines_split (rows rows' : list (list Cell)) :
  (forall i row row', rows !! i = Some row -> rows' !! i = Some row' ->
                      length row = length row') ->
  moreLines rows = moreLines rows' ->
  map (map shown) rows = map (map shown) rows'.
Proof.
  revert rows'. induction rows as [|row rows IH]; intros [|row' rows'] Hlen H;
    try discriminate; [reflexivity|].
  cbn [moreLines] in H. cbn [LINE_TERMINATOR String.append str1] in H.
  injection H as H.
  apply row_split in H as [Hs Hr].
  - cbn [map]. rewrite Hs. f_equal. apply IH; [|exact Hr].
    intros i a b Ha Hb. exact (Hlen (S i) a b Ha Hb).
  - exact (Hlen 0 row row' eq_refl eq_refl).
  - apply lineEnd_moreLines.
  - apply lineEnd_moreLines.
Qed.

Lemma append_cancel_l (a x y : string) : (a ++ x = a ++ y)%string -> x = y.
Proof.
  induction a as [|c a IH]; cbn; [exact id|]. intros [= H]. exact (IH H).
Qed.

Lemma generateCSV_rows (results : list ValidationResult.t) (pageUrl checkedAt : string) :
  generateCSV formatDateTime results pageUrl checkedAt
  = (UTF8_BOM ++ String.concat LINE_TERMINATOR
                   (map createCSVRow (reportRows formatDateTime results pageUrl checkedAt)))%string.
Proof.
  unfold generateCSV, reportRows. cbv zeta. f_equal. f_equal.
  rewrite !map_app, map_map. reflexivity.
Qed.

Lemma reportRows_cells (results : list ValidationResult.t) (pageUrl checkedAt : string)
    (i : nat) (row : list Cell) :
  reportRows formatDateTime results pageUrl checkedAt !! i = Some row ->
  length row = if Nat.eqb i 4 then 0 else 6.
Proof.
  unfold reportRows.
  do 6 (destruct i as [|i]; [intros [= <-]; reflexivity|]).
  cbn. intros H. apply list_lookup_fmap_Some in H as (r & -> & _). reflexivity.
Qed.

(** X25.  The report keeps its rows apart.  The cells of a result row
    show the URL, the status code as a decimal numeral (nothing when it
    is null), the status text, the tag ('A', 'IMG', 'LINK' or 'SCRIPT'),
    the link text (nothing when it is missing) and the formatted date.
    And two reports written by [generateCSV] that are the same text have
    the same page URL, the same formatted date, as many results, and show
    the same text in each of the six cells of each result row, whatever
    commas, quotes and line breaks the URLs and link texts hold: a line
    terminator or a separator inside a cell is never taken for the end of
    a row or of a cell. *)
Theorem generateCSV_unambiguous :
  (forall result : ValidationResult.t,
     map shown (resultRow formatDateTime result)
     = [ ValidationResult.url result;
         match ValidationResult.status result with
         | Some code => NilZero.string_of_int (Z.to_int code)
         | None => EmptyString
         end;
         ValidationResult.statusText result;
         match ValidationResult.tagName result with
         | A => "A"
         | IMG => "IMG"
         | LINK => "LINK"
         | SCRIPT => "SCRIPT"
         end;
         match ValidationResult.text result with
         | Some text => text
         | None => EmptyString
         end;
         formatDateTime (ValidationResult.checkedAt result) ]) /\
  forall (results results' : list ValidationResult.t)
         (pageUrl pageUrl' checkedAt checkedAt' : string),
    generateCSV formatDateTime results pageUrl checkedAt
    = generateCSV formatDateTime results' pageUrl' checkedAt' ->
    pageUrl = pageUrl' /\
    formatDateTime checkedAt = formatDateTime checkedAt' /\
    length results = length results' /\
    map (fun r => map shown (resultRow formatDateTime r)) results
    = map (fun r => map shown (resultRow formatDateTime r)) results'.
Proof.
  split.
  { intros [url status category statusText tag text elementId checkedAt].
    destruct status, tag, text; reflexivity. }
  intros results results' pageUrl pageUrl' checkedAt checkedAt' H.
  rewrite !generateCSV_rows in H.
  apply append_cancel_l in H.
  pose proof (reportRows_cells results pageUrl checkedAt) as Hc.
  pose proof (reportRows_cells results' pageUrl' checkedAt') as Hc'.
  assert (Hrows : map (map shown) (reportRows formatDateTime results pageUrl checkedAt)
                  = map (map shown) (reportRows formatDateTime results' pageUrl' checkedAt')).
  { destruct (reportRows formatDateTime results pageUrl checkedAt) as [|row rows] eqn:E;
      [discriminate E|].
    destruct (reportRows formatDateTime results' pageUrl' checkedAt') as [|row' rows'] eqn:E';
      [discriminate E'|].
    rewrite !concat_lines in H.
    apply row_split in H as [Hs Hr].
    - cbn [map]. rewrite Hs. f_equal. apply lines_split; [|exact Hr].
      intros i a b Ha Hb.
      rewrite (Hc (S i) a Ha), (Hc' (S i) b Hb). reflexivity.
    - rewrite (Hc 0 row eq_refl), (Hc' 0 row' eq_refl). reflexivity.
    - apply lineEnd_moreLines.
    - apply lineEnd_moreLines. }
  unfold reportRows in Hrows. cbn [app map shown stringOf] in Hrows.
  injection Hrows as Hp Hd _ Hm.
  rewrite !map_map in Hm.
  split_and!; [exact Hp|exact Hd| |exact Hm].
  apply (f_equal length) in Hm. rewrite !length_map in Hm. exact Hm.
Qed.

End CsvReportFacts.

Section CsvReportWitness.
Import JsString CsvExporter CsvReport.
Local Open Scope list_scope.

(** The report of one result whose URL holds a comma, as the code writes
    it; and the same text for a result that differs in what no cell
    shows (a missing link text or an empty one, the element). *)
Lemma generateCSV_unambiguous_witness :
  generateCSV (fun iso => iso) [sample None "lc-1"]
    "https://example.test/" "2026-01-01T00:00:00.000Z"
  = (UTF8_BOM
     ++ "Link Checker - 検証結果レポート,,,,," ++ LINE_TERMINATOR
     ++ "ページURL,https://example.test/,,,," ++ LINE_TERMINATOR
     ++ "検証日時,2026-01-01T00:00:00.000Z,,,," ++ LINE_TERMINATOR
     ++ "総リンク数,1,,,," ++ LINE_TERMINATOR
     ++ LINE_TERMINATOR
     ++ "URL,ステータスコード,ステータス,タグ,リンクテキスト,検証日時" ++ LINE_TERMINATOR
     ++ str1 dquote ++ "https://example.test/a,b" ++ str1 dquote
     ++ ",200,OK,A,,2026-01-01T00:00:00.000Z")%string /\
  "https://example.test/" = "https://example.test/" /\
  "2026-01-01T00:00:00.000Z" = "2026-01-01T00:00:00.000Z" /\
  length [sample None "lc-1"] = length [sample (Some EmptyString) "lc-2"] /\
  map (fun r => map shown (resultRow (fun iso => iso) r)) [sample None "lc-1"]
  = map (fun r => map shown (resultRow (fun iso => iso) r))
      [sample (Some EmptyString) "lc-2"].
Proof.
  split; [vm_compute; reflexivity|].
  exact (proj2 (generateCSV_unambiguous (fun iso => iso))
           [sample None "lc-1"] [sample (Some EmptyString) "lc-2"]
           "https://example.test/" "https://example.test/"
           "2026-01-01T00:00:00.000Z" "2026-01-01T00:00:00.000Z" eq_refl).
Defined.

End CsvReportWitness.
